(** * AI Dev Team (phase 3): state reducers, blueprint validator, Gemini wrapper

    A shallow embedding of three source files of the repository:

    - [config/state.js]              (module [StateStore]),
    - [agents/blueprintValidator.js] (module [Validator]),
    - [utils/gemini.js]              (module [Gemini]),

    followed by the properties proved of them ([StateStoreFacts],
    [ValidatorFacts], [GeminiFacts]).

    Conventions.  A JavaScript string is a [string]; one character stands for
    the UTF-16 code unit of the same number, so the string functions are
    those of JavaScript on text below U+0100.  [undefined] and [null] are
    [None].  A [TypeError] raised by a property access on [undefined] is the
    [TypeError] outcome of the validator's error monad.  Console output is
    not modelled. *)

From Stdlib Require Import Bool Arith List String Ascii ZArith QArith Lia.
From Stdlib Require Import DecimalString DecimalN.
Import ListNotations.

Local Close Scope Q_scope.
Local Open Scope nat_scope.
Local Open Scope string_scope.
Local Open Scope list_scope.

(* ================================================================== *)
(** ** JavaScript string primitives used by the sources *)

Module JsString.

(** [String.prototype.toLowerCase] on one code unit below 256: the letters
    A to Z, and the capitals U+00C0 to U+00DE without the sign U+00D7. *)
Definition lowerChar (c : ascii) : ascii :=
  let n := nat_of_ascii c in
  if ((65 <=? n)%nat && (n <=? 90)%nat)
     || ((192 <=? n)%nat && (n <=? 222)%nat && negb (n =? 215)%nat)
  then ascii_of_nat (n + 32) else c.

Fixpoint toLowerCase (s : string) : string :=
  match s with
  | EmptyString => EmptyString
  | String c r => String (lowerChar c) (toLowerCase r)
  end.

Definition startsWith (s p : string) : bool := String.prefix p s.

Fixpoint rev (s : string) : string :=
  match s with
  | EmptyString => EmptyString
  | String c r => rev r ++ String c EmptyString
  end.

Definition endsWith (s p : string) : bool := String.prefix (rev p) (rev s).

(** [s.includes(p)]. *)
Definition includes (s p : string) : bool :=
  match String.index 0 p s with Some _ => true | None => false end.

(** Drop the last [n] characters. *)
Definition dropLast (n : nat) (s : string) : string :=
  String.substring 0 (String.length s - n) s.

Definition drop (n : nat) (s : string) : string :=
  String.substring n (String.length s - n) s.

(** White space and line terminators of [String.prototype.trim] below
    code unit 256: TAB, LF, VT, FF, CR, SP and NBSP. *)
Definition isWhite (c : ascii) : bool :=
  let n := nat_of_ascii c in
  ((9 <=? n)%nat && (n <=? 13)%nat) || (n =? 32)%nat || (n =? 160)%nat.

Fixpoint trimStart (s : string) : string :=
  match s with
  | EmptyString => EmptyString
  | String c r => if isWhite c then trimStart r else s
  end.

Definition trim (s : string) : string := rev (trimStart (rev (trimStart s))).

(** The class [\w] of a regular expression without the [u] or [i] flag. *)
Definition isWord (c : ascii) : bool :=
  let n := nat_of_ascii c in
  ((48 <=? n)%nat && (n <=? 57)%nat) || ((65 <=? n)%nat && (n <=? 90)%nat)
  || ((97 <=? n)%nat && (n <=? 122)%nat) || (n =? 95)%nat.

(** Longest prefix of word characters, and what follows it. *)
Fixpoint spanWord (s : string) : string * string :=
  match s with
  | EmptyString => (EmptyString, EmptyString)
  | String c r =>
      if isWord c then let (w, t) := spanWord r in (String c w, t)
      else (EmptyString, s)
  end.

(** [s.join(", ")] on an array of strings. *)
Fixpoint join (sep : string) (l : list string) : string :=
  match l with
  | [] => ""
  | [x] => x
  | x :: r => x ++ sep ++ join sep r
  end.

End JsString.

(* ================================================================== *)
(** ** config/state.js: the reducers of [AgentState] *)

Module StateStore.

(** [y ?? d]: the right operand when the left one is [null] or
    [undefined]. *)
Definition nullish {A : Type} (y : option A) (d : A) : A :=
  match y with Some v => v | None => d end.

(** The "replace" reducers all have the shape [(_, y) => y ?? d], where [d]
    repeats the field's default. *)
Definition replaceReducer {A : Type} (d : A) (_ : A) (y : option A) : A :=
  nullish y d.

(** [userRequirement]: [reducer: (_, y) => y ?? ""]. *)
Definition userRequirement_default : string := "".
Definition userRequirement_reducer : string -> option string -> string :=
  replaceReducer "".

(** [pmStatus]: [reducer: (_, y) => y ?? "idle"]. *)
Definition pmStatus_default : string := "idle".
Definition pmStatus_reducer : string -> option string -> string :=
  replaceReducer "idle".

(** [pmQuestions]: [reducer: (_, y) => y ?? []]. *)
Definition pmQuestions_default : list string := [].
Definition pmQuestions_reducer
  : list string -> option (list string) -> list string :=
  replaceReducer [].

(** A field's value after a sequence of updates went through its reducer. *)
Definition applyUpdates {A U : Type} (reducer : A -> U -> A)
    (current : A) (updates : list U) : A :=
  fold_left reducer updates current.

(** The last update of a sequence that is not [null]/[undefined]. *)
Fixpoint lastNonNull {A : Type} (updates : list (option A)) : option A :=
  match updates with
  | [] => None
  | u :: r =>
      match lastNonNull r with
      | Some v => Some v
      | None => u
      end
  end.

(** *** fileRegistry *)

Record FunctionSig := mkFunctionSig {
  fn_name : string; fn_args : string; fn_does : string;
  fn_returns : string; fn_sideEffects : string }.

Record FileEntry := mkFileEntry {
  path : string;
  functions : list FunctionSig;
  exports : list string;
  dependencies : list string;
  pattern : string }.

(** What a node may hand to the reducer: nothing, an array of entries, or
    some other truthy value. *)
Inductive Incoming :=
| Nothing
| Arr (entries : list FileEntry)
| NotArray.

(** A JavaScript [Map] with string keys: the entries in insertion order. *)
Definition JsMap (V : Type) : Type := list (string * V).

(** [map.set(k, v)]: a key already present keeps its place and gets the new
    value, a new key goes to the end. *)
Fixpoint mapSet {V : Type} (k : string) (v : V) (m : JsMap V) : JsMap V :=
  match m with
  | [] => [(k, v)]
  | (k', v') :: r =>
      if String.eqb k' k then (k', v) :: r else (k', v') :: mapSet k v r
  end.

(** [new Map(pairs)]. *)
Definition mapOf {V : Type} (pairs : list (string * V)) : JsMap V :=
  fold_left (fun m kv => mapSet (fst kv) (snd kv) m) pairs [].

Definition mapValues {V : Type} (m : JsMap V) : list V := map snd m.

Definition fileRegistry_default : list FileEntry := [].

(** [for (const entry of entries) map.set(entry.path, entry)]. *)
Definition upsertAll (m : JsMap FileEntry) (entries : list FileEntry)
  : JsMap FileEntry :=
  fold_left (fun m entry => mapSet (path entry) entry m) entries m.

Definition fileRegistry_reducer (existing : list FileEntry)
    (incoming : Incoming) : list FileEntry :=
  match incoming with
  | Nothing => existing
  | Arr entries =>
      let map0 := mapOf (map (fun f => (path f, f)) existing) in
      let map1 := upsertAll map0 entries in
      mapValues map1
  | NotArray => existing
  end.

(** Every entry handed over by the array updates of a sequence, in order. *)
Definition arrivals (updates : list Incoming) : list FileEntry :=
  flat_map (fun u => match u with Arr l => l | _ => [] end) updates.

(** The entry most recently seen for a path. *)
Definition latest (p : string) (l : list FileEntry) : option FileEntry :=
  find (fun e => String.eqb (path e) p) (List.rev l).

Definition lookup (p : string) (l : list FileEntry) : option FileEntry :=
  find (fun e => String.eqb (path e) p) l.

(** The strings of [l] that are not in [seen], each once, in the order of
    their first appearance. *)
Fixpoint firstAppearances (seen : list string) (l : list string)
  : list string :=
  match l with
  | [] => []
  | x :: r =>
      if existsb (String.eqb x) seen then firstAppearances seen r
      else x :: firstAppearances (seen ++ [x]) r
  end.

(** The last update of a sequence, if there is one. *)
Fixpoint lastUpdate {U : Type} (updates : list U) : option U :=
  match updates with
  | [] => None
  | [u] => Some u
  | _ :: r => lastUpdate r
  end.


(** *** Notions used to state the properties of the registry *)

(** The keys of a map, in insertion order. *)
Definition keys {V : Type} (m : JsMap V) : list string := map fst m.

Definition mem (k : string) (l : list string) : bool :=
  existsb (String.eqb k) l.

(** Every value sits under its own path. *)
Definition wellKeyed (m : JsMap FileEntry) : Prop :=
  forall k e, In (k, e) m -> path e = k.

(** The registry that results from a list of entries seen one after the
    other. *)
Definition registryOf (l : list FileEntry) : list FileEntry :=
  mapValues (upsertAll [] l).

(** The value stored under a key. *)
Definition valueAt {V : Type} (k : string) (m : JsMap V) : option V :=
  option_map snd (find (fun kv => String.eqb (fst kv) k) m).

End StateStore.

(* ================================================================== *)
(** ** agents/blueprintValidator.js *)

Module Validator.
Import JsString.

(** *** Outcome of a computation that may raise *)

Inductive Result (A : Type) : Type :=
| Normal (a : A)
| TypeError (what : string).
Arguments Normal {A} a.
Arguments TypeError {A} what.

Definition bind {A B : Type} (r : Result A) (k : A -> Result B) : Result B :=
  match r with
  | Normal a => k a
  | TypeError w => TypeError w
  end.

Notation "x <- c ;; k" := (bind c (fun x => k))
  (at level 61, c at next level, right associativity).

(** [l.map(f)] where [f] may raise: the first raise aborts the whole map. *)
Fixpoint mapM {A B : Type} (f : A -> Result B) (l : list A)
  : Result (list B) :=
  match l with
  | [] => Normal []
  | a :: r => b <- f a ;; bs <- mapM f r ;; Normal (b :: bs)
  end.

(** *** The blueprint, as far as the validator reads it *)

Record Entity := mkEntity { e_name : option string }.

Record ForeignKey := mkForeignKey { references : option string }.

Record Table := mkTable {
  t_name : option string;
  foreignKeys : option (list ForeignKey) }.

Record DbSchema := mkDbSchema { tables : option (list Table) }.

Record Endpoint := mkEndpoint {
  method : option string;
  ep_path : option string;
  relatedTable : option string;
  ep_requiresAuth : bool }.

Record Component := mkComponent {
  c_name : option string;
  apiCalls : option (list string) }.

Record Page := mkPage {
  p_name : option string;
  p_requiresAuth : bool;
  components : option (list Component) }.

Record Blueprint := mkBlueprint {
  entities : option (list Entity);
  dbSchema : option DbSchema;
  apiEndpoints : option (list Endpoint);
  frontendPages : option (list Page) }.

(** *** Issues and the validation record *)

Inductive IssueType :=
| missing_table | invalid_foreign_key | orphan_endpoint
| missing_api | auth_mismatch | orphan_table.

Inductive Severity := error | warning.

(** The three nodes an issue can be routed back to. *)
Inductive FixTarget := architectStep2 | architectStep3 | architectStep4.

Definition nodeName (t : FixTarget) : string :=
  match t with
  | architectStep2 => "architectStep2"
  | architectStep3 => "architectStep3"
  | architectStep4 => "architectStep4"
  end.

Record Issue := mkIssue {
  type : IssueType;
  severity : Severity;
  fixTarget : FixTarget;
  message : string }.

Record Validation := mkValidation {
  isValid : bool;
  issues : option (list Issue);
  validationCycles : option Z }.

Record State := mkState {
  blueprint : option Blueprint;
  blueprintValidation : option Validation }.

(** The partial update a node returns. *)
Record Update := mkUpdate {
  upd_blueprintValidation : Validation;
  upd_currentPhase : option string }.

Definition MAX_VALIDATION_CYCLES : Z := 2.

(** *** Helpers for the expressions of the checks *)

(** The double quote character, as a string. *)
Definition dq : string := String (ascii_of_nat 34) EmptyString.

(** A value inside a template literal. *)
Definition show (v : option string) : string :=
  match v with Some s => s | None => "undefined" end.

(** [t.name.toLowerCase()]: raises when the name is missing. *)
Definition lowerName (what : string) (n : option string) : Result string :=
  match n with
  | Some s => Normal (toLowerCase s)
  | None => TypeError what
  end.

(** [s.replace(/s$/, "")]. *)
Definition stripFinalS (s : string) : string :=
  if endsWith s "s" then dropLast 1 s else s.

(** [s.replace(/y$/, "ie")]. *)
Definition finalYtoIe (s : string) : string :=
  if endsWith s "y" then dropLast 1 s ++ "ie" else s.

(** [set.has(x)] for a set of strings kept as a list. *)
Definition has (set : list string) (x : string) : bool :=
  existsb (String.eqb x) set.

(** [set.has(x)] for a set that may hold [undefined]. *)
Definition hasOpt (set : list (option string)) (x : string) : bool :=
  existsb (fun o => match o with Some y => String.eqb y x | None => false end)
    set.

(** [s.match(/^(\w+)\(/)]: the captured group, when the match succeeds. *)
Definition matchReference (s : string) : option string :=
  let (w, rest) := spanWord s in
  match w with
  | EmptyString => None
  | _ => if startsWith rest "(" then Some w else None
  end.

(** [s.replace(/\/:\w+/g, "/:param")].  [skip] counts the characters of the
    current match that are still to be passed over. *)
Fixpoint replaceParams (skip : nat) (s : string) : string :=
  match s with
  | EmptyString => EmptyString
  | String c r =>
      match skip with
      | S k => replaceParams k r
      | O =>
          match c, r with
          | "/"%char, String ":"%char r' =>
              match fst (spanWord r') with
              | EmptyString => String c (replaceParams 0 r)
              | w => "/:param" ++ replaceParams (1 + String.length w) r
              end
          | _, _ => String c (replaceParams 0 r)
          end
      end
  end.

Definition normalizeParams (s : string) : string := replaceParams 0 s.

(** JavaScript truthiness of a possibly missing string. *)
Definition truthy (v : option string) : bool :=
  match v with
  | Some EmptyString => false
  | Some _ => true
  | None => false
  end.

(** *** CHECK 1: every entity has a DB table *)

Definition check1 (entities : option (list Entity))
    (dbSchema : option DbSchema) : Result (list Issue) :=
  match entities, option_map tables dbSchema with
  | Some ents, Some (Some tbls) =>
      normalized <- mapM (fun t =>
        n <- lowerName "t.name" (t_name t) ;; Normal (stripFinalS n)) tbls ;;
      exact <- mapM (fun t => lowerName "t.name" (t_name t)) tbls ;;
      let tableNames := normalized ++ exact in
      found <- mapM (fun entity =>
        entityName <- lowerName "entity.name" (e_name entity) ;;
        let hasTable :=
          has tableNames entityName
          || has tableNames (entityName ++ "s")
          || has tableNames (finalYtoIe entityName ++ "s") in
        if negb hasTable then
          Normal [ {| type := missing_table;
                      severity := error;
                      fixTarget := architectStep2;
                      message :=
                        "Entity " ++ dq ++ show (e_name entity) ++ dq
                        ++ " has no matching DB table. Tables: ["
                        ++ join ", " (map (fun t => show (t_name t)) tbls)
                        ++ "]" |} ]
        else Normal []) ents ;;
      Normal (List.concat found)
  | _, _ => Normal []
  end.

(** *** CHECK 2: foreign keys reference existing tables *)

Definition check2_fk (tableNameSet : list string) (table : Table)
    (fk : ForeignKey) : list Issue :=
  match option_map matchReference (references fk) with
  | Some (Some captured) =>
      let refTable := toLowerCase captured in
      if negb (has tableNameSet refTable) then
        [ {| type := invalid_foreign_key;
             severity := error;
             fixTarget := architectStep2;
             message :=
               "Table " ++ dq ++ show (t_name table) ++ dq
               ++ " has FK referencing " ++ dq ++ show (references fk) ++ dq
               ++ " but table " ++ dq ++ refTable ++ dq
               ++ " does not exist." |} ]
      else []
  | _ => []
  end.

Definition check2 (dbSchema : option DbSchema) : Result (list Issue) :=
  match option_map tables dbSchema with
  | Some (Some tbls) =>
      tableNameSet <- mapM (fun t => lowerName "t.name" (t_name t)) tbls ;;
      Normal (flat_map (fun table =>
        match foreignKeys table with
        | Some fks => flat_map (check2_fk tableNameSet table) fks
        | None => []
        end) tbls)
  | _ => Normal []
  end.

(** *** CHECK 3: API endpoints reference existing tables *)

Definition check3 (apiEndpoints : option (list Endpoint))
    (dbSchema : option DbSchema) : Result (list Issue) :=
  match apiEndpoints, option_map tables dbSchema with
  | Some eps, Some (Some tbls) =>
      tableNameSet <- mapM (fun t => lowerName "t.name" (t_name t)) tbls ;;
      Normal (flat_map (fun endpoint =>
        match relatedTable endpoint with
        | Some (String _ _ as name) =>
            let related := toLowerCase name in
            if negb (has tableNameSet related) then
              [ {| type := orphan_endpoint;
                   severity := error;
                   fixTarget := architectStep3;
                   message :=
                     "API " ++ dq ++ show (method endpoint) ++ " "
                     ++ show (ep_path endpoint) ++ dq ++ " references table "
                     ++ dq ++ name ++ dq ++ " which doesn't exist." |} ]
            else []
        | _ => []
        end) eps)
  | _, _ => Normal []
  end.

(** *** CHECK 4: frontend pages reference existing APIs *)

(** The arrow of the message, U+2192, the one character of the program's
    literals above U+00FF; it is spelled in its UTF-8 bytes, and no code
    looks into a message. *)
Definition arrow : string :=
  String (ascii_of_nat 226) (String (ascii_of_nat 134)
    (String (ascii_of_nat 146) EmptyString)).

Definition check4_call (apiPaths : list (option string)) (page : Page)
    (comp : Component) (apiCall : string) : list Issue :=
  let normalized := normalizeParams (toLowerCase apiCall) in
  let exists_ :=
    existsb (fun path =>
      match path with
      | Some p =>
          String.eqb (normalizeParams p) normalized
          || String.eqb p (toLowerCase apiCall)
      | None => false
      end) apiPaths in
  if negb exists_ then
    [ {| type := missing_api;
         severity := warning;
         fixTarget := architectStep3;
         message :=
           "Page " ++ dq ++ show (p_name page) ++ dq ++ " " ++ arrow
           ++ " Component " ++ dq ++ show (c_name comp) ++ dq ++ " calls "
           ++ dq ++ apiCall ++ dq
           ++ " but no matching API endpoint exists." |} ]
  else [].

Definition check4 (frontendPages : option (list Page))
    (apiEndpoints : option (list Endpoint)) : list Issue :=
  match frontendPages, apiEndpoints with
  | Some pages, Some eps =>
      let apiPaths := map (fun e => option_map toLowerCase (ep_path e)) eps in
      flat_map (fun page =>
        match components page with
        | Some comps =>
            flat_map (fun comp =>
              match apiCalls comp with
              | Some calls => flat_map (check4_call apiPaths page comp) calls
              | None => []
              end) comps
        | None => []
        end) pages
  | _, _ => []
  end.

(** *** CHECK 5: auth consistency *)

Definition check5 (apiEndpoints : option (list Endpoint))
    (frontendPages : option (list Page)) : list Issue :=
  match apiEndpoints, frontendPages with
  | Some eps, Some pages =>
      let authEndpoints :=
        map (fun e => option_map toLowerCase (ep_path e))
          (filter ep_requiresAuth eps) in
      flat_map (fun page =>
        match components page with
        | Some comps =>
            flat_map (fun comp =>
              match apiCalls comp with
              | Some calls =>
                  let callsAuthApi :=
                    existsb (fun c => hasOpt authEndpoints (toLowerCase c))
                      calls in
                  if callsAuthApi && negb (p_requiresAuth page) then
                    [ {| type := auth_mismatch;
                         severity := warning;
                         fixTarget := architectStep4;
                         message :=
                           "Page " ++ dq ++ show (p_name page) ++ dq
                           ++ " calls auth-required API but page.requiresAuth is false." |} ]
                  else []
              | None => []
              end) comps
        | None => []
        end) pages
  | _, _ => []
  end.

(** *** CHECK 6: no orphan tables *)

Definition check6 (dbSchema : option DbSchema)
    (apiEndpoints : option (list Endpoint)) : Result (list Issue) :=
  match option_map tables dbSchema, apiEndpoints with
  | Some (Some tbls), Some eps =>
      let referencedTables :=
        filter (fun s => negb (String.eqb s ""))
          (flat_map (fun e =>
             match relatedTable e with
             | Some r => [toLowerCase r]
             | None => []
             end) eps) in
      found <- mapM (fun table =>
        name <- lowerName "table.name" (t_name table) ;;
        let isJunction :=
          includes name "_"
          && negb (existsb (fun f => includes name f)
                     ["created_at"; "updated_at"]) in
        if negb (has referencedTables name) && negb isJunction then
          Normal [ {| type := orphan_table;
                      severity := warning;
                      fixTarget := architectStep3;
                      message :=
                        "Table " ++ dq ++ show (t_name table) ++ dq
                        ++ " exists but no API endpoint references it. Either add endpoints or remove the table." |} ]
        else Normal []) tbls ;;
      Normal (List.concat found)
  | _, _ => Normal []
  end.

(** The issues pushed by the six checks, in the order of the pushes. *)
Definition collectIssues (bp : Blueprint) : Result (list Issue) :=
  i1 <- check1 (entities bp) (dbSchema bp) ;;
  i2 <- check2 (dbSchema bp) ;;
  i3 <- check3 (apiEndpoints bp) (dbSchema bp) ;;
  let i4 := check4 (frontendPages bp) (apiEndpoints bp) in
  let i5 := check5 (apiEndpoints bp) (frontendPages bp) in
  i6 <- check6 (dbSchema bp) (apiEndpoints bp) ;;
  Normal (i1 ++ i2 ++ i3 ++ i4 ++ i5 ++ i6).

(** [state.blueprintValidation?.validationCycles || 0]. *)
Definition currentCycles (state : State) : Z :=
  match blueprintValidation state with
  | Some v =>
      match validationCycles v with
      | Some n => if (n =? 0)%Z then 0%Z else n
      | None => 0%Z
      end
  | None => 0%Z
  end.

(** The decision taken once the checks have run. *)
Definition decide (cycles : Z) (found : list Issue) : Update :=
  match found with
  | [] =>
      {| upd_blueprintValidation :=
           {| isValid := true; issues := Some [];
              validationCycles := Some (cycles + 1)%Z |};
         upd_currentPhase := Some "planner" |}
  | _ =>
      if (MAX_VALIDATION_CYCLES <=? cycles)%Z then
        {| upd_blueprintValidation :=
             {| isValid := true; issues := Some found;
                validationCycles := Some (cycles + 1)%Z |};
           upd_currentPhase := Some "planner" |}
      else
        {| upd_blueprintValidation :=
             {| isValid := false; issues := Some found;
                validationCycles := Some (cycles + 1)%Z |};
           upd_currentPhase := None |}
  end.

Definition blueprintValidatorNode (state : State) : Result Update :=
  match blueprint state with
  | None => TypeError "state.blueprint"
  | Some bp =>
      let cycles := currentCycles state in
      found <- collectIssues bp ;;
      Normal (decide cycles found)
  end.

(** *** The conditional edge taken after the validator *)

Definition isError (i : Issue) : bool :=
  match severity i with error => true | warning => false end.

(** [targetCounts[t] = (targetCounts[t] || 0) + 1].  The keys are node
    names, none of which is an array index or a property of
    [Object.prototype], so [Object.entries] lists them in the order of their
    creation and a key not yet set reads as [undefined]. *)
Fixpoint bump (t : string) (counts : list (string * nat))
  : list (string * nat) :=
  match counts with
  | [] => [(t, 1)]
  | (k, n) :: r =>
      if String.eqb k t then (k, n + 1) :: r else (k, n) :: bump t r
  end.

(** [entries.sort((a, b) => b[1] - a[1])]: a stable sort, larger counts
    first. *)
Fixpoint insertDesc (x : string * nat) (l : list (string * nat))
  : list (string * nat) :=
  match l with
  | [] => [x]
  | y :: r => if (snd y <=? snd x)%nat then x :: l else y :: insertDesc x r
  end.

Definition sortDesc (l : list (string * nat)) : list (string * nat) :=
  fold_right insertDesc [] l.

Definition issuesOrEmpty (validation : option Validation) : list Issue :=
  match validation with
  | Some v => match issues v with Some l => l | None => [] end
  | None => []
  end.

Definition targetCountsOf (targets : list string) : list (string * nat) :=
  fold_left (fun counts t => bump t counts) targets [].

Definition blueprintValidatorRouter (state : State) : string :=
  let validation := blueprintValidation state in
  if match validation with Some v => isValid v | None => false end
  then "__end__"
  else
    let errors := filter isError (issuesOrEmpty validation) in
    match errors with
    | first :: _ => nodeName (fixTarget first)
    | [] =>
        let targets :=
          map (fun i => nodeName (fixTarget i)) (issuesOrEmpty validation) in
        let targetCounts := targetCountsOf targets in
        match sortDesc targetCounts with
        | (topTarget, _) :: _ =>
            if truthy (Some topTarget) then topTarget else "__end__"
        | [] => "__end__"
        end
    end.

(** How often a target occurs among the fix targets of a list of issues. *)
Definition occurrences (t : string) (l : list Issue) : nat :=
  List.length (filter (fun i => String.eqb (nodeName (fixTarget i)) t) l).

(** *** Notions used to state the properties of the validator *)

(** The tables of the schema, when both the schema and its [tables] are
    there. *)
Definition presentTables (bp : Blueprint) : option (list Table) :=
  match dbSchema bp with
  | Some d => tables d
  | None => None
  end.

(** Every element of an artifact that is there has its name. *)
Definition named {X : Type} (name : X -> option string)
    (artifact : option (list X)) : Prop :=
  match artifact with
  | Some xs => Forall (fun x => name x <> None) xs
  | None => True
  end.

(** The tables that are there have their names, and so have the entities
    that are there to be matched against them; nothing is asked of an
    artifact that is absent, nor of the entities when there are no tables. *)
Definition wellShaped (bp : Blueprint) : Prop :=
  match presentTables bp with
  | Some tbls =>
      Forall (fun t => t_name t <> None) tbls /\ named e_name (entities bp)
  | None => True
  end.

(** The count an object of counters holds for a key, 0 without the key. *)
Definition countIn (k : string) (m : list (string * nat)) : nat :=
  match find (fun kv => String.eqb (fst kv) k) m with
  | Some kv => snd kv
  | None => 0
  end.

(** The first entry of the sorted array has the largest count. *)
Definition headIsTop (l : list (string * nat)) : Prop :=
  match l with
  | [] => True
  | x :: r => forall y, In y r -> snd y <= snd x
  end.

End Validator.

(* ================================================================== *)
(** ** utils/gemini.js *)

Module Gemini.
Import JsString.

(** Numbers of the cost computation are rationals: the exact values that the
    doubles of the program approximate.  [NaN] is not modelled. *)

(** What a [throw] can carry. *)
Inductive Thrown :=
| Error (message : option string)
    (** an object with its [message] property *)
| TokenBudgetExceeded (currentCost tokenBudget : Q)
    (** the [Error] whose message is
        [TOKEN_BUDGET_EXCEEDED: $<currentCost.toFixed(4)> >= budget $<tokenBudget>] *)
| Null.
    (** [null], the initial value of [lastError] *)

Record UsageMetadata := mkUsageMetadata {
  promptTokenCount : option N;
  candidatesTokenCount : option N }.

Record Response := mkResponse {
  text : option string;
  usageMetadata : option UsageMetadata }.

Record Request := mkRequest {
  req_model : string;
  contents : string;
  responseMimeType : string }.

(** The client built by [initGemini].  [generateContent n req] is what the
    service answers to the [n]-th delegated call of an invocation (counted
    from 0): it raises or it resolves with a response. *)
Record Client := mkClient {
  generateContent : nat -> Request -> Thrown + Response }.

Record Tokens := mkTokens { input : N; output : N; cost : Q }.

Record CallResult (Json : Type) := mkCallResult {
  parsed : Json;
  raw : string;
  tokens : Tokens }.
Arguments mkCallResult {Json} _ _ _.
Arguments parsed {Json} _.
Arguments raw {Json} _.
Arguments tokens {Json} _.

Inductive Outcome (Json : Type) :=
| Returned (r : CallResult Json)
| Threw (e : Thrown).
Arguments Returned {Json} r.
Arguments Threw {Json} e.

(** What an invocation does to the outside world. *)
Inductive Event :=
| Delegated (attempt : nat) (req : Request)
| Slept (waitMs : Z).

(** The argument object of [callGemini]; [None] is a property left out. *)
Record Args := mkArgs {
  systemPrompt : string;
  userPrompt : string;
  agentName : option string;
  currentCost : option Q;
  tokenBudget : option Q;
  model : option string }.

Definition MAX_RETRIES : nat := 3.

(** [getClient()]. *)
Definition getClient (aiClient : option Client) : Thrown + Client :=
  match aiClient with
  | None =>
      inl (Error (Some "Gemini not initialized. Call initGemini(apiKey) first."))
  | Some c => inr c
  end.

Definition nl : string := String (ascii_of_nat 10) EmptyString.

Definition fullPromptOf (systemPrompt userPrompt : string) : string :=
  systemPrompt ++ nl ++ nl ++ "---" ++ nl ++ nl ++ "INPUT:" ++ nl
  ++ userPrompt ++ nl ++ nl ++ "---" ++ nl ++ nl
  ++ "IMPORTANT: Respond with ONLY valid JSON. No markdown, no backticks, no explanation outside JSON.".

(** [a || b] on strings. *)
Definition orString (a : option string) (b : string) : string :=
  match a with
  | Some (String _ _ as s) => s
  | _ => b
  end.

(** [a || b] on token counts. *)
Definition orCount (a : option N) (b : N) : N :=
  match a with
  | Some n => if (n =? 0)%N then b else n
  | None => b
  end.

(** [Math.ceil(s.length / 4)]. *)
Definition ceilQuarter (s : string) : N :=
  ((N.of_nat (String.length s) + 3) / 4)%N.

(** [(inputTokens / 1_000_000) * 0.15 + (outputTokens / 1_000_000) * 0.60]. *)
Definition costOf (inputTokens outputTokens : N) : Q :=
  ((inject_Z (Z.of_N inputTokens) / 1000000) * (15 # 100)
   + (inject_Z (Z.of_N outputTokens) / 1000000) * (60 # 100))%Q.

(** The raw text of a response: [response.text || ""]. *)
Definition rawTextOf (response : Response) : string :=
  orString (text response) "".

(** The usage of one attempt: measured when the response reports it,
    estimated from the sizes otherwise. *)
Definition usageOf (fullPrompt : string) (response : Response) : Tokens :=
  let rawText := rawTextOf response in
  let inputTokens :=
    orCount (match usageMetadata response with
             | Some u => promptTokenCount u
             | None => None
             end) (ceilQuarter fullPrompt) in
  let outputTokens :=
    orCount (match usageMetadata response with
             | Some u => candidatesTokenCount u
             | None => None
             end) (ceilQuarter rawText) in
  {| input := inputTokens; output := outputTokens;
     cost := costOf inputTokens outputTokens |}.

Definition fence : string := "```".

(** [s.replace(/^```(?:json)?\n?/, "")] on a string that starts with the
    fence. *)
Definition stripOpeningFence (s : string) : string :=
  let s1 := drop 3 s in
  let s2 := if startsWith s1 "json" then drop 4 s1 else s1 in
  if startsWith s2 nl then drop 1 s2 else s2.

(** [s.replace(/\n?```$/, "")]. *)
Definition stripClosingFence (s : string) : string :=
  if endsWith s (nl ++ fence) then dropLast 4 s
  else if endsWith s fence then dropLast 3 s
  else s.

Definition cleanTextOf (rawText : string) : string :=
  let cleanText := trim rawText in
  if startsWith cleanText fence
  then stripClosingFence (stripOpeningFence cleanText)
  else cleanText.

(** [error.message?.includes("TOKEN_BUDGET_EXCEEDED")]. *)
Definition isBudgetError (e : Thrown) : bool :=
  match e with
  | Error (Some m) => includes m "TOKEN_BUDGET_EXCEEDED"
  | Error None => false
  | TokenBudgetExceeded _ _ => true
  | Null => false
  end.

Section Call.

(** [JSON.parse] is the language's: it raises or yields a value. *)
Variable Json : Type.
Variable JSON_parse : string -> Thrown + Json.

Variable client : Client.
Variable fullPrompt modelName : string.

Definition requestOf : Request :=
  {| req_model := modelName; contents := fullPrompt;
     responseMimeType := "application/json" |}.

(** The [for] loop.  [remaining] is [MAX_RETRIES + 1 - attempt], the number
    of iterations the loop can still start. *)
Fixpoint attempts (remaining attempt : nat) (lastError : Thrown)
  : Outcome Json * list Event :=
  match remaining with
  | O => (Threw lastError, [])
  | S rest =>
      let onCatch (error : Thrown) : Outcome Json * list Event :=
        match error with
        | Null =>
            (Threw (Error (Some "Cannot read properties of null (reading 'message')")), [])
        | _ =>
            if isBudgetError error then (Threw error, [])
            else if Nat.eqb attempt MAX_RETRIES then (Threw error, [])
            else
              let waitMs := (2 ^ Z.of_nat attempt * 1000)%Z in
              let (o, after) := attempts rest (attempt + 1) error in
              (o, Slept waitMs :: after)
        end in
      let (o, after) :=
        match generateContent client (attempt - 1) requestOf with
        | inl error => onCatch error
        | inr response =>
            let rawText := rawTextOf response in
            match JSON_parse (cleanTextOf rawText) with
            | inl parseError =>
                if Nat.eqb attempt MAX_RETRIES then
                  onCatch (Error (Some "JSON_PARSE_FAILED after 3 attempts."))
                else attempts rest (attempt + 1) parseError
            | inr parsed =>
                (Returned {| parsed := parsed; raw := rawText;
                             tokens := usageOf fullPrompt response |}, [])
            end
        end in
      (o, Delegated attempt requestOf :: after)
  end.

End Call.

(** The parameters [currentCost = 0] and [tokenBudget = 2.0] with their
    defaults. *)
Definition currentCostOf (args : Args) : Q :=
  StateStore.nullish (currentCost args) 0%Q.

Definition tokenBudgetOf (args : Args) : Q :=
  StateStore.nullish (tokenBudget args) 2%Q.

(** [model || process.env.GEMINI_MODEL || "gemini-2.5-flash"]. *)
Definition modelNameOf (GEMINI_MODEL : option string) (args : Args) : string :=
  orString (model args) (orString GEMINI_MODEL "gemini-2.5-flash").

(** [callGemini]: the module's [aiClient], [process.env.GEMINI_MODEL] and the
    argument object. *)
Definition callGemini {Json : Type} (JSON_parse : string -> Thrown + Json)
    (aiClient : option Client) (GEMINI_MODEL : option string) (args : Args)
  : Outcome Json * list Event :=
  match getClient aiClient with
  | inl e => (Threw e, [])
  | inr client =>
      let modelName := modelNameOf GEMINI_MODEL args in
      let currentCost := currentCostOf args in
      let tokenBudget := tokenBudgetOf args in
      if Qle_bool tokenBudget currentCost then
        (Threw (TokenBudgetExceeded currentCost tokenBudget), [])
      else
        let fullPrompt := fullPromptOf (systemPrompt args) (userPrompt args) in
        attempts Json JSON_parse client fullPrompt modelName MAX_RETRIES 1 Null
  end.

(** The delegated calls among the events of an invocation. *)
Definition delegatedCalls (events : list Event) : nat :=
  List.length
    (filter (fun e => match e with Delegated _ _ => true | Slept _ => false end)
       events).

Record CallRecord := mkCallRecord {
  agent : string;
  inputTokens : N;
  outputTokens : N;
  timestamp : Z }.

Record TokenDelta := mkTokenDelta {
  newCalls : list CallRecord;
  addedInput : N;
  addedOutput : N;
  addedCost : Q }.

(** [makeTokenDelta(agentName, tokens)]; [now] is [Date.now()]. *)
Definition makeTokenDelta (now : Z) (agentName : string) (tokens : Tokens)
  : TokenDelta :=
  {| newCalls := [ {| agent := agentName;
                      inputTokens := input tokens;
                      outputTokens := output tokens;
                      timestamp := now |} ];
     addedInput := input tokens;
     addedOutput := output tokens;
     addedCost := cost tokens |}.

(** The deltas built from the outcome of one invocation, as the agent nodes
    build them: [makeTokenDelta(name, result.tokens)] from a result, and
    none after a throw, which leaves the node before it builds one.  A node
    that raises on its own after the call hands over nothing either. *)
Definition usageDeltas {Json : Type} (now : Z) (agentName : string)
    (o : Outcome Json) : list TokenDelta :=
  match o with
  | Returned r => [makeTokenDelta now agentName (tokens r)]
  | Threw _ => []
  end.

(** The usage ledger of the state and its reducer, from [config/state.js]:
    [tokenUsage].  The fields of a delta are always there, so
    [incoming.addedInput || 0] is [addedInput]. *)
Record TokenUsage := mkTokenUsage {
  calls : list CallRecord;
  totalInput : N;
  totalOutput : N;
  estimatedCost : Q }.

Definition tokenUsage_default : TokenUsage :=
  {| calls := []; totalInput := 0; totalOutput := 0; estimatedCost := 0 |}.

Definition tokenUsage_reducer (existing : TokenUsage)
    (incoming : option TokenDelta) : TokenUsage :=
  match incoming with
  | None => existing
  | Some delta =>
      {| calls := calls existing ++ newCalls delta;
         totalInput := (totalInput existing + addedInput delta)%N;
         totalOutput := (totalOutput existing + addedOutput delta)%N;
         estimatedCost := (estimatedCost existing + addedCost delta)%Q |}
  end.

(** The [n]-th delegated call came to nothing: the service raised, or its
    output did not parse. *)
Definition attemptFailed {Json : Type} (JSON_parse : string -> Thrown + Json)
    (client : Client) (req : Request) (n : nat) : Prop :=
  match generateContent client n req with
  | inl _ => True
  | inr response =>
      match JSON_parse (cleanTextOf (rawTextOf response)) with
      | inl _ => True
      | inr _ => False
      end
  end.

(** The request every attempt of an invocation sends. *)
Definition requestFor (GEMINI_MODEL : option string) (args : Args) : Request :=
  requestOf (fullPromptOf (systemPrompt args) (userPrompt args))
    (modelNameOf GEMINI_MODEL args).

End Gemini.

(* ================================================================== *)
(** ** Concrete inputs: the states of the repository's tests and a few more *)

Module Examples.
Import Validator.

Definition table (name : string) (fks : list ForeignKey) : Table :=
  {| t_name := Some name; foreignKeys := Some fks |}.

(** Test 4 of [tests/test-validator.js]: a clean blueprint. *)
Definition cleanBlueprint : Blueprint :=
  {| entities := Some [ mkEntity (Some "User"); mkEntity (Some "Task") ];
     dbSchema := Some (mkDbSchema (Some
       [ table "users" [];
         table "tasks" [ mkForeignKey (Some "users(id)") ] ]));
     apiEndpoints := Some
       [ mkEndpoint (Some "GET") (Some "/api/users") (Some "users") true;
         mkEndpoint (Some "GET") (Some "/api/tasks") (Some "tasks") true ];
     frontendPages := Some
       [ mkPage (Some "Dashboard") true
           (Some [ mkComponent (Some "TaskList") (Some ["/api/tasks"]) ]) ] |}.

Definition cleanState : State :=
  {| blueprint := Some cleanBlueprint;
     blueprintValidation :=
       Some {| isValid := false; issues := Some [];
               validationCycles := Some 0%Z |} |}.

(** Test 5: an entity without a table, the cycle count already at 2. *)
Definition ghostBlueprint : Blueprint :=
  {| entities := Some [ mkEntity (Some "Ghost") ];
     dbSchema := Some (mkDbSchema (Some []));
     apiEndpoints := Some [];
     frontendPages := Some [] |}.

Definition ghostState : State :=
  {| blueprint := Some ghostBlueprint;
     blueprintValidation :=
       Some {| isValid := false; issues := Some [];
               validationCycles := Some 2%Z |} |}.

Definition ghostIssue : Issue :=
  {| type := missing_table; severity := error; fixTarget := architectStep2;
     message :=
       "Entity " ++ dq ++ "Ghost" ++ dq
       ++ " has no matching DB table. Tables: []" |}.

(** A blueprint of which only the entities have arrived. *)
Definition entitiesOnly : State :=
  {| blueprint := Some
       {| entities := Some [ mkEntity (Some "User") ];
          dbSchema := None; apiEndpoints := None; frontendPages := None |};
     blueprintValidation := None |}.

(** The default of the state's [blueprintValidation] field, as the router
    would see it. *)
Definition defaultValidation : State :=
  {| blueprint := None;
     blueprintValidation :=
       Some {| isValid := false; issues := Some [];
               validationCycles := Some 0%Z |} |}.

Definition warn (t : FixTarget) : Issue :=
  {| type := missing_api; severity := warning; fixTarget := t;
     message := "w" |}.

Definition err (t : FixTarget) : Issue :=
  {| type := orphan_endpoint; severity := error; fixTarget := t;
     message := "e" |}.

(** Two warnings for step 4 against one for step 3, and an error that comes
    after a warning. *)
Definition warningsOnly : State :=
  {| blueprint := None;
     blueprintValidation :=
       Some {| isValid := false;
               issues := Some [ warn architectStep3; warn architectStep4;
                                warn architectStep4 ];
               validationCycles := Some 1%Z |} |}.

Definition errorAfterWarning : State :=
  {| blueprint := None;
     blueprintValidation :=
       Some {| isValid := false;
               issues := Some [ warn architectStep4; err architectStep3;
                                err architectStep2 ];
               validationCycles := Some 1%Z |} |}.

(** *** The Gemini wrapper *)

Import Gemini.

(** The one document the examples parse. *)
Inductive Doc := EmptyObject.

(** [JSON.parse] on the two texts of the examples: the empty object, and
    anything else taken as a syntax error. *)
Definition parseDoc (s : string) : Thrown + Doc :=
  if String.eqb s "{}" then inr EmptyObject
  else inl (Error (Some "Unexpected token")).

Definition good : Response :=
  {| text := Some "{}";
     usageMetadata :=
       Some {| promptTokenCount := Some 120%N;
               candidatesTokenCount := Some 8%N |} |}.

Definition garbled : Response :=
  {| text := Some "not json"; usageMetadata := None |}.

(** A service that always answers with the same response. *)
Definition steady (r : Response) : Client :=
  {| generateContent := fun _ _ => inr r |}.

(** A service whose first two answers are garbled and whose third is good. *)
Definition thirdTimeLucky : Client :=
  {| generateContent := fun n _ =>
       if (n <? 2)%nat then inr garbled else inr good |}.

(** A service that refuses with a budget message of its own. *)
Definition refusing : Client :=
  {| generateContent := fun _ _ =>
       inl (Error (Some "TOKEN_BUDGET_EXCEEDED: quota")) |}.

Definition args (cost budget : Q) : Args :=
  {| systemPrompt := "You are the Planner Agent.";
     userPrompt := "App: todo";
     agentName := Some "plannerAgent";
     currentCost := Some cost;
     tokenBudget := Some budget;
     model := None |}.

(** What [callGemini] gives with that service, under a budget of 2.00 with
    nothing spent. *)
Definition luckyResult : CallResult Doc :=
  {| parsed := EmptyObject; raw := "{}";
     tokens := {| input := 120; output := 8; cost := costOf 120 8 |} |}.

Definition luckyEvents : list Event :=
  [ Delegated 1 (requestFor None (args 0 2));
    Delegated 2 (requestFor None (args 0 2));
    Delegated 3 (requestFor None (args 0 2)) ].

Definition entry (p pat : string) : StateStore.FileEntry :=
  StateStore.mkFileEntry p [] [] [] pat.

Definition registryUpdates : list StateStore.Incoming :=
  [ StateStore.Arr [entry "a.js" "v1"; entry "b.js" "v1"];
    StateStore.Nothing;
    StateStore.Arr [entry "c.js" "v1"; entry "a.js" "v2"] ].

End Examples.

(* ================================================================== *)
(** ** config/state.js: the accumulating reducers *)

Module Accumulate.
Import StateStore.

(** *** pmConversation and userFeedback

    [(existing, incoming) => { if (!incoming) return existing;
       if (Array.isArray(incoming)) return [...existing, ...incoming];
       return [...existing, incoming]; }] *)

(** What a node may hand over: a falsy value, an array of entries, or one
    entry that is not an array. *)
Inductive Appended (E : Type) : Type :=
| NoEntry
| Entries (l : list E)
| OneEntry (e : E).
Arguments NoEntry {E}.
Arguments Entries {E} l.
Arguments OneEntry {E} e.

Definition appendReducer {E : Type} (existing : list E)
    (incoming : Appended E) : list E :=
  match incoming with
  | NoEntry => existing
  | Entries l => existing ++ l
  | OneEntry e => existing ++ [e]
  end.

Definition pmConversation_reducer {E : Type}
  : list E -> Appended E -> list E := appendReducer.

Definition userFeedback_reducer {E : Type}
  : list E -> Appended E -> list E := appendReducer.

(** The entries a sequence of updates brings, in order. *)
Definition appended {E : Type} (updates : list (Appended E)) : list E :=
  flat_map (fun u =>
    match u with
    | NoEntry => []
    | Entries l => l
    | OneEntry e => [e]
    end) updates.

(** *** blueprint and projectPatterns

    [(existing, incoming) => { if (!incoming) return existing;
       return { ...existing, ...incoming }; }]

    An object is the list of its properties in the order of their creation;
    the keys of these two fields are identifiers, none an array index. *)
Definition JsObject (V : Type) : Type := JsMap V.

(** [{ ...a, ...b }]: a fresh object that receives the properties of [a],
    then those of [b]. *)
Definition spread {V : Type} (a b : JsObject V) : JsObject V :=
  mapOf (a ++ b).

Definition mergeReducer {V : Type} (existing : JsObject V)
    (incoming : option (JsObject V)) : JsObject V :=
  match incoming with
  | None => existing
  | Some o => spread existing o
  end.

Definition blueprint_reducer {V : Type}
  : JsObject V -> option (JsObject V) -> JsObject V := mergeReducer.

Definition projectPatterns_reducer {V : Type}
  : JsObject V -> option (JsObject V) -> JsObject V := mergeReducer.

(** The properties a sequence of updates writes, in order. *)
Definition written {V : Type} (updates : list (option (JsObject V)))
  : list (string * V) :=
  flat_map (fun u => match u with Some o => o | None => [] end) updates.

(** The value most recently written under a key. *)
Definition lastWritten {V : Type} (k : string) (pairs : list (string * V))
  : option V :=
  valueAt k (List.rev pairs).

End Accumulate.

(* ================================================================== *)
(** ** The usage ledger between the agent nodes *)

Module Ledger.
Import Gemini.

(** The tokens of the call records of a ledger. *)
Definition sumInput (cs : list CallRecord) : N :=
  fold_right (fun c acc => (inputTokens c + acc)%N) 0%N cs.

Definition sumOutput (cs : list CallRecord) : N :=
  fold_right (fun c acc => (outputTokens c + acc)%N) 0%N cs.

(** The token totals of a ledger are those of its call records. *)
Definition consistent (u : TokenUsage) : Prop :=
  totalInput u = sumInput (calls u)
  /\ totalOutput u = sumOutput (calls u).

(** A delta as the agent nodes build it: [makeTokenDelta] of the tokens of a
    call. *)
Definition fromCall (d : TokenDelta) : Prop :=
  exists now name t, d = makeTokenDelta now name t.

(** The updates of the ledger that carry a delta. *)
Definition deltas (updates : list (option TokenDelta)) : list TokenDelta :=
  flat_map (fun u => match u with Some d => [d] | None => [] end) updates.

(** The last event of an invocation. *)
Definition lastEvent (events : list Event) : option Event :=
  hd_error (List.rev events).

(** [x || 0] on a number. *)
Definition orZero (x : Q) : Q := if Qeq_bool x 0 then 0%Q else x.

(** The call every agent node makes
    ([agents/plannerAgent.js], [agents/architectAgent.js], [agents/pmAgent.js]):
    [callGemini({ systemPrompt, userPrompt, agentName,
                  currentCost: state.tokenUsage?.estimatedCost || 0,
                  tokenBudget: state.tokenBudget })]. *)
Definition nodeArgs (name systemPrompt userPrompt : string)
    (tokenUsage : option TokenUsage) (tokenBudget : option Q) : Args :=
  {| systemPrompt := systemPrompt;
     userPrompt := userPrompt;
     agentName := Some name;
     currentCost :=
       Some (orZero (match tokenUsage with
                     | Some u => estimatedCost u
                     | None => 0%Q
                     end));
     tokenBudget := tokenBudget;
     model := None |}.

(** What a node's call leaves in the ledger: a node that completes returns
    [tokenUsage: makeTokenDelta(name, result.tokens)], which the reducer adds
    to the ledger; a throw aborts the node and the ledger stays as it is. *)
Definition ledgerAfterNode {Json : Type}
    (JSON_parse : string -> Thrown + Json) (aiClient : option Client)
    (GEMINI_MODEL : option string) (now : Z)
    (name systemPrompt userPrompt : string)
    (ledger : TokenUsage) (tokenBudget : option Q)
  : TokenUsage * list Event :=
  let (o, events) :=
    callGemini JSON_parse aiClient GEMINI_MODEL
      (nodeArgs name systemPrompt userPrompt (Some ledger) tokenBudget) in
  (match o with
   | Returned r =>
       tokenUsage_reducer ledger (Some (makeTokenDelta now name (tokens r)))
   | Threw _ => ledger
   end, events).

(** The numbers of the attempts, the requests and the waits among the events
    of an invocation. *)
Definition attemptNumbers (events : list Event) : list nat :=
  flat_map (fun e =>
    match e with Delegated n _ => [n] | Slept _ => [] end) events.

Definition requestsSent (events : list Event) : list Request :=
  flat_map (fun e =>
    match e with Delegated _ r => [r] | Slept _ => [] end) events.

Definition totalWait (events : list Event) : Z :=
  fold_right (fun e acc =>
    match e with Delegated _ _ => acc | Slept ms => (ms + acc)%Z end)
    0%Z events.

(** The waits among the events, each with the number of the delegated call
    made last before it; [last] is that number for the events so far. *)
Fixpoint waitsAfter (last : nat) (events : list Event) : list (nat * Z) :=
  match events with
  | [] => []
  | Delegated attempt _ :: rest => waitsAfter attempt rest
  | Slept ms :: rest => (last, ms) :: waitsAfter last rest
  end.

(** The longest the loop can still wait, from a given attempt on. *)
Fixpoint waitBound (remaining attempt : nat) : Z :=
  match remaining with
  | O => 0%Z
  | S rest =>
      ((if Nat.eqb attempt MAX_RETRIES then 0
        else 2 ^ Z.of_nat attempt * 1000)
       + waitBound rest (attempt + 1))%Z
  end.

(** Text made of white space only. *)
Definition allWhite (s : string) : Prop :=
  Forall (fun c => JsString.isWhite c = true) (list_ascii_of_string s).

(** The two errors [callGemini] makes up itself besides the budget one. *)
Definition notInitialized : Thrown :=
  Error (Some "Gemini not initialized. Call initGemini(apiKey) first.").

Definition parseFailed : Thrown :=
  Error (Some "JSON_PARSE_FAILED after 3 attempts.").

Definition nullDereferenced : Thrown :=
  Error (Some "Cannot read properties of null (reading 'message')").

End Ledger.

(* ================================================================== *)
(** ** The validator inside the run *)

Module ValidatorRun.
Import Validator.

(** What each issue type is pushed with. *)
Definition profile (t : IssueType) : Severity * FixTarget :=
  match t with
  | missing_table => (error, architectStep2)
  | invalid_foreign_key => (error, architectStep2)
  | orphan_endpoint => (error, architectStep3)
  | missing_api => (warning, architectStep3)
  | auth_mismatch => (warning, architectStep4)
  | orphan_table => (warning, architectStep3)
  end.

Definition conforms (i : Issue) : Prop :=
  (severity i, fixTarget i) = profile (type i).

(** The [blueprintValidation] field of [config/state.js]:
    [reducer: (_, y) => y ?? { isValid: false, issues: [], validationCycles: 0 }]. *)
Definition blueprintValidation_default : Validation :=
  {| isValid := false; issues := Some []; validationCycles := Some 0%Z |}.

Definition blueprintValidation_reducer
  : Validation -> option Validation -> Validation :=
  StateStore.replaceReducer blueprintValidation_default.

(** The state the router sees: the update of the node has gone through the
    reducer. *)
Definition afterValidator (state : State) (update : Update) : State :=
  {| blueprint := blueprint state;
     blueprintValidation :=
       Some (blueprintValidation_reducer
               (StateStore.nullish (blueprintValidation state)
                  blueprintValidation_default)
               (Some (upd_blueprintValidation update))) |}.

(** The visits of the validator in one run.  Between two visits the
    architect steps may rewrite the blueprint at will: [blueprints] lists
    what the validator finds at each visit.  The count is that of the visits
    after which the router sends the run back to an architect step; it stops
    when the router ends the loop or the node raises. *)
Fixpoint routeBacks (validation : Validation) (blueprints : list Blueprint)
  : nat :=
  match blueprints with
  | [] => 0
  | bp :: rest =>
      let state :=
        {| blueprint := Some bp; blueprintValidation := Some validation |} in
      match blueprintValidatorNode state with
      | TypeError _ => 0
      | Normal update =>
          let state' := afterValidator state update in
          if String.eqb (blueprintValidatorRouter state') "__end__" then 0
          else
            S (routeBacks
                 (StateStore.nullish (blueprintValidation state')
                    blueprintValidation_default) rest)
      end
  end.

(** An issue of a given type, pushed with the severity and the fix target
    of that type. *)
Definition made (t : IssueType) (i : Issue) : Prop :=
  type i = t /\ conforms i.


(** A table whose name, in lower case, is the entity's name, its plural in
    [s], or its plural in [ies] for a final [y]. *)
Definition namedAfter (entityName tableName : string) : Prop :=
  let e := JsString.toLowerCase entityName in
  let t := JsString.toLowerCase tableName in
  t = e \/ t = (e ++ "s")%string \/ t = (finalYtoIe e ++ "s")%string.

End ValidatorRun.

(* ================================================================== *)
(** ** nodes/sandboxHealthCheck.js and config/graph.js *)

Module Graph.
Import Validator.

Definition START : string := "__start__".
Definition END : string := "__end__".

(** The fields of the state the routers read. *)
Record RunState := mkRunState {
  pmStatus : string;
  validatorState : State;
  sandboxHealthy : bool }.

(** [sandboxHealthRouter]: both branches end. *)
Definition sandboxHealthRouter (state : RunState) : string :=
  if sandboxHealthy state then "__end__" else "__end__".

(** The router given to [addConditionalEdges("pmAgent", ...)]. *)
Definition pmRouter (state : RunState) : string :=
  if String.eqb (pmStatus state) "needs_clarification" then "humanInput"
  else if String.eqb (pmStatus state) "spec_ready" then "architectStep1"
  else END.

(** [buildGraph]: the nodes added. *)
Definition nodes : list string :=
  [ "pmAgent"; "humanInput";
    "architectStep1"; "architectStep2"; "architectStep3"; "architectStep4";
    "architectStep5"; "blueprintValidator";
    "plannerAgent"; "setupSandbox"; "sandboxHealthCheck" ].

(** An outgoing edge: [addEdge], or [addConditionalEdges] with or without a
    map from the router's results to nodes. *)
Inductive Edge :=
| Static (target : string)
| Conditional (router : RunState -> string)
    (pathMap : option (list (string * string))).

(** [buildGraph]: the edges added, by source. *)
Definition edges : list (string * Edge) :=
  [ (START, Static "pmAgent");
    ("pmAgent", Conditional pmRouter None);
    ("humanInput", Static "pmAgent");
    ("architectStep1", Static "architectStep2");
    ("architectStep2", Static "architectStep3");
    ("architectStep3", Static "architectStep4");
    ("architectStep4", Static "architectStep5");
    ("architectStep5", Static "blueprintValidator");
    ("blueprintValidator",
      Conditional (fun s => blueprintValidatorRouter (validatorState s))
        (Some [ ("__end__", "plannerAgent");
                ("architectStep2", "architectStep2");
                ("architectStep3", "architectStep3");
                ("architectStep4", "architectStep4") ]));
    ("plannerAgent", Static "setupSandbox");
    ("setupSandbox", Static "sandboxHealthCheck");
    ("sandboxHealthCheck",
      Conditional sandboxHealthRouter
        (Some [ ("__end__", END); ("setupSandbox", "setupSandbox") ])) ].

(** The node the engine enters after [node]: the target of its edge; for a
    conditional edge the router's result, looked up in the map when there is
    one.  [None] when there is no edge or the map lacks the result, on which
    the engine raises. *)
Definition nextNode (node : string) (state : RunState) : option string :=
  match StateStore.valueAt node edges with
  | None => None
  | Some (Static target) => Some target
  | Some (Conditional router None) => Some (router state)
  | Some (Conditional router (Some pathMap)) =>
      StateStore.valueAt (router state) pathMap
  end.

End Graph.

(* ================================================================== *)
(** ** utils/sandboxManager.js, as far as it reads the host, and
       nodes/sandboxHealthCheck.js *)

Module Sandbox.
Import StateStore.

(** The record kept for a sandbox in the module's [sandboxes] map. *)
Record Info := mkInfo {
  sb_path : string;
  backendPath : string;
  frontendPath : string;
  createdAt : Z;
  snapshotCount : N }.

(** What [execSync] raises. *)
Record ExecError := mkExecError {
  err_stdout : option string;
  err_stderr : option string;
  err_message : string;
  err_status : option Z }.

Record Health := mkHealth {
  healthy : bool;
  failures : list string;
  sandboxPath : option string }.

Record CommandResult := mkCommandResult {
  stdout : string;
  stderr : string;
  exitCode : Z }.

(** The update [sandboxHealthCheckNode] returns. *)
Record HealthUpdate := mkHealthUpdate {
  upd_sandboxHealthy : bool;
  upd_error : option string }.

Definition requiredDirs : list string :=
  [ "backend/src"; "backend/src/models"; "backend/src/routes";
    "frontend/src"; "frontend/src/pages"; "frontend/src/components" ].

(** A non-negative integer in a template literal. *)
Definition decimal (n : N) : string :=
  DecimalString.NilZero.string_of_uint (N.to_uint n).

(** [a || b] on strings. *)
Definition orText (a : option string) (b : string) : string :=
  match a with
  | Some (String _ _ as s) => s
  | _ => b
  end.

(** The em dash of a message, U+2014, in its UTF-8 bytes. *)
Definition emDash : string :=
  String (ascii_of_nat 226) (String (ascii_of_nat 128)
    (String (ascii_of_nat 148) EmptyString)).

Section Host.

(** The host: [path.join] of two segments, [fs.existsSync],
    [execSync(command, { cwd, timeout })], which raises or returns the
    standard output, and [fs.statfsSync(os.tmpdir())] with its [bfree] and
    [bsize], [None] when it raises. *)
Variable pathJoin : string -> string -> string.
Variable existsSync : string -> bool.
Variable execSync : string -> string -> option Z -> ExecError + string.
Variable statfs : option (N * N).

Variable sandboxes : JsMap Info.

(** One check of [healthCheck]: the failure pushed when it does not hold. *)
Definition unless (ok : bool) (failure : string) : list string :=
  if ok then [] else [failure].

Definition gitInitialized (sandbox : Info) : bool :=
  match execSync "git status" (sb_path sandbox) None with
  | inr _ => true
  | inl _ => false
  end.

(** [(bfree * bsize) / (1024 * 1024) < 100], and its floor. *)
Definition lowDisk (bfree bsize : N) : bool :=
  (bfree * bsize <? 100 * (1024 * 1024))%N.

Definition freeMB (bfree bsize : N) : N :=
  (bfree * bsize / (1024 * 1024))%N.

Definition healthCheck (sandboxId : string) : Health :=
  match valueAt sandboxId sandboxes with
  | None =>
      {| healthy := false; failures := ["Sandbox not found"];
         sandboxPath := None |}
  | Some sandbox =>
      let failures :=
        unless (existsSync (backendPath sandbox)) "Backend directory missing"
        ++ unless (existsSync (frontendPath sandbox))
             "Frontend directory missing"
        ++ unless (existsSync (pathJoin (backendPath sandbox) "package.json"))
             "Backend package.json missing"
        ++ unless (existsSync (pathJoin (frontendPath sandbox) "package.json"))
             "Frontend package.json missing"
        ++ unless (gitInitialized sandbox) "Git not initialized"
        ++ flat_map (fun dir =>
             unless (existsSync (pathJoin (sb_path sandbox) dir))
               ("Missing directory: " ++ dir)%string) requiredDirs
        ++ match statfs with
           | Some (bfree, bsize) =>
               unless (negb (lowDisk bfree bsize))
                 ("Low disk space: " ++ decimal (freeMB bfree bsize)
                  ++ "MB free")%string
           | None => []
           end in
      {| healthy := match failures with [] => true | _ => false end;
         failures := failures;
         sandboxPath := Some (sb_path sandbox) |}
  end.

(** All that [healthCheck] asks of a sandbox. *)
Definition allChecksPass (sandbox : Info) : Prop :=
  existsSync (backendPath sandbox) = true
  /\ existsSync (frontendPath sandbox) = true
  /\ existsSync (pathJoin (backendPath sandbox) "package.json") = true
  /\ existsSync (pathJoin (frontendPath sandbox) "package.json") = true
  /\ (exists out, execSync "git status" (sb_path sandbox) None = inr out)
  /\ (forall dir, In dir requiredDirs ->
        existsSync (pathJoin (sb_path sandbox) dir) = true)
  /\ (forall bfree bsize, statfs = Some (bfree, bsize) ->
        (100 * (1024 * 1024) <= bfree * bsize)%N).

(** [sandboxHealthCheckNode]; the state's [sandboxId] may be missing. *)
Definition sandboxHealthCheckNode (sandboxId : option string) : HealthUpdate :=
  match sandboxId with
  | Some (String _ _ as id) =>
      let result := healthCheck id in
      if healthy result then
        {| upd_sandboxHealthy := true; upd_error := None |}
      else
        {| upd_sandboxHealthy := false;
           upd_error :=
             Some ("Sandbox unhealthy: "
                   ++ JsString.join "; " (failures result))%string |}
  | _ =>
      {| upd_sandboxHealthy := false;
         upd_error :=
           Some ("No sandbox ID " ++ emDash ++ " setup may have failed")%string |}
  end.

(** [status || 1]. *)
Definition orOne (status : option Z) : Z :=
  match status with
  | Some z => if (z =? 0)%Z then 1%Z else z
  | None => 1%Z
  end.

(** [executeCommand]; [inl] is the message of the [Error] thrown for an
    unknown sandbox, [timeout] the parameter with its default of 30000. *)
Definition executeCommand (sandboxId command : string) (timeout : option Z)
  : string + CommandResult :=
  match valueAt sandboxId sandboxes with
  | None => inl ("Sandbox " ++ sandboxId ++ " not found")%string
  | Some sandbox =>
      match execSync command (sb_path sandbox)
              (Some (nullish timeout 30000%Z)) with
      | inr out =>
          inr {| stdout := orText (Some out) ""; stderr := ""; exitCode := 0 |}
      | inl error =>
          inr {| stdout := orText (err_stdout error) "";
                 stderr := orText (err_stderr error) (err_message error);
                 exitCode := orOne (err_status error) |}
      end
  end.


End Host.


(** *** Snapshots

    [snapshot] counts the snapshot before it tries the three git commands,
    and names the tag after the count. *)
Record SnapshotResult := mkSnapshotResult {
  success : bool;
  tag : option string;
  snap_message : option string;
  snap_error : option string }.

Definition tagOf (count : N) : string := "v0." ++ decimal count ++ ".0".

(** The three commands, in order; the first to raise decides. *)
Definition firstFailure (execSync : string -> string -> option Z
                                    -> ExecError + string)
    (cwd : string) (commands : list string) : option ExecError :=
  fold_left (fun failed command =>
    match failed with
    | Some e => Some e
    | None =>
        match execSync command cwd None with
        | inl e => Some e
        | inr _ => None
        end
    end) commands None.

(** [snapshot]: the result, or the message of the [Error] thrown for an
    unknown sandbox, and the map with the count of the sandbox advanced. *)
Definition snapshot
    (execSync : string -> string -> option Z -> ExecError + string)
    (sandboxes : JsMap Info) (sandboxId message : string)
  : (string + SnapshotResult) * JsMap Info :=
  match valueAt sandboxId sandboxes with
  | None => (inl ("Sandbox " ++ sandboxId ++ " not found")%string, sandboxes)
  | Some sandbox =>
      let count := (snapshotCount sandbox + 1)%N in
      let sandbox' :=
        {| sb_path := sb_path sandbox; backendPath := backendPath sandbox;
           frontendPath := frontendPath sandbox;
           createdAt := createdAt sandbox; snapshotCount := count |} in
      let tag := tagOf count in
      let commands :=
        [ "git add -A";
          ("git commit -m " ++ Validator.dq ++ message ++ Validator.dq
             ++ " --allow-empty")%string;
          ("git tag " ++ tag)%string ] in
      (inr match firstFailure execSync (sb_path sandbox) commands with
           | None =>
               {| success := true; tag := Some tag;
                  snap_message := Some message; snap_error := None |}
           | Some e =>
               {| success := false; tag := None; snap_message := None;
                  snap_error := Some (err_message e) |}
           end,
       mapSet sandboxId sandbox' sandboxes)
  end.

(** The tag a call granted, if any. *)
Definition tagsOf (r : string + SnapshotResult) : list string :=
  match r with
  | inr {| tag := Some t |} => [t]
  | _ => []
  end.

(** Successive calls of [snapshot] for one sandbox, each with the outcome of
    its git commands and its message. *)
Fixpoint snapshotRun (sandboxId : string)
    (calls : list ((string -> string -> option Z -> ExecError + string)
                   * string))
    (sandboxes : JsMap Info) : list (string + SnapshotResult) :=
  match calls with
  | [] => []
  | (execSync, message) :: rest =>
      let (r, sandboxes') := snapshot execSync sandboxes sandboxId message in
      r :: snapshotRun sandboxId rest sandboxes'
  end.


(** *** The file list

    A directory as [fs.readdirSync(dir, { withFileTypes: true })] walks it:
    entries that are directories, with their own entries, and the others. *)
#[warnings="-register-all"]
Inductive Dirent :=
| FileEntry (name : string)
| Directory (name : string) (entries : list Dirent).

Definition direntName (e : Dirent) : string :=
  match e with
  | FileEntry n => n
  | Directory n _ => n
  end.

(** [entry.name === "node_modules" || entry.name === ".git"]. *)
Definition skipped (name : string) : bool :=
  String.eqb name "node_modules" || String.eqb name ".git".

(** [prefix ? `${prefix}/${entry.name}` : entry.name]. *)
Definition relOf (prefix name : string) : string :=
  match prefix with
  | EmptyString => name
  | _ => prefix ++ "/" ++ name
  end.

(** The body of [walk]'s loop for one entry. *)
Fixpoint walkEntry (prefix : string) (entry : Dirent) : list string :=
  match entry with
  | FileEntry name =>
      if skipped name then [] else [relOf prefix name]
  | Directory name entries =>
      if skipped name then []
      else flat_map (walkEntry (relOf prefix name)) entries
  end.

(** [walk(dir, prefix)]. *)
Definition walk (entries : list Dirent) (prefix : string) : list string :=
  flat_map (walkEntry prefix) entries.

(** [getFileList]; [root] is what lies under [sandbox.path], given for the
    sandboxes that are known. *)
Definition getFileList (sandboxes : JsMap Info)
    (root : string -> list Dirent) (sandboxId : string)
  : string + list string :=
  match valueAt sandboxId sandboxes with
  | None => inl ("Sandbox " ++ sandboxId ++ " not found")%string
  | Some sandbox => inr (walk (root (sb_path sandbox)) "")
  end.

(** A chain of names that leads from a list of entries to a file. *)
Inductive LeadsTo : list Dirent -> list string -> Prop :=
| leads_file entries name :
    In (FileEntry name) entries -> LeadsTo entries [name]
| leads_dir entries name inner chain :
    In (Directory name inner) entries -> LeadsTo inner chain ->
    LeadsTo entries (name :: chain).

(** [a/b/c] for a chain of names. *)
Definition pathOf (chain : list string) : string := JsString.join "/" chain.

(** A chain none of whose names the walk passes over. *)
Definition unskipped (chain : list string) : Prop :=
  Forall (fun name => skipped name = false) chain.

(** What a chain adds to a prefix that is not empty. *)
Fixpoint below (chain : list string) : string :=
  match chain with
  | [] => ""
  | name :: rest => "/" ++ name ++ below rest
  end.

End Sandbox.

(* ================================================================== *)
(** ** More concrete inputs *)

Module MoreExamples.
Import Gemini.

(** A service whose channel is down. *)
Definition offline : Client :=
  {| generateContent := fun _ _ => inl (Error (Some "fetch failed")) |}.

(** A service that answers with fenced JSON. *)
Definition fenced : Response :=
  {| text := Some (fence ++ "json" ++ nl ++ "{}" ++ nl ++ fence ++ nl)%string;
     usageMetadata := None |}.

(** Test 1 of [tests/test-validator.js]: an entity without a table. *)
Definition commentBlueprint : Validator.Blueprint :=
  Validator.mkBlueprint
    (Some [ Validator.mkEntity (Some "User");
            Validator.mkEntity (Some "Task");
            Validator.mkEntity (Some "Comment") ])
    (Some (Validator.mkDbSchema (Some
       [ Examples.table "users" []; Examples.table "tasks" [] ])))
    (Some []) (Some []).

Definition commentState : Validator.State :=
  Validator.mkState (Some commentBlueprint)
    (Some ValidatorRun.blueprintValidation_default).

(** The blueprint object after the first two architect steps, and the update
    of a second visit of step 2. *)
Definition blueprintObject : Accumulate.JsObject string :=
  [ ("entities", "[User]"); ("dbSchema", "v1"); ("apiEndpoints", "[]") ].

Definition secondSchema : Accumulate.JsObject string := [ ("dbSchema", "v2") ].

(** A sandbox, and a host on which every command raises. *)
Definition box : Sandbox.Info :=
  Sandbox.mkInfo "/tmp/ai-dev-team/sandbox-1" "/tmp/ai-dev-team/sandbox-1/backend"
    "/tmp/ai-dev-team/sandbox-1/frontend" 1700000000000 0.

Definition boxes : StateStore.JsMap Sandbox.Info := [ ("sandbox-1", box) ].

Definition gitBroken (command cwd : string) (timeout : option Z)
  : Sandbox.ExecError + string :=
  inl (Sandbox.mkExecError None None "not a git repository" (Some 128%Z)).

(** A small tree: a file, a source directory, and the two directories the
    walk passes over. *)
Definition tree : list Sandbox.Dirent :=
  [ Sandbox.FileEntry "package.json";
    Sandbox.Directory "src" [ Sandbox.FileEntry "index.js" ];
    Sandbox.Directory "node_modules"
      [ Sandbox.Directory "express" [ Sandbox.FileEntry "index.js" ] ];
    Sandbox.Directory ".git" [ Sandbox.FileEntry "HEAD" ] ].

End MoreExamples.

(* ================================================================== *)
(** ** Properties of the reducers *)

Module StateStoreFacts.
Import StateStore.

(** *** Replace fields *)

Lemma applyUpdates_snoc {A U : Type} (reducer : A -> U -> A) current pre u :
  applyUpdates reducer current (pre ++ [u])
  = reducer (applyUpdates reducer current pre) u.
Proof.
  unfold applyUpdates. now rewrite fold_left_app.
Qed.

Lemma lastUpdate_snoc {U : Type} (pre : list U) (u : U) :
  lastUpdate (pre ++ [u]) = Some u.
Proof.
  induction pre as [| x pre IH]; [reflexivity |].
  simpl. rewrite IH. now destruct (pre ++ [u]) eqn:E; [destruct pre |].
Qed.

(** C7, as the code has it: after any sequence of updates a replace field
    holds [u ?? d], where [u] is the last update and [d] the field's default;
    without any update it holds its current value.  So the last write wins
    when it is not null, and a null or undefined last write puts the default
    back; the value held before is never looked at. *)
Theorem replace_reducer_last_write {A : Type} (d current : A)
    (updates : list (option A)) :
  applyUpdates (replaceReducer d) current updates
  = match lastUpdate updates with
    | None => current
    | Some u => nullish u d
    end.
Proof.
  induction updates as [| u pre _] using rev_ind.
  - reflexivity.
  - now rewrite applyUpdates_snoc, lastUpdate_snoc.
Qed.

(** The part of last-write-wins that holds: when the last update is not
    null it is also the last non-null one, and it is the final value. *)
Lemma lastNonNull_snoc {A : Type} (pre : list (option A)) (v : A) :
  lastNonNull (pre ++ [Some v]) = Some v.
Proof.
  induction pre as [| u pre IH]; simpl; [reflexivity | now rewrite IH].
Qed.

Lemma replace_reducer_last_non_null {A : Type} (d current v : A) pre :
  applyUpdates (replaceReducer d) current (pre ++ [Some v]) = v
  /\ lastNonNull (pre ++ [Some v]) = Some v.
Proof.
  split; [now rewrite applyUpdates_snoc | apply lastNonNull_snoc].
Qed.

(** C7 fails as stated: after [pmStatus] was set to ["spec_ready"], a null
    update does not retain it, and the final value is not the last non-null
    update. *)
Lemma replace_reducer_null_resets :
  lastNonNull [Some "spec_ready"; @None string] = Some "spec_ready"
  /\ applyUpdates pmStatus_reducer "idle" [Some "spec_ready"; None]
     <> "spec_ready"
  /\ pmStatus_reducer "spec_ready" None <> "spec_ready".
Proof.
  repeat split; discriminate.
Qed.

(** *** The keyed map behind [fileRegistry] *)

Lemma mem_In k l : mem k l = true <-> In k l.
Proof.
  unfold mem. rewrite existsb_exists. split.
  - intros (x & Hx & E). apply String.eqb_eq in E. now subst.
  - intro H. exists k. split; [assumption | apply String.eqb_refl].
Qed.

Lemma mem_false k l : mem k l = false <-> ~ In k l.
Proof.
  rewrite <- mem_In. now destruct (mem k l).
Qed.

Lemma keys_mapSet {V : Type} k (v : V) m :
  keys (mapSet k v m) = if mem k (keys m) then keys m else keys m ++ [k].
Proof.
  induction m as [| [k' v'] m IH]; [reflexivity |].
  simpl. rewrite (String.eqb_sym k k').
  destruct (String.eqb k' k) eqn:E; simpl; [reflexivity |].
  rewrite IH. now destruct (mem k (keys m)).
Qed.

Lemma mapSet_fresh {V : Type} k (v : V) m :
  ~ In k (keys m) -> mapSet k v m = m ++ [(k, v)].
Proof.
  induction m as [| [k' v'] m IH]; simpl; intro H; [reflexivity |].
  destruct (String.eqb k' k) eqn:E.
  - apply String.eqb_eq in E. tauto.
  - f_equal. apply IH. tauto.
Qed.

Lemma NoDup_snoc {X : Type} (l : list X) (x : X) :
  NoDup l -> ~ In x l -> NoDup (l ++ [x]).
Proof.
  intros Hl Hx. apply NoDup_app; [assumption | repeat constructor; auto |].
  intros a Ha [<- | []]. contradiction.
Qed.

Lemma NoDup_keys_mapSet {V : Type} k (v : V) m :
  NoDup (keys m) -> NoDup (keys (mapSet k v m)).
Proof.
  intro H. rewrite keys_mapSet. destruct (mem k (keys m)) eqn:E; [assumption |].
  apply NoDup_snoc; [assumption | now apply mem_false].
Qed.

Lemma wellKeyed_mapSet e m : wellKeyed m -> wellKeyed (mapSet (path e) e m).
Proof.
  induction m as [| [k' v'] m IH]; intros H k x.
  - simpl. intros [[= <- <-] | []]. reflexivity.
  - simpl. destruct (String.eqb k' (path e)) eqn:E.
    + apply String.eqb_eq in E. intros [[= <- <-] | Hin]; [now symmetry |].
      apply H. now right.
    + intros [[= <- <-] | Hin]; [apply H; now left |].
      apply IH; [| assumption]. intros k0 e0 H0. apply H. now right.
Qed.

Lemma upsertAll_invariant m l :
  NoDup (keys m) -> wellKeyed m ->
  NoDup (keys (upsertAll m l)) /\ wellKeyed (upsertAll m l).
Proof.
  revert m. induction l as [| e l IH]; intros m Hn Hw; [now split |].
  apply IH; [now apply NoDup_keys_mapSet | now apply wellKeyed_mapSet].
Qed.

Lemma upsertAll_app m l1 l2 :
  upsertAll m (l1 ++ l2) = upsertAll (upsertAll m l1) l2.
Proof.
  apply fold_left_app.
Qed.

Lemma mapOf_pairs (l : list FileEntry) :
  mapOf (map (fun f => (path f, f)) l) = upsertAll [] l.
Proof.
  unfold mapOf, upsertAll. generalize (@nil (string * FileEntry)).
  induction l as [| e l IH]; intro m; [reflexivity | apply IH].
Qed.

(** Reading the values of a map back into an empty map rebuilds it. *)
Lemma upsertAll_values a m :
  NoDup (keys (a ++ m)) -> wellKeyed m ->
  upsertAll a (mapValues m) = a ++ m.
Proof.
  revert a. induction m as [| [k e] m IH]; intros a Hn Hw.
  - simpl. now rewrite app_nil_r.
  - simpl. assert (Hk : path e = k) by (apply Hw; now left). rewrite Hk.
    unfold keys in Hn. rewrite map_app in Hn. simpl in Hn.
    rewrite mapSet_fresh.
    + replace (a ++ (k, e) :: m) with ((a ++ [(k, e)]) ++ m)
        by now rewrite <- app_assoc.
      apply IH.
      * unfold keys. rewrite !map_app. simpl. now rewrite <- app_assoc.
      * intros k0 e0 H0. apply Hw. now right.
    + apply NoDup_remove_2 in Hn. intro Hin. apply Hn.
      apply in_or_app. now left.
Qed.

Lemma values_paths m : wellKeyed m -> map path (mapValues m) = keys m.
Proof.
  induction m as [| [k e] m IH]; intro Hw; [reflexivity |].
  simpl. f_equal.
  - apply Hw. now left.
  - apply IH. intros k0 e0 H0. apply Hw. now right.
Qed.

Lemma wellKeyed_nil : wellKeyed [].
Proof.
  intros k e [].
Qed.

Lemma registryOf_NoDup l : NoDup (map path (registryOf l)).
Proof.
  destruct (upsertAll_invariant [] l) as [Hn Hw];
    [constructor | apply wellKeyed_nil |].
  unfold registryOf. now rewrite values_paths.
Qed.

Lemma reducer_array existing entries :
  fileRegistry_reducer existing (Arr entries)
  = registryOf (existing ++ entries).
Proof.
  unfold fileRegistry_reducer, registryOf.
  now rewrite mapOf_pairs, upsertAll_app.
Qed.

Lemma registryOf_registryOf l1 l2 :
  registryOf (registryOf l1 ++ l2) = registryOf (l1 ++ l2).
Proof.
  unfold registryOf. rewrite !upsertAll_app. f_equal. f_equal.
  destruct (upsertAll_invariant [] l1) as [Hn Hw];
    [constructor | apply wellKeyed_nil |].
  now apply (upsertAll_values []).
Qed.

Lemma pairs_values (l : list FileEntry) :
  mapValues (map (fun f => (path f, f)) l) = l.
Proof.
  unfold mapValues. rewrite map_map. simpl. apply map_id.
Qed.

Lemma registryOf_distinct l : NoDup (map path l) -> registryOf l = l.
Proof.
  intro H. unfold registryOf.
  rewrite <- (pairs_values l) at 1.
  rewrite (upsertAll_values []).
  - apply pairs_values.
  - simpl. unfold keys. now rewrite map_map.
  - intros k e Hin. apply in_map_iff in Hin.
    destruct Hin as (f & [= <- <-] & _). reflexivity.
Qed.

(** A run of updates amounts to one registry built from everything seen. *)
Lemma applyUpdates_registryOf existing updates :
  NoDup (map path existing) ->
  applyUpdates fileRegistry_reducer existing updates
  = registryOf (existing ++ arrivals updates).
Proof.
  revert existing.
  induction updates as [| u updates IH]; intros existing H.
  - simpl. now rewrite app_nil_r, registryOf_distinct.
  - destruct u as [| entries |]; simpl; try now apply IH.
    change (applyUpdates fileRegistry_reducer
              (fileRegistry_reducer existing (Arr entries)) updates
            = registryOf (existing ++ entries ++ arrivals updates)).
    rewrite reducer_array, IH by apply registryOf_NoDup.
    now rewrite registryOf_registryOf, app_assoc.
Qed.

Lemma keys_upsertAll m l :
  keys (upsertAll m l) = keys m ++ firstAppearances (keys m) (map path l).
Proof.
  revert m. induction l as [| e l IH]; intro m.
  - simpl. now rewrite app_nil_r.
  - simpl. rewrite IH, keys_mapSet. fold (mem (path e) (keys m)).
    destruct (mem (path e) (keys m)); [reflexivity |].
    now rewrite <- app_assoc.
Qed.

Lemma registryOf_paths l :
  map path (registryOf l) = firstAppearances [] (map path l).
Proof.
  destruct (upsertAll_invariant [] l) as [Hn Hw];
    [constructor | apply wellKeyed_nil |].
  unfold registryOf. rewrite values_paths by assumption.
  apply keys_upsertAll.
Qed.

Lemma valueAt_mapSet {V : Type} p k (v : V) m :
  valueAt p (mapSet k v m)
  = if String.eqb k p then Some v else valueAt p m.
Proof.
  unfold valueAt. induction m as [| [k' v'] m IH]; simpl.
  - now destruct (String.eqb k p).
  - destruct (String.eqb k' k) eqn:E; simpl.
    + apply String.eqb_eq in E. subst k'. now destruct (String.eqb k p).
    + destruct (String.eqb k' p) eqn:E'; simpl; [| apply IH].
      apply String.eqb_eq in E'. subst k'.
      rewrite String.eqb_sym in E. now rewrite E.
Qed.

Lemma find_snoc {X : Type} (f : X -> bool) l x :
  find f (l ++ [x])
  = match find f l with Some y => Some y | None => if f x then Some x else None end.
Proof.
  induction l as [| a l IH]; simpl; [reflexivity |].
  now destruct (f a).
Qed.

Lemma valueAt_upsertAll p m l :
  valueAt p (upsertAll m l)
  = match latest p l with Some e => Some e | None => valueAt p m end.
Proof.
  revert m. induction l as [| e l IH]; intro m; [reflexivity |].
  simpl. rewrite IH. unfold latest. simpl. rewrite find_snoc.
  destruct (find _ (List.rev l)); [reflexivity |].
  rewrite valueAt_mapSet. now destruct (String.eqb (path e) p).
Qed.

Lemma lookup_values p m : wellKeyed m -> lookup p (mapValues m) = valueAt p m.
Proof.
  unfold lookup, valueAt.
  induction m as [| [k e] m IH]; intro Hw; [reflexivity |].
  simpl. rewrite (Hw k e) by now left.
  destruct (String.eqb k p); [reflexivity |].
  apply IH. intros k0 e0 H0. apply Hw. now right.
Qed.

Lemma registryOf_lookup p l : lookup p (registryOf l) = latest p l.
Proof.
  destruct (upsertAll_invariant [] l) as [Hn Hw];
    [constructor | apply wellKeyed_nil |].
  unfold registryOf. rewrite lookup_values, valueAt_upsertAll by assumption.
  now destruct (latest p l).
Qed.

(** C8: starting from a registry with distinct paths (the default, the empty
    registry, is one) and after any sequence of updates, the registry has
    one entry per path, the entry of a path is the one most recently handed
    over for it, and the paths stand in the order in which they first
    appeared. *)
Theorem fileRegistry_keyed_upsert (existing : list FileEntry)
    (updates : list Incoming) (H : NoDup (map path existing)) :
  let final := applyUpdates fileRegistry_reducer existing updates in
  let seen := existing ++ arrivals updates in
  NoDup (map path final)
  /\ (forall p, lookup p final = latest p seen)
  /\ map path final = firstAppearances [] (map path seen).
Proof.
  intros final seen. subst final seen.
  rewrite applyUpdates_registryOf by assumption.
  split; [apply registryOf_NoDup | split].
  - intro p. apply registryOf_lookup.
  - apply registryOf_paths.
Qed.

(** Three updates: [a.js] is rewritten by the third one and keeps the first
    place, [b.js] keeps the second. *)
Lemma fileRegistry_keyed_upsert_witness :
  applyUpdates fileRegistry_reducer fileRegistry_default
    Examples.registryUpdates
  = [Examples.entry "a.js" "v2"; Examples.entry "b.js" "v1";
     Examples.entry "c.js" "v1"]
  /\ NoDup (map path (applyUpdates fileRegistry_reducer fileRegistry_default
                        Examples.registryUpdates))
  /\ (forall p,
        lookup p (applyUpdates fileRegistry_reducer fileRegistry_default
                    Examples.registryUpdates)
        = latest p (fileRegistry_default ++ arrivals Examples.registryUpdates))
  /\ map path (applyUpdates fileRegistry_reducer fileRegistry_default
                 Examples.registryUpdates)
     = firstAppearances []
         (map path (fileRegistry_default ++ arrivals Examples.registryUpdates)).
Proof.
  split; [reflexivity |].
  apply (fileRegistry_keyed_upsert fileRegistry_default
           Examples.registryUpdates).
  constructor.
Defined.

End StateStoreFacts.

(* ================================================================== *)
(** ** Properties of the blueprint validator *)

Module ValidatorFacts.
Import Validator.

(** *** The decision *)

(** C4: when every one of the six checks finds nothing, the validator
    reports [isValid = true] with an empty issue list (and hands the run to
    the planner, the cycle count incremented). *)
Theorem clean_blueprint_passes (state : State) (bp : Blueprint)
    (Hbp : blueprint state = Some bp)
    (H1 : check1 (entities bp) (dbSchema bp) = Normal [])
    (H2 : check2 (dbSchema bp) = Normal [])
    (H3 : check3 (apiEndpoints bp) (dbSchema bp) = Normal [])
    (H4 : check4 (frontendPages bp) (apiEndpoints bp) = [])
    (H5 : check5 (apiEndpoints bp) (frontendPages bp) = [])
    (H6 : check6 (dbSchema bp) (apiEndpoints bp) = Normal []) :
  blueprintValidatorNode state
  = Normal {| upd_blueprintValidation :=
                {| isValid := true; issues := Some [];
                   validationCycles := Some (currentCycles state + 1)%Z |};
              upd_currentPhase := Some "planner" |}.
Proof.
  unfold blueprintValidatorNode, collectIssues.
  rewrite Hbp, H1, H2, H3, H4, H5, H6. reflexivity.
Qed.

(** Test 4 of the repository: the clean blueprint passes. *)
Lemma clean_blueprint_passes_witness :
  blueprintValidatorNode Examples.cleanState
  = Normal {| upd_blueprintValidation :=
                {| isValid := true; issues := Some [];
                   validationCycles := Some 1%Z |};
              upd_currentPhase := Some "planner" |}.
Proof.
  apply (clean_blueprint_passes Examples.cleanState Examples.cleanBlueprint);
    reflexivity.
Defined.

(** C2: with defects found and the cycle count already at or above
    [MAX_VALIDATION_CYCLES], the validator reports [isValid = true] and
    returns every issue it found. *)
Theorem forced_pass_keeps_issues (state : State) (bp : Blueprint)
    (v : Validation) (n : Z) (found : list Issue)
    (Hbp : blueprint state = Some bp)
    (Hv : blueprintValidation state = Some v)
    (Hn : validationCycles v = Some n)
    (Hceiling : (MAX_VALIDATION_CYCLES <= n)%Z)
    (Hfound : collectIssues bp = Normal found)
    (Hdefects : found <> []) :
  blueprintValidatorNode state
  = Normal {| upd_blueprintValidation :=
                {| isValid := true; issues := Some found;
                   validationCycles := Some (n + 1)%Z |};
              upd_currentPhase := Some "planner" |}.
Proof.
  unfold blueprintValidatorNode. rewrite Hbp, Hfound. simpl.
  assert (Hc : currentCycles state = n).
  { unfold currentCycles. rewrite Hv, Hn.
    unfold MAX_VALIDATION_CYCLES in Hceiling.
    destruct (Z.eqb_spec n 0); [lia | reflexivity]. }
  rewrite Hc. unfold decide.
  destruct found as [| i found]; [congruence |].
  apply Z.leb_le in Hceiling. now rewrite Hceiling.
Qed.

(** Test 5 of the repository: the entity without a table is accepted at
    cycle count 2, and the issue is returned. *)
Lemma forced_pass_keeps_issues_witness :
  blueprintValidatorNode Examples.ghostState
  = Normal {| upd_blueprintValidation :=
                {| isValid := true; issues := Some [Examples.ghostIssue];
                   validationCycles := Some 3%Z |};
              upd_currentPhase := Some "planner" |}.
Proof.
  apply (forced_pass_keeps_issues Examples.ghostState Examples.ghostBlueprint
           {| isValid := false; issues := Some [];
              validationCycles := Some 2%Z |} 2%Z [Examples.ghostIssue]);
    try reflexivity; discriminate.
Defined.

(** Below the ceiling the same defects send the run back. *)
Lemma defects_below_ceiling (state : State) (bp : Blueprint)
    (found : list Issue) :
  blueprint state = Some bp ->
  (currentCycles state < MAX_VALIDATION_CYCLES)%Z ->
  collectIssues bp = Normal found -> found <> [] ->
  blueprintValidatorNode state
  = Normal {| upd_blueprintValidation :=
                {| isValid := false; issues := Some found;
                   validationCycles := Some (currentCycles state + 1)%Z |};
              upd_currentPhase := None |}.
Proof.
  intros Hbp Hlt Hfound Hne.
  unfold blueprintValidatorNode. rewrite Hbp, Hfound. simpl.
  destruct found as [| i found]; [congruence |]. unfold decide.
  apply Z.leb_gt in Hlt. now rewrite Hlt.
Qed.

(** *** No crash from an absent artifact *)

Lemma mapM_total {A B : Type} (f : A -> Result B) (l : list A) :
  Forall (fun a => exists b, f a = Normal b) l ->
  exists bs, mapM f l = Normal bs.
Proof.
  induction 1 as [| a l (b & Hb) _ (bs & Hbs)]; simpl.
  - now exists [].
  - rewrite Hb, Hbs. simpl. now eexists.
Qed.

Lemma lowerName_total what (n : option string) :
  n <> None -> exists s, lowerName what n = Normal s.
Proof.
  destruct n as [s |]; [intros _; now eexists | congruence].
Qed.

Lemma lowerNames_total what (tbls : list Table) :
  Forall (fun t => t_name t <> None) tbls ->
  exists names, mapM (fun t => lowerName what (t_name t)) tbls = Normal names.
Proof.
  intro H. apply mapM_total.
  eapply Forall_impl; [| exact H]. intros t Ht. now apply lowerName_total.
Qed.

Ltac named_tables H what :=
  let names := fresh "names" in
  let E := fresh "E" in
  destruct (lowerNames_total what _ H) as (names & E); rewrite E; simpl.

Lemma check1_total (bp : Blueprint) :
  wellShaped bp -> exists l, check1 (entities bp) (dbSchema bp) = Normal l.
Proof.
  unfold wellShaped, check1, presentTables.
  destruct (entities bp) as [ents |]; [| now eexists].
  destruct (dbSchema bp) as [d |]; simpl; [| now eexists].
  destruct (tables d) as [tbls |]; [| now eexists].
  intros [Ht He]. simpl in He.
  edestruct (mapM_total
    (fun t => n <- lowerName "t.name" (t_name t) ;; Normal (stripFinalS n)))
    as (normalized & En).
  { eapply Forall_impl; [| exact Ht]. intros t Hn.
    destruct (lowerName_total "t.name" _ Hn) as (s & Es).
    rewrite Es. simpl. now eexists. }
  rewrite En. simpl. named_tables Ht "t.name".
  match goal with
  | |- exists l, (found <- mapM ?f ents ;; _) = _ =>
      destruct (mapM_total f ents) as (found & Ef)
  end.
  { eapply Forall_impl; [| exact He]. intros e Hn.
    destruct (lowerName_total "entity.name" _ Hn) as (s & Es).
    rewrite Es. simpl. destruct (negb _); now eexists. }
  rewrite Ef. simpl. now eexists.
Qed.

Lemma check2_total (bp : Blueprint) :
  wellShaped bp -> exists l, check2 (dbSchema bp) = Normal l.
Proof.
  unfold wellShaped, check2, presentTables.
  destruct (dbSchema bp) as [d |]; simpl; [| now eexists].
  destruct (tables d) as [tbls |]; [| now eexists].
  intros [Ht _]. named_tables Ht "t.name". now eexists.
Qed.

Lemma check3_total (bp : Blueprint) :
  wellShaped bp -> exists l, check3 (apiEndpoints bp) (dbSchema bp) = Normal l.
Proof.
  unfold wellShaped, check3, presentTables.
  destruct (apiEndpoints bp) as [eps |]; [| now eexists].
  destruct (dbSchema bp) as [d |]; simpl; [| now eexists].
  destruct (tables d) as [tbls |]; [| now eexists].
  intros [Ht _]. named_tables Ht "t.name". now eexists.
Qed.

Lemma check6_total (bp : Blueprint) :
  wellShaped bp -> exists l, check6 (dbSchema bp) (apiEndpoints bp) = Normal l.
Proof.
  unfold wellShaped, check6, presentTables.
  destruct (dbSchema bp) as [d |]; simpl; [| now eexists].
  destruct (tables d) as [tbls |]; [| now eexists].
  intros [Ht _].
  destruct (apiEndpoints bp) as [eps |]; [| now eexists].
  match goal with
  | |- exists l, (found <- mapM ?f tbls ;; _) = _ =>
      destruct (mapM_total f tbls) as (found & Ef)
  end.
  { eapply Forall_impl; [| exact Ht]. intros t Hn.
    destruct (lowerName_total "table.name" _ Hn) as (s & Es).
    rewrite Es. simpl. destruct (_ && _); now eexists. }
  rewrite Ef. simpl. now eexists.
Qed.

Lemma collectIssues_total (bp : Blueprint) :
  wellShaped bp -> exists found, collectIssues bp = Normal found.
Proof.
  intro H. unfold collectIssues.
  destruct (check1_total bp H) as (i1 & E1).
  destruct (check2_total bp H) as (i2 & E2).
  destruct (check3_total bp H) as (i3 & E3).
  destruct (check6_total bp H) as (i6 & E6).
  rewrite E1, E2, E3, E6. simpl. now eexists.
Qed.

(** C9: whichever of [entities], [dbSchema], [dbSchema.tables],
    [apiEndpoints] and [frontendPages] are absent from the blueprint, the
    validator completes and returns a result, as long as the tables that are
    there, and the entities matched against them, carry their names: an
    absent artifact never makes a check raise. *)
Theorem validator_completes (state : State) (bp : Blueprint)
    (Hbp : blueprint state = Some bp) (Hshape : wellShaped bp) :
  exists update, blueprintValidatorNode state = Normal update.
Proof.
  unfold blueprintValidatorNode. rewrite Hbp.
  destruct (collectIssues_total bp Hshape) as (found & E).
  rewrite E. simpl. now eexists.
Qed.

(** Only the entities have arrived: every check that needs more is skipped
    and the validator returns. *)
Lemma validator_completes_witness :
  exists update, blueprintValidatorNode Examples.entitiesOnly = Normal update.
Proof.
  apply (validator_completes Examples.entitiesOnly
           {| entities := Some [ mkEntity (Some "User") ];
              dbSchema := None; apiEndpoints := None;
              frontendPages := None |}).
  - reflexivity.
  - exact I.
Defined.

(** The hypothesis of C9 asks no more than is needed: when the validator
    returns, the blueprint was there and well shaped.  So the validator
    raises exactly on a missing blueprint or a missing name, never on an
    absent artifact. *)
Lemma bind_Normal {A B : Type} (r : Result A) (k : A -> Result B) b :
  bind r k = Normal b -> exists a, r = Normal a /\ k a = Normal b.
Proof.
  destruct r as [a | w]; simpl; [| discriminate]. intro H. now exists a.
Qed.

Lemma mapM_Normal {A B : Type} (f : A -> Result B) (l : list A) bs :
  mapM f l = Normal bs -> Forall (fun a => exists b, f a = Normal b) l.
Proof.
  revert bs. induction l as [| a l IH]; intros bs H; [constructor |].
  simpl in H. apply bind_Normal in H. destruct H as (b & Hb & H).
  apply bind_Normal in H. destruct H as (bs' & Hbs & _).
  constructor; [now exists b | now apply (IH bs')].
Qed.

Lemma lowerName_Normal what (n : option string) :
  (exists s, lowerName what n = Normal s) -> n <> None.
Proof.
  intros (s & H). now destruct n.
Qed.

Lemma validator_returns_only_well_shaped (state : State) (update : Update) :
  blueprintValidatorNode state = Normal update ->
  exists bp, blueprint state = Some bp /\ wellShaped bp.
Proof.
  unfold blueprintValidatorNode.
  destruct (blueprint state) as [bp |]; [| discriminate].
  intro H. exists bp. split; [reflexivity |].
  apply bind_Normal in H. destruct H as (found & H & _).
  unfold collectIssues in H.
  apply bind_Normal in H. destruct H as (i1 & H1 & H).
  apply bind_Normal in H. destruct H as (i2 & H2 & _).
  unfold wellShaped, presentTables, check1, check2 in *.
  destruct (dbSchema bp) as [d |]; [| exact I]. simpl in *.
  destruct (tables d) as [tbls |]; [| exact I].
  apply bind_Normal in H2. destruct H2 as (names & H2 & _).
  apply mapM_Normal in H2. split.
  - eapply Forall_impl; [| exact H2]. intros t. apply lowerName_Normal.
  - destruct (entities bp) as [ents |]; [| exact I]. simpl.
    apply bind_Normal in H1. destruct H1 as (normalized & _ & H1).
    apply bind_Normal in H1. destruct H1 as (exact & _ & H1).
    apply bind_Normal in H1. destruct H1 as (foundE & H1 & _).
    apply mapM_Normal in H1.
    eapply Forall_impl; [| exact H1]. intros e (b & Hb).
    apply bind_Normal in Hb. destruct Hb as (s & Hs & _).
    apply (lowerName_Normal "entity.name"). now exists s.
Qed.

(** With nothing of the blueprint there at all, no check runs and the
    blueprint passes. *)
Lemma nothing_to_check (state : State) :
  blueprint state
  = Some {| entities := None; dbSchema := None; apiEndpoints := None;
            frontendPages := None |} ->
  blueprintValidatorNode state
  = Normal {| upd_blueprintValidation :=
                {| isValid := true; issues := Some [];
                   validationCycles := Some (currentCycles state + 1)%Z |};
              upd_currentPhase := Some "planner" |}.
Proof.
  intro H. unfold blueprintValidatorNode. now rewrite H.
Qed.

(** What does make the validator raise: a table without a name. *)
Lemma nameless_table_raises :
  blueprintValidatorNode
    {| blueprint := Some
         {| entities := None;
            dbSchema := Some (mkDbSchema (Some [ mkTable None None ]));
            apiEndpoints := None; frontendPages := None |};
       blueprintValidation := None |}
  = TypeError "t.name".
Proof.
  reflexivity.
Qed.

(** *** The router *)

Lemma filter_head_find {X : Type} (f : X -> bool) (l : list X) :
  find f l = hd_error (filter f l).
Proof.
  induction l as [| x l IH]; simpl; [reflexivity |].
  now destruct (f x).
Qed.

Lemma nodeName_truthy (t : FixTarget) : truthy (Some (nodeName t)) = true.
Proof.
  now destruct t.
Qed.

Lemma countIn_bump k t m :
  countIn k (bump t m)
  = countIn k m + (if String.eqb t k then 1 else 0).
Proof.
  unfold countIn. induction m as [| [k' n] m IH]; simpl.
  - destruct (String.eqb t k); reflexivity.
  - destruct (String.eqb k' t) eqn:E; simpl.
    + apply String.eqb_eq in E. subst k'.
      destruct (String.eqb t k); simpl; lia.
    + destruct (String.eqb k' k) eqn:E'; simpl; [| apply IH].
      apply String.eqb_eq in E'. subst k'.
      rewrite String.eqb_sym in E. rewrite E. lia.
Qed.

Lemma countIn_targetCounts k (l : list Issue) (m : list (string * nat)) :
  countIn k (fold_left (fun counts t => bump t counts)
               (map (fun i => nodeName (fixTarget i)) l) m)
  = countIn k m + occurrences k l.
Proof.
  revert m. induction l as [| i l IH]; intro m; simpl.
  - unfold occurrences. simpl. lia.
  - rewrite IH, countIn_bump. unfold occurrences. simpl.
    destruct (String.eqb (nodeName (fixTarget i)) k); simpl; lia.
Qed.

Lemma keys_bump t m :
  map fst (bump t m)
  = if StateStore.mem t (map fst m) then map fst m else map fst m ++ [t].
Proof.
  induction m as [| [k n] m IH]; [reflexivity |].
  simpl. rewrite (String.eqb_sym t k).
  destruct (String.eqb k t); simpl; [reflexivity |].
  rewrite IH. now destruct (StateStore.mem t (map fst m)).
Qed.

Lemma NoDup_keys_bump t m :
  NoDup (map fst m) -> NoDup (map fst (bump t m)).
Proof.
  intro H. rewrite keys_bump.
  destruct (StateStore.mem t (map fst m)) eqn:E; [assumption |].
  apply StateStoreFacts.NoDup_snoc; [assumption |].
  now apply StateStoreFacts.mem_false.
Qed.

Lemma NoDup_keys_targetCounts (targets : list string) m :
  NoDup (map fst m) ->
  NoDup (map fst (fold_left (fun counts t => bump t counts) targets m)).
Proof.
  revert m. induction targets as [| t targets IH]; intros m H; [assumption |].
  simpl. apply IH. now apply NoDup_keys_bump.
Qed.

Lemma countIn_entry k n m :
  NoDup (map fst m) -> In (k, n) m -> countIn k m = n.
Proof.
  unfold countIn. induction m as [| [k' n'] m IH]; simpl; [tauto |].
  intros Hn [[= -> ->] | Hin].
  - now rewrite String.eqb_refl.
  - inversion Hn as [| ? ? Hnot Hn']; subst.
    destruct (String.eqb k' k) eqn:E; [| now apply IH].
    apply String.eqb_eq in E. subst k'. exfalso. apply Hnot.
    change k with (fst (k, n)). now apply in_map.
Qed.

Lemma countIn_bound k n m :
  (forall y, In y m -> snd y <= n) -> countIn k m <= n.
Proof.
  intro H. unfold countIn.
  destruct (find _ m) as [kv |] eqn:E; [| lia].
  apply find_some in E. now apply H.
Qed.

Lemma insertDesc_In x y l : In y (insertDesc x l) <-> y = x \/ In y l.
Proof.
  induction l as [| z l IH]; simpl.
  - intuition congruence.
  - destruct (snd z <=? snd x)%nat; simpl; [intuition congruence |].
    rewrite IH. intuition congruence.
Qed.

Lemma sortDesc_In y l : In y (sortDesc l) <-> In y l.
Proof.
  induction l as [| x l IH]; simpl; [tauto |].
  rewrite insertDesc_In, IH. intuition congruence.
Qed.

Lemma insertDesc_headIsTop x l : headIsTop l -> headIsTop (insertDesc x l).
Proof.
  destruct l as [| z l]; simpl; [tauto |].
  intro H. destruct (Nat.leb_spec (snd z) (snd x)); simpl.
  - intros y [<- | Hy]; [assumption |]. apply H in Hy. lia.
  - intros y Hy. apply insertDesc_In in Hy. destruct Hy as [-> | Hy].
    + lia.
    + now apply H.
Qed.

Lemma sortDesc_headIsTop l : headIsTop (sortDesc l).
Proof.
  induction l as [| x l IH]; simpl; [exact I |].
  now apply insertDesc_headIsTop.
Qed.

Lemma sortDesc_top top n r l :
  sortDesc l = (top, n) :: r ->
  In (top, n) l /\ forall y, In y l -> snd y <= n.
Proof.
  intro E. split.
  - apply sortDesc_In. rewrite E. now left.
  - intros y Hy. apply sortDesc_In in Hy. rewrite E in Hy.
    pose proof (sortDesc_headIsTop l) as H. rewrite E in H. simpl in H.
    destruct Hy as [<- | Hy]; [simpl; lia | now apply H].
Qed.

Lemma occurrences_In t (l : list Issue) :
  0 < occurrences t l -> exists i, In i l /\ nodeName (fixTarget i) = t.
Proof.
  unfold occurrences. intro H.
  destruct (filter _ l) as [| i r] eqn:E; [simpl in H; lia |].
  assert (Hi : In i (filter (fun i => String.eqb (nodeName (fixTarget i)) t) l))
    by (rewrite E; now left).
  apply filter_In in Hi. destruct Hi as [Hin Heq].
  apply String.eqb_eq in Heq. now exists i.
Qed.

Lemma occurrences_pos i (l : list Issue) :
  In i l -> 0 < occurrences (nodeName (fixTarget i)) l.
Proof.
  unfold occurrences. intro H.
  assert (Hi : In i (filter (fun j =>
              String.eqb (nodeName (fixTarget j)) (nodeName (fixTarget i))) l)).
  { apply filter_In. split; [assumption | apply String.eqb_refl]. }
  destruct (filter _ l); [destruct Hi | simpl; lia].
Qed.

(** What the vote returns on a list without an error. *)
Lemma router_vote (state : State) (v : Validation) :
  blueprintValidation state = Some v -> isValid v = false ->
  filter isError (issuesOrEmpty (Some v)) = [] ->
  issuesOrEmpty (Some v) <> [] ->
  (exists i, In i (issuesOrEmpty (Some v))
             /\ blueprintValidatorRouter state = nodeName (fixTarget i))
  /\ forall t, occurrences t (issuesOrEmpty (Some v))
               <= occurrences (blueprintValidatorRouter state)
                    (issuesOrEmpty (Some v)).
Proof.
  intros Hv Hvalid Herr Hne. unfold blueprintValidatorRouter.
  rewrite Hv, Hvalid, Herr.
  set (l := issuesOrEmpty (Some v)) in *.
  set (counts := targetCountsOf (map (fun i => nodeName (fixTarget i)) l)).
  assert (Hcount : forall k, countIn k counts = occurrences k l).
  { intro k. unfold counts, targetCountsOf.
    now rewrite countIn_targetCounts. }
  assert (Hnodup : NoDup (map fst counts)).
  { apply NoDup_keys_targetCounts. constructor. }
  destruct (sortDesc counts) as [| [top n] r] eqn:E.
  - exfalso. destruct l as [| i l']; [congruence |].
    pose proof (occurrences_pos i (i :: l') (or_introl eq_refl)) as Hpos.
    rewrite <- Hcount in Hpos.
    assert (counts = []) as Hnil.
    { destruct counts as [| c cs]; [reflexivity |].
      assert (In c (sortDesc (c :: cs))) as Hc
        by (apply sortDesc_In; now left).
      rewrite E in Hc. destruct Hc. }
    rewrite Hnil in Hpos. unfold countIn in Hpos. simpl in Hpos. lia.
  - apply sortDesc_top in E. destruct E as [Hin Hmax].
    pose proof (countIn_entry top n counts Hnodup Hin) as Htop.
    rewrite Hcount in Htop.
    assert (Hsome : exists i, In i l /\ nodeName (fixTarget i) = top).
    { apply occurrences_In. rewrite Htop.
      destruct n; [| lia]. exfalso.
      (* an entry is created with count 1 and only grows *)
      destruct l as [| i l']; [congruence |].
      pose proof (occurrences_pos i (i :: l') (or_introl eq_refl)) as Hpos.
      rewrite <- Hcount in Hpos.
      pose proof (countIn_bound (nodeName (fixTarget i)) 0 counts Hmax). lia. }
    destruct Hsome as (i & Hi & Hname).
    assert (Htruthy : truthy (Some top) = true)
      by (rewrite <- Hname; apply nodeName_truthy).
    rewrite Htruthy. split.
    + exists i. now split.
    + intro t. rewrite Htop, <- Hcount. now apply countIn_bound.
Qed.

Lemma no_error_among_warnings (l : list Issue) :
  Forall (fun i => severity i = warning) l -> filter isError l = [].
Proof.
  induction 1 as [| i l Hi _ IH]; simpl; [reflexivity |].
  unfold isError at 1. now rewrite Hi.
Qed.

(** C3: on a validation result that did not pass, the router returns the
    fix target of the first error-severity issue when there is one; when the
    issues are warnings only, it returns a fix target of the list that no
    other target outnumbers. *)
Theorem router_picks_target (state : State) (v : Validation)
    (Hv : blueprintValidation state = Some v)
    (Hfailed : isValid v = false) :
  (forall first,
      find isError (issuesOrEmpty (Some v)) = Some first ->
      blueprintValidatorRouter state = nodeName (fixTarget first))
  /\ (issuesOrEmpty (Some v) <> [] ->
      Forall (fun i => severity i = warning) (issuesOrEmpty (Some v)) ->
      (exists i, In i (issuesOrEmpty (Some v))
                 /\ blueprintValidatorRouter state = nodeName (fixTarget i))
      /\ forall t, occurrences t (issuesOrEmpty (Some v))
                   <= occurrences (blueprintValidatorRouter state)
                        (issuesOrEmpty (Some v))).
Proof.
  split.
  - intros first Hfirst. rewrite filter_head_find in Hfirst.
    unfold blueprintValidatorRouter. rewrite Hv, Hfailed.
    destruct (filter isError (issuesOrEmpty (Some v))) as [| e r];
      [discriminate |].
    simpl in Hfirst. now injection Hfirst as ->.
  - intros Hne Hwarn. apply router_vote; try assumption.
    now apply no_error_among_warnings.
Qed.

(** An error that comes second in the list is still the one that decides;
    and two warnings for step 4 outvote one for step 3. *)
Lemma router_picks_target_witness :
  blueprintValidatorRouter Examples.errorAfterWarning = "architectStep3"
  /\ blueprintValidatorRouter Examples.warningsOnly = "architectStep4"
  /\ (forall t,
        occurrences t [ Examples.warn architectStep3;
                        Examples.warn architectStep4;
                        Examples.warn architectStep4 ]
        <= occurrences (blueprintValidatorRouter Examples.warningsOnly)
             [ Examples.warn architectStep3; Examples.warn architectStep4;
               Examples.warn architectStep4 ]).
Proof.
  split; [| split].
  - apply (proj1 (router_picks_target Examples.errorAfterWarning _
                    eq_refl eq_refl) (Examples.err architectStep3)).
    reflexivity.
  - reflexivity.
  - apply (proj2 (router_picks_target Examples.warningsOnly _
                    eq_refl eq_refl)).
    + discriminate.
    + repeat constructor.
Defined.

(** C10: a validation result that did not pass but carries no issue, the
    list being empty or missing, sends the run to ["__end__"]. *)
Theorem router_ends_without_issues (state : State) (v : Validation)
    (Hv : blueprintValidation state = Some v)
    (Hfailed : isValid v = false)
    (Hnone : issues v = None \/ issues v = Some []) :
  blueprintValidatorRouter state = "__end__".
Proof.
  unfold blueprintValidatorRouter, issuesOrEmpty.
  rewrite Hv, Hfailed. now destruct Hnone as [-> | ->].
Qed.

(** The default of [blueprintValidation], and a record without [issues]. *)
Lemma router_ends_without_issues_witness :
  blueprintValidatorRouter Examples.defaultValidation = "__end__"
  /\ blueprintValidatorRouter
       {| blueprint := None;
          blueprintValidation :=
            Some {| isValid := false; issues := None;
                    validationCycles := None |} |} = "__end__".
Proof.
  split.
  - apply (router_ends_without_issues Examples.defaultValidation
             {| isValid := false; issues := Some [];
                validationCycles := Some 0%Z |});
      [reflexivity | reflexivity | now right].
  - apply (router_ends_without_issues _
             {| isValid := false; issues := None;
                validationCycles := None |});
      [reflexivity | reflexivity | now left].
Defined.

(** The same without any validation record in the state. *)
Lemma router_ends_without_validation (state : State) :
  blueprintValidation state = None ->
  blueprintValidatorRouter state = "__end__".
Proof.
  intro H. unfold blueprintValidatorRouter. now rewrite H.
Qed.

(** And a result that passed always ends, whatever its issues. *)
Lemma router_ends_when_valid (state : State) (v : Validation) :
  blueprintValidation state = Some v -> isValid v = true ->
  blueprintValidatorRouter state = "__end__".
Proof.
  intros Hv H. unfold blueprintValidatorRouter. now rewrite Hv, H.
Qed.

(** On a tie the target met first wins: the sort is stable and the counters
    are listed in the order of their creation. *)
Example router_tie_first_met :
  blueprintValidatorRouter
    {| blueprint := None;
       blueprintValidation :=
         Some {| isValid := false;
                 issues := Some [ Examples.warn architectStep4;
                                  Examples.warn architectStep3 ];
                 validationCycles := Some 1%Z |} |} = "architectStep4".
Proof.
  reflexivity.
Qed.

End ValidatorFacts.

(* ================================================================== *)
(** ** Properties of the Gemini wrapper *)

Module GeminiFacts.
Import Gemini.

#[local] Arguments isBudgetError : simpl never.
#[local] Arguments cleanTextOf : simpl never.
#[local] Arguments usageOf : simpl never.
#[local] Arguments rawTextOf : simpl never.

Section Loop.

Variable Json : Type.
Variable JSON_parse : string -> Thrown + Json.
Variable client : Client.
Variable fullPrompt modelName : string.

Let req := requestOf fullPrompt modelName.
Let loop := attempts Json JSON_parse client fullPrompt modelName.

(** One iteration, case by case. *)

Lemma attempt_returns rest attempt lastError response parsed :
  generateContent client (attempt - 1) req = inr response ->
  JSON_parse (cleanTextOf (rawTextOf response)) = inr parsed ->
  loop (S rest) attempt lastError
  = (Returned {| parsed := parsed; raw := rawTextOf response;
                 tokens := usageOf fullPrompt response |},
     [Delegated attempt req]).
Proof.
  intros Hcall Hparse. subst loop req. simpl. now rewrite Hcall, Hparse.
Qed.

Lemma attempt_parse_retry rest attempt lastError response parseError :
  generateContent client (attempt - 1) req = inr response ->
  JSON_parse (cleanTextOf (rawTextOf response)) = inl parseError ->
  attempt <> MAX_RETRIES ->
  loop (S rest) attempt lastError
  = (fst (loop rest (attempt + 1) parseError),
     Delegated attempt req :: snd (loop rest (attempt + 1) parseError)).
Proof.
  intros Hcall Hparse Hne. subst loop req. simpl. rewrite Hcall, Hparse.
  apply Nat.eqb_neq in Hne. rewrite Hne.
  now destruct (attempts _ _ _ _ _ rest (attempt + 1) parseError).
Qed.

Lemma attempt_parse_gives_up rest lastError response parseError :
  generateContent client (MAX_RETRIES - 1) req = inr response ->
  JSON_parse (cleanTextOf (rawTextOf response)) = inl parseError ->
  loop (S rest) MAX_RETRIES lastError
  = (Threw (Error (Some "JSON_PARSE_FAILED after 3 attempts.")),
     [Delegated MAX_RETRIES req]).
Proof.
  intros Hcall Hparse. subst loop req. simpl in *. now rewrite Hcall, Hparse.
Qed.

Lemma attempt_budget_error rest attempt lastError e :
  generateContent client (attempt - 1) req = inl e ->
  isBudgetError e = true ->
  loop (S rest) attempt lastError = (Threw e, [Delegated attempt req]).
Proof.
  intros Hcall Hbudget. subst loop req. simpl. rewrite Hcall.
  destruct e as [m | c b |]; [| reflexivity | discriminate].
  now rewrite Hbudget.
Qed.

Lemma attempt_channel_retry rest attempt lastError m :
  generateContent client (attempt - 1) req = inl (Error m) ->
  isBudgetError (Error m) = false ->
  attempt <> MAX_RETRIES ->
  loop (S rest) attempt lastError
  = (fst (loop rest (attempt + 1) (Error m)),
     Delegated attempt req :: Slept (2 ^ Z.of_nat attempt * 1000)%Z
       :: snd (loop rest (attempt + 1) (Error m))).
Proof.
  intros Hcall Hbudget Hne. subst loop req. simpl. rewrite Hcall, Hbudget.
  apply Nat.eqb_neq in Hne. rewrite Hne.
  now destruct (attempts _ _ _ _ _ rest (attempt + 1) (Error m)).
Qed.

Lemma attempt_channel_gives_up rest lastError m :
  generateContent client (MAX_RETRIES - 1) req = inl (Error m) ->
  isBudgetError (Error m) = false ->
  loop (S rest) MAX_RETRIES lastError
  = (Threw (Error m), [Delegated MAX_RETRIES req]).
Proof.
  intros Hcall Hbudget. subst loop req. simpl in *.
  now rewrite Hcall, Hbudget.
Qed.

(** A return of the loop comes from the response of the last call made, and
    every call before that one failed. *)
Lemma loop_returned remaining : forall attempt lastError r events,
  1 <= attempt ->
  loop remaining attempt lastError = (Returned r, events) ->
  exists j response,
    j < remaining
    /\ delegatedCalls events = S j
    /\ generateContent client (attempt - 1 + j) req = inr response
    /\ JSON_parse (cleanTextOf (rawTextOf response)) = inr (parsed r)
    /\ raw r = rawTextOf response
    /\ tokens r = usageOf fullPrompt response
    /\ forall i, i < j -> attemptFailed JSON_parse client req (attempt - 1 + i).
Proof.
  induction remaining as [| rest IH]; intros attempt lastError r events Hge H.
  - discriminate.
  - subst loop req. simpl in H.
    assert (Hstep : forall o after error,
      attemptFailed JSON_parse client (requestOf fullPrompt modelName)
        (attempt - 1) ->
      attempts Json JSON_parse client fullPrompt modelName rest (attempt + 1)
        error = (o, after) ->
      o = Returned r ->
      Delegated attempt (requestOf fullPrompt modelName) :: after = events
      \/ Delegated attempt (requestOf fullPrompt modelName)
           :: Slept (2 ^ Z.of_nat attempt * 1000)%Z :: after = events ->
      exists j response,
        j < S rest
        /\ delegatedCalls events = S j
        /\ generateContent client (attempt - 1 + j)
             (requestOf fullPrompt modelName) = inr response
        /\ JSON_parse (cleanTextOf (rawTextOf response)) = inr (parsed r)
        /\ raw r = rawTextOf response
        /\ tokens r = usageOf fullPrompt response
        /\ forall i, i < j ->
             attemptFailed JSON_parse client (requestOf fullPrompt modelName)
               (attempt - 1 + i)).
    { intros o after error Hfailed Hrec -> Hevents.
      apply IH in Hrec; [| lia].
      destruct Hrec as (j & response & Hj & Hcalls & Hresp & Hp & Hraw & Htok
                        & Hbefore).
      replace (attempt + 1 - 1 + j) with (attempt - 1 + S j) in Hresp by lia.
      exists (S j), response. repeat split; try assumption; try lia.
      - unfold delegatedCalls in *.
        destruct Hevents as [<- | <-]; simpl; now rewrite Hcalls.
      - intros [| i] Hi; [now rewrite Nat.add_0_r |].
        replace (attempt - 1 + S i) with (attempt + 1 - 1 + i) by lia.
        apply Hbefore. lia. }
    destruct (generateContent client (attempt - 1) _) as [e | response] eqn:Hcall.
    + assert (Hfailed : attemptFailed JSON_parse client
                          (requestOf fullPrompt modelName) (attempt - 1))
        by (unfold attemptFailed; now rewrite Hcall).
      destruct e as [m | c b |]; try discriminate.
      destruct (isBudgetError (Error m)); [discriminate |].
      destruct (Nat.eqb attempt MAX_RETRIES); [discriminate |].
      destruct (attempts _ _ _ _ _ rest (attempt + 1) (Error m))
        as [o after] eqn:Hrec.
      injection H as Ho Hev.
      apply (Hstep o after (Error m) Hfailed Hrec Ho). now right.
    + destruct (JSON_parse _) as [parseError | parsedDoc] eqn:Hparse.
      * assert (Hfailed : attemptFailed JSON_parse client
                            (requestOf fullPrompt modelName) (attempt - 1))
          by (unfold attemptFailed; now rewrite Hcall, Hparse).
        destruct (Nat.eqb attempt MAX_RETRIES); [discriminate |].
        destruct (attempts _ _ _ _ _ rest (attempt + 1) parseError)
          as [o after] eqn:Hrec.
        injection H as Ho Hev.
        apply (Hstep o after parseError Hfailed Hrec Ho). now left.
      * injection H as <- <-.
        exists 0, response. rewrite Nat.add_0_r.
        repeat split; try assumption; try lia.
Qed.

End Loop.

Lemma budget_reached (args : Args) :
  (tokenBudgetOf args <= currentCostOf args)%Q <->
  Qle_bool (tokenBudgetOf args) (currentCostOf args) = true.
Proof.
  symmetry. apply Qle_bool_iff.
Qed.

Lemma budget_left (args : Args) :
  (currentCostOf args < tokenBudgetOf args)%Q ->
  Qle_bool (tokenBudgetOf args) (currentCostOf args) = false.
Proof.
  intro H. destruct (Qle_bool _ _) eqn:E; [| reflexivity].
  apply Qle_bool_iff in E. exfalso. now apply (Qlt_not_le _ _ H).
Qed.

(** C1, as the code has it: with an initialised client and
    [currentCost >= tokenBudget], [callGemini] fails with the budget-exceeded
    error before any delegated call; without a client it fails with the
    error of [getClient]; either way no delegated call is issued; and inside
    the retry loop an error that carries [TOKEN_BUDGET_EXCEEDED] ends the
    loop at once, without a wait or a further attempt. *)
Theorem budget_guard {Json : Type} (JSON_parse : string -> Thrown + Json)
    (client : Client) (GEMINI_MODEL : option string) (args : Args)
    (Hbudget : (tokenBudgetOf args <= currentCostOf args)%Q) :
  callGemini JSON_parse (Some client) GEMINI_MODEL args
  = (Threw (TokenBudgetExceeded (currentCostOf args) (tokenBudgetOf args)), [])
  /\ callGemini JSON_parse None GEMINI_MODEL args
     = (Threw (Error (Some "Gemini not initialized. Call initGemini(apiKey) first.")),
        [])
  /\ (forall aiClient,
        delegatedCalls (snd (callGemini JSON_parse aiClient GEMINI_MODEL args))
        = 0)
  /\ (forall fullPrompt modelName rest attempt lastError e,
        generateContent client (attempt - 1) (requestOf fullPrompt modelName)
        = inl e ->
        isBudgetError e = true ->
        attempts Json JSON_parse client fullPrompt modelName (S rest) attempt
          lastError
        = (Threw e, [Delegated attempt (requestOf fullPrompt modelName)])).
Proof.
  apply budget_reached in Hbudget. split; [| split; [| split]].
  - unfold callGemini. simpl. now rewrite Hbudget.
  - reflexivity.
  - intros [c |]; unfold callGemini; simpl; [now rewrite Hbudget | reflexivity].
  - intros. now apply attempt_budget_error.
Qed.

(** C1 fails as stated when [initGemini] has not run: [getClient] raises
    first, and the failure is not the budget-exceeded one. *)
Lemma budget_guard_after_getClient :
  (tokenBudgetOf (Examples.args 2 2) <= currentCostOf (Examples.args 2 2))%Q
  /\ callGemini Examples.parseDoc None None (Examples.args 2 2)
     = (Threw (Error (Some "Gemini not initialized. Call initGemini(apiKey) first.")),
        [])
  /\ fst (callGemini Examples.parseDoc None None (Examples.args 2 2))
     <> Threw (TokenBudgetExceeded 2 2).
Proof.
  split; [| split].
  - apply Qle_refl.
  - reflexivity.
  - discriminate.
Qed.

(** Cost 2.00 against a ceiling of 2.00; and a service that refuses with a
    budget message on the first attempt. *)
Lemma budget_guard_witness :
  callGemini Examples.parseDoc (Some (Examples.steady Examples.good)) None
    (Examples.args 2 2)
  = (Threw (TokenBudgetExceeded 2 2), [])
  /\ delegatedCalls
       (snd (callGemini Examples.parseDoc None None (Examples.args 2 2))) = 0
  /\ attempts Examples.Doc Examples.parseDoc Examples.refusing "p" "m" 3 1 Null
     = (Threw (Error (Some "TOKEN_BUDGET_EXCEEDED: quota")),
        [Delegated 1 (requestOf "p" "m")]).
Proof.
  assert (H : (tokenBudgetOf (Examples.args 2 2)
               <= currentCostOf (Examples.args 2 2))%Q) by apply Qle_refl.
  split; [| split].
  - apply (proj1 (budget_guard Examples.parseDoc
                    (Examples.steady Examples.good) None _ H)).
  - apply (proj1 (proj2 (proj2 (budget_guard Examples.parseDoc
                                  (Examples.steady Examples.good) None _ H)))).
  - apply (proj2 (proj2 (proj2 (budget_guard Examples.parseDoc
                                  Examples.refusing None _ H))));
      reflexivity.
Defined.

(** The scenario of the specification: 1.80 against 2.00 passes the check
    and the call is made. *)
Example budget_left_calls :
  callGemini Examples.parseDoc (Some (Examples.steady Examples.good)) None
    (Examples.args (180 # 100) 2)
  = (Returned {| parsed := Examples.EmptyObject; raw := "{}";
                 tokens := {| input := 120; output := 8;
                              cost := costOf 120 8 |} |},
     [Delegated 1 (requestFor None (Examples.args (180 # 100) 2))]).
Proof.
  reflexivity.
Qed.

(** C5: an invocation that returns made its last delegated call
    successfully after nothing but failed ones, and the usage delta built
    from its result is one delta with one call record.  Its input count is
    the [promptTokenCount] the response of that last call reports, or, when
    that is missing or zero, a quarter of the length of the prompt rounded
    up; its output count is the [candidatesTokenCount] of that response or a
    quarter of the length of its raw text rounded up; [addedInput] and
    [addedOutput] are these two counts and [addedCost] is their price, 0.15
    and 0.60 per million (the value of the expression of the code, which the
    program evaluates in doubles).  No earlier attempt enters the delta,
    however many there were. *)
Theorem one_delta_from_last_attempt {Json : Type}
    (JSON_parse : string -> Thrown + Json) (aiClient : option Client)
    (GEMINI_MODEL : option string) (args : Args) (now : Z) (name : string)
    (r : CallResult Json) (events : list Event)
    (Hreturned : callGemini JSON_parse aiClient GEMINI_MODEL args
                 = (Returned r, events)) :
  exists client k response inTokens outTokens,
    aiClient = Some client
    /\ k < MAX_RETRIES
    /\ delegatedCalls events = S k
    /\ generateContent client k (requestFor GEMINI_MODEL args) = inr response
    /\ (forall i, i < k ->
          attemptFailed JSON_parse client (requestFor GEMINI_MODEL args) i)
    /\ raw r = match text response with
               | Some (String c s) => String c s
               | _ => ""
               end
    /\ inTokens
       = match usageMetadata response with
         | Some {| promptTokenCount := Some (Npos p) |} => Npos p
         | _ =>
             ((N.of_nat
                 (String.length (contents (requestFor GEMINI_MODEL args)))
               + 3) / 4)%N
         end
    /\ outTokens
       = match usageMetadata response with
         | Some {| candidatesTokenCount := Some (Npos p) |} => Npos p
         | _ => ((N.of_nat (String.length (raw r)) + 3) / 4)%N
         end
    /\ makeTokenDelta now name (tokens r)
       = {| newCalls := [ {| agent := name;
                             inputTokens := inTokens;
                             outputTokens := outTokens;
                             timestamp := now |} ];
            addedInput := inTokens;
            addedOutput := outTokens;
            addedCost :=
              (inject_Z (Z.of_N inTokens) / 1000000 * (15 # 100)
               + inject_Z (Z.of_N outTokens) / 1000000 * (60 # 100))%Q |}.
Proof.
  unfold callGemini, getClient in Hreturned.
  destruct aiClient as [client |]; [| discriminate].
  cbv zeta in Hreturned.
  destruct (Qle_bool _ _); [discriminate |].
  apply loop_returned in Hreturned; [| lia].
  destruct Hreturned as (j & response & Hj & Hcalls & Hresp & _ & Hraw & Htok
                         & Hbefore).
  exists client, j, response, (input (tokens r)), (output (tokens r)).
  repeat (split; [first [assumption | reflexivity] |]).
  assert (Hraw' : raw r = match text response with
                          | Some (String c s) => String c s
                          | _ => ""
                          end).
  { rewrite Hraw. unfold rawTextOf, orString.
    now destruct (text response) as [[| c s] |]. }
  split; [exact Hraw' |].
  rewrite Htok, Hraw. unfold usageOf, orCount, ceilQuarter.
  cbn [input output cost].
  split; [| split; [| reflexivity]].
  - destruct (usageMetadata response) as [[[[| p] |] c] |]; reflexivity.
  - destruct (usageMetadata response) as [[q [[| p] |]] |]; reflexivity.
Qed.

(** Two garbled answers, then a good one: the delta carries the 120 and 8
    tokens the third response reports, nothing of the first two. *)
Lemma one_delta_from_last_attempt_witness :
  exists client k response inTokens outTokens,
    Some Examples.thirdTimeLucky = Some client
    /\ k < MAX_RETRIES
    /\ delegatedCalls Examples.luckyEvents = S k
    /\ generateContent client k (requestFor None (Examples.args 0 2))
       = inr response
    /\ (forall i, i < k ->
          attemptFailed Examples.parseDoc client
            (requestFor None (Examples.args 0 2)) i)
    /\ raw Examples.luckyResult
       = match text response with
         | Some (String c s) => String c s
         | _ => ""
         end
    /\ inTokens
       = match usageMetadata response with
         | Some {| promptTokenCount := Some (Npos p) |} => Npos p
         | _ =>
             ((N.of_nat
                 (String.length
                    (contents (requestFor None (Examples.args 0 2))))
               + 3) / 4)%N
         end
    /\ outTokens
       = match usageMetadata response with
         | Some {| candidatesTokenCount := Some (Npos p) |} => Npos p
         | _ =>
             ((N.of_nat (String.length (raw Examples.luckyResult)) + 3) / 4)%N
         end
    /\ makeTokenDelta 1700000000000 "plannerAgent"
         (tokens Examples.luckyResult)
       = {| newCalls := [ {| agent := "plannerAgent";
                             inputTokens := inTokens;
                             outputTokens := outTokens;
                             timestamp := 1700000000000 |} ];
            addedInput := inTokens;
            addedOutput := outTokens;
            addedCost :=
              (inject_Z (Z.of_N inTokens) / 1000000 * (15 # 100)
               + inject_Z (Z.of_N outTokens) / 1000000 * (60 # 100))%Q |}.
Proof.
  apply (one_delta_from_last_attempt Examples.parseDoc
           (Some Examples.thirdTimeLucky) None (Examples.args 0 2)
           1700000000000 "plannerAgent" Examples.luckyResult
           Examples.luckyEvents).
  reflexivity.
Defined.

(** C6: when the output of every one of the three attempts fails to parse,
    [callGemini] fails with the [JSON_PARSE_FAILED] error after three
    delegated calls, and no usage delta comes out of the invocation. *)
Theorem parse_failures_are_terminal {Json : Type}
    (JSON_parse : string -> Thrown + Json) (client : Client)
    (GEMINI_MODEL : option string) (args : Args) (now : Z) (name : string)
    (Hbudget : (currentCostOf args < tokenBudgetOf args)%Q)
    (Hgarbled : forall k, k < MAX_RETRIES ->
       exists response parseError,
         generateContent client k (requestFor GEMINI_MODEL args) = inr response
         /\ JSON_parse (cleanTextOf (rawTextOf response)) = inl parseError) :
  callGemini JSON_parse (Some client) GEMINI_MODEL args
  = (Threw (Error (Some "JSON_PARSE_FAILED after 3 attempts.")),
     [ Delegated 1 (requestFor GEMINI_MODEL args);
       Delegated 2 (requestFor GEMINI_MODEL args);
       Delegated 3 (requestFor GEMINI_MODEL args) ])
  /\ usageDeltas now name
       (fst (callGemini JSON_parse (Some client) GEMINI_MODEL args)) = [].
Proof.
  assert (E : callGemini JSON_parse (Some client) GEMINI_MODEL args
              = (Threw (Error (Some "JSON_PARSE_FAILED after 3 attempts.")),
                 [ Delegated 1 (requestFor GEMINI_MODEL args);
                   Delegated 2 (requestFor GEMINI_MODEL args);
                   Delegated 3 (requestFor GEMINI_MODEL args) ])).
  { unfold callGemini, getClient. cbv zeta.
    rewrite (budget_left args Hbudget).
    destruct (Hgarbled 0) as (r0 & e0 & Hc0 & Hp0); [unfold MAX_RETRIES; lia |].
    destruct (Hgarbled 1) as (r1 & e1 & Hc1 & Hp1); [unfold MAX_RETRIES; lia |].
    destruct (Hgarbled 2) as (r2 & e2 & Hc2 & Hp2); [unfold MAX_RETRIES; lia |].
    unfold requestFor in *.
    unfold MAX_RETRIES at 1.
    rewrite (attempt_parse_retry _ _ _ _ _ 2 1 Null r0 e0 Hc0 Hp0)
      by (unfold MAX_RETRIES; lia).
    rewrite (attempt_parse_retry _ _ _ _ _ 1 (1 + 1) e0 r1 e1 Hc1 Hp1)
      by (unfold MAX_RETRIES; lia).
    change (1 + 1 + 1) with MAX_RETRIES.
    now rewrite (attempt_parse_gives_up _ _ _ _ _ 0 e1 r2 e2 Hc2 Hp2). }
  split; [exact E | now rewrite E].
Qed.

(** The service answers three times with text that is no JSON. *)
Lemma parse_failures_are_terminal_witness :
  callGemini Examples.parseDoc (Some (Examples.steady Examples.garbled)) None
    (Examples.args 0 2)
  = (Threw (Error (Some "JSON_PARSE_FAILED after 3 attempts.")),
     [ Delegated 1 (requestFor None (Examples.args 0 2));
       Delegated 2 (requestFor None (Examples.args 0 2));
       Delegated 3 (requestFor None (Examples.args 0 2)) ])
  /\ usageDeltas 1700000000000 "plannerAgent"
       (fst (callGemini Examples.parseDoc
               (Some (Examples.steady Examples.garbled)) None
               (Examples.args 0 2))) = [].
Proof.
  apply (parse_failures_are_terminal Examples.parseDoc
           (Examples.steady Examples.garbled) None (Examples.args 0 2)).
  - reflexivity.
  - intros k _. exists Examples.garbled, (Error (Some "Unexpected token")).
    split; reflexivity.
Defined.

(** The other terminal failure: when the channel itself fails three times,
    what comes out is the channel's last error, after waits of 2 and 4
    seconds, and not [JSON_PARSE_FAILED]. *)
Lemma channel_failures_are_terminal {Json : Type}
    (JSON_parse : string -> Thrown + Json) (client : Client)
    (GEMINI_MODEL : option string) (args : Args) (m0 m1 m2 : option string) :
  (currentCostOf args < tokenBudgetOf args)%Q ->
  generateContent client 0 (requestFor GEMINI_MODEL args) = inl (Error m0) ->
  generateContent client 1 (requestFor GEMINI_MODEL args) = inl (Error m1) ->
  generateContent client 2 (requestFor GEMINI_MODEL args) = inl (Error m2) ->
  isBudgetError (Error m0) = false -> isBudgetError (Error m1) = false ->
  isBudgetError (Error m2) = false ->
  callGemini JSON_parse (Some client) GEMINI_MODEL args
  = (Threw (Error m2),
     [ Delegated 1 (requestFor GEMINI_MODEL args); Slept 2000;
       Delegated 2 (requestFor GEMINI_MODEL args); Slept 4000;
       Delegated 3 (requestFor GEMINI_MODEL args) ]).
Proof.
  intros Hbudget H0 H1 H2 B0 B1 B2.
  unfold callGemini, getClient. cbv zeta.
  rewrite (budget_left args Hbudget).
  unfold requestFor in *. unfold MAX_RETRIES at 1.
  rewrite (attempt_channel_retry _ _ _ _ _ 2 1 Null m0 H0 B0)
    by (unfold MAX_RETRIES; lia).
  rewrite (attempt_channel_retry _ _ _ _ _ 1 (1 + 1) (Error m0) m1 H1 B1)
    by (unfold MAX_RETRIES; lia).
  change (1 + 1 + 1) with MAX_RETRIES.
  now rewrite (attempt_channel_gives_up _ _ _ _ _ 0 (Error m1) m2 H2 B2).
Qed.

End GeminiFacts.

(* ================================================================== *)
(** ** Properties of the accumulating reducers *)

Module AccumulateFacts.
Import StateStore Accumulate.

(** *** pmConversation and userFeedback *)

(** X1: a conversation only grows: after any sequence of updates it is the
    conversation that was there followed by every entry handed over, in the
    order of the updates; a falsy update adds nothing. *)
Theorem append_reducer_keeps_log {E : Type} (existing : list E)
    (updates : list (Appended E)) :
  applyUpdates appendReducer existing updates = existing ++ appended updates.
Proof.
  revert existing. induction updates as [| u updates IH]; intro existing.
  - simpl. now rewrite app_nil_r.
  - change (applyUpdates appendReducer (appendReducer existing u) updates
            = existing ++ appended (u :: updates)).
    rewrite IH. destruct u as [| l | e]; simpl.
    + reflexivity.
    + now rewrite app_assoc.
    + now rewrite <- app_assoc.
Qed.

(** *** blueprint and projectPatterns *)

Lemma valueAt_sets {V : Type} p (pairs : list (string * V)) (m : JsMap V) :
  valueAt p (fold_left (fun m kv => mapSet (fst kv) (snd kv) m) pairs m)
  = match lastWritten p pairs with
    | Some v => Some v
    | None => valueAt p m
    end.
Proof.
  revert m. induction pairs as [| [k v] pairs IH]; intro m; [reflexivity |].
  simpl fold_left. rewrite IH. unfold lastWritten, valueAt. simpl List.rev.
  rewrite StateStoreFacts.find_snoc.
  destruct (find _ (List.rev pairs)); [reflexivity |].
  fold (valueAt p (mapSet k v m)). rewrite StateStoreFacts.valueAt_mapSet.
  simpl. now destruct (String.eqb k p).
Qed.

Lemma NoDup_keys_sets {V : Type} (pairs : list (string * V)) (m : JsMap V) :
  NoDup (keys m) ->
  NoDup (keys (fold_left (fun m kv => mapSet (fst kv) (snd kv) m) pairs m)).
Proof.
  revert m. induction pairs as [| [k v] pairs IH]; intros m H; [assumption |].
  apply IH. now apply StateStoreFacts.NoDup_keys_mapSet.
Qed.

Lemma valueAt_absent {V : Type} p (m : JsMap V) :
  ~ In p (keys m) -> valueAt p m = None.
Proof.
  unfold valueAt. induction m as [| [k v] m IH]; simpl; intro H; [reflexivity |].
  destruct (String.eqb k p) eqn:E.
  - apply String.eqb_eq in E. tauto.
  - apply IH. tauto.
Qed.

Lemma valueAt_snoc {V : Type} p k (v : V) (l : JsMap V) :
  valueAt p (l ++ [(k, v)])
  = match valueAt p l with
    | Some x => Some x
    | None => if String.eqb k p then Some v else None
    end.
Proof.
  unfold valueAt. rewrite StateStoreFacts.find_snoc. simpl.
  destruct (find _ l); [reflexivity |]. now destruct (String.eqb k p).
Qed.

Lemma valueAt_cons {V : Type} p k (v : V) (m : JsMap V) :
  valueAt p ((k, v) :: m) = if String.eqb k p then Some v else valueAt p m.
Proof.
  unfold valueAt. simpl. now destruct (String.eqb k p).
Qed.

(** In an object the first and the last property of a key are the same. *)
Lemma lastWritten_object {V : Type} p (m : JsMap V) :
  NoDup (keys m) -> lastWritten p m = valueAt p m.
Proof.
  unfold lastWritten.
  induction m as [| [k v] m IH]; intro H; [reflexivity |].
  inversion H as [| ? ? Hnot Hrest]; subst.
  simpl List.rev. rewrite valueAt_snoc, valueAt_cons, (IH Hrest).
  destruct (String.eqb k p) eqn:E.
  - apply String.eqb_eq in E. subst k.
    now rewrite (valueAt_absent p m Hnot).
  - now destruct (valueAt p m).
Qed.

Lemma find_append {X : Type} (f : X -> bool) (l1 l2 : list X) :
  find f (l1 ++ l2)
  = match find f l1 with Some x => Some x | None => find f l2 end.
Proof.
  induction l1 as [| a l1 IH]; simpl; [reflexivity |]. now destruct (f a).
Qed.

Lemma lastWritten_app {V : Type} p (l1 l2 : list (string * V)) :
  lastWritten p (l1 ++ l2)
  = match lastWritten p l2 with
    | Some v => Some v
    | None => lastWritten p l1
    end.
Proof.
  unfold lastWritten, valueAt. rewrite rev_app_distr, find_append.
  now destruct (find _ (List.rev l2)).
Qed.

Lemma valueAt_spread {V : Type} p (a b : JsObject V) :
  NoDup (keys a) ->
  valueAt p (spread a b)
  = match lastWritten p b with
    | Some v => Some v
    | None => valueAt p a
    end.
Proof.
  intro H. unfold spread, mapOf. rewrite valueAt_sets, lastWritten_app.
  destruct (lastWritten p b); [reflexivity |].
  rewrite (lastWritten_object p a H). now destruct (valueAt p a).
Qed.

Lemma NoDup_keys_spread {V : Type} (a b : JsObject V) :
  NoDup (keys (spread a b)).
Proof.
  apply NoDup_keys_sets. constructor.
Qed.

(** X2: after any sequence of partial updates merged into an object, every
    key holds the value most recently written under it, and a key no update
    wrote keeps the value it had: each architect step adds to the blueprint
    without disturbing what the others wrote. *)
Theorem merge_reducer_latest_per_key {V : Type} (existing : JsObject V)
    (updates : list (option (JsObject V))) (k : string)
    (Hobject : NoDup (keys existing)) :
  valueAt k (applyUpdates mergeReducer existing updates)
  = match lastWritten k (written updates) with
    | Some v => Some v
    | None => valueAt k existing
    end.
Proof.
  revert existing Hobject.
  induction updates as [| u updates IH]; intros existing Hobject.
  - reflexivity.
  - change (valueAt k (applyUpdates mergeReducer (mergeReducer existing u)
                         updates)
            = match lastWritten k (written (u :: updates)) with
              | Some v => Some v
              | None => valueAt k existing
              end).
    destruct u as [o |]; simpl.
    + rewrite IH by apply NoDup_keys_spread.
      rewrite lastWritten_app.
      destruct (lastWritten k (written updates)); [reflexivity |].
      now apply valueAt_spread.
    + now apply IH.
Qed.

(** A second visit of step 2 replaces the schema and leaves the entities. *)
Lemma merge_reducer_latest_per_key_witness :
  valueAt "dbSchema"
    (applyUpdates mergeReducer MoreExamples.blueprintObject
       [Some MoreExamples.secondSchema; None])
  = match lastWritten "dbSchema"
            (written [Some MoreExamples.secondSchema; None]) with
    | Some v => Some v
    | None => valueAt "dbSchema" MoreExamples.blueprintObject
    end
  /\ valueAt "dbSchema"
       (applyUpdates mergeReducer MoreExamples.blueprintObject
          [Some MoreExamples.secondSchema; None]) = Some "v2"
  /\ valueAt "entities"
       (applyUpdates mergeReducer MoreExamples.blueprintObject
          [Some MoreExamples.secondSchema; None]) = Some "[User]".
Proof.
  split; [| split; reflexivity].
  apply (merge_reducer_latest_per_key MoreExamples.blueprintObject
           [Some MoreExamples.secondSchema; None] "dbSchema").
  repeat constructor; simpl; intuition discriminate.
Defined.

End AccumulateFacts.

(* ================================================================== *)
(** ** Properties of the usage ledger *)

Module LedgerFacts.
Import Gemini Ledger.

Lemma sumInput_snoc cs c :
  sumInput (cs ++ [c]) = (sumInput cs + inputTokens c)%N.
Proof.
  induction cs as [| x cs IH]; simpl; [lia |]. rewrite IH. lia.
Qed.

Lemma sumOutput_snoc cs c :
  sumOutput (cs ++ [c]) = (sumOutput cs + outputTokens c)%N.
Proof.
  induction cs as [| x cs IH]; simpl; [lia |]. rewrite IH. lia.
Qed.

Lemma consistent_default : consistent tokenUsage_default.
Proof.
  repeat split.
Qed.

Lemma consistent_step (u : TokenUsage) (d : TokenDelta) :
  consistent u -> fromCall d -> consistent (tokenUsage_reducer u (Some d)).
Proof.
  intros (Hin & Hout) (now & name & t & ->).
  unfold consistent. simpl. rewrite sumInput_snoc, sumOutput_snoc. simpl.
  rewrite <- Hin, <- Hout. now split.
Qed.

(** X3: the token totals of the ledger stay consistent: when every delta
    folded into it is [makeTokenDelta] of a call's tokens, [totalInput] and
    [totalOutput] remain the sums of the input and output tokens over the
    call records of the ledger, and the ledger holds one more call record
    per delta; an update without a delta changes nothing. *)
Theorem ledger_stays_consistent (ledger : TokenUsage)
    (updates : list (option TokenDelta))
    (Hledger : consistent ledger)
    (Hdeltas : Forall fromCall (deltas updates)) :
  consistent (StateStore.applyUpdates tokenUsage_reducer ledger updates)
  /\ List.length
       (calls (StateStore.applyUpdates tokenUsage_reducer ledger updates))
     = List.length (calls ledger) + List.length (deltas updates).
Proof.
  revert ledger Hledger.
  induction updates as [| u updates IH]; intros ledger Hledger.
  - simpl. split; [assumption | lia].
  - change (StateStore.applyUpdates tokenUsage_reducer ledger (u :: updates))
      with (StateStore.applyUpdates tokenUsage_reducer
              (tokenUsage_reducer ledger u) updates).
    destruct u as [d |].
    + change (deltas (Some d :: updates)) with (d :: deltas updates) in *.
      inversion Hdeltas as [| ? ? Hd Hrest]; subst.
      destruct (IH Hrest (tokenUsage_reducer ledger (Some d))) as [Hc Hl].
      { now apply consistent_step. }
      split; [assumption |]. rewrite Hl.
      destruct Hd as (now & name & t & ->). simpl.
      rewrite length_app. simpl. lia.
    + change (deltas (None :: updates)) with (deltas updates) in *.
      now apply IH.
Qed.

(** Two calls and an update without [tokenUsage] on the empty ledger. *)
Lemma ledger_stays_consistent_witness :
  consistent
    (StateStore.applyUpdates tokenUsage_reducer tokenUsage_default
       [ Some (makeTokenDelta 1 "pmAgent" (usageOf "p" Examples.good));
         None;
         Some (makeTokenDelta 2 "plannerAgent" (usageOf "q" Examples.garbled)) ])
  /\ List.length
       (calls (StateStore.applyUpdates tokenUsage_reducer tokenUsage_default
          [ Some (makeTokenDelta 1 "pmAgent" (usageOf "p" Examples.good));
            None;
            Some (makeTokenDelta 2 "plannerAgent"
                    (usageOf "q" Examples.garbled)) ]))
     = List.length (calls tokenUsage_default)
       + List.length
           (deltas
              [ Some (makeTokenDelta 1 "pmAgent" (usageOf "p" Examples.good));
                None;
                Some (makeTokenDelta 2 "plannerAgent"
                        (usageOf "q" Examples.garbled)) ]).
Proof.
  apply (ledger_stays_consistent tokenUsage_default).
  - apply consistent_default.
  - repeat constructor.
    + now exists 1%Z, "pmAgent", (usageOf "p" Examples.good).
    + now exists 2%Z, "plannerAgent", (usageOf "q" Examples.garbled).
Defined.

End LedgerFacts.

(* ================================================================== *)
(** ** More properties of the Gemini wrapper *)

Module GeminiMore.
Import Gemini Ledger.

#[local] Arguments isBudgetError : simpl never.
#[local] Arguments cleanTextOf : simpl never.
#[local] Arguments usageOf : simpl never.
#[local] Arguments rawTextOf : simpl never.

Section LoopShape.

Variable Json : Type.
Variable JSON_parse : string -> Thrown + Json.
Variable client : Client.
Variable fullPrompt modelName : string.

Let req := requestOf fullPrompt modelName.
Let loop := attempts Json JSON_parse client fullPrompt modelName.

(** One iteration either stops after its call, or goes on to the next
    attempt, at once after a parse failure and after a wait otherwise. *)
Lemma loop_step rest attempt lastError :
  (snd (loop (S rest) attempt lastError) = [Delegated attempt req]
   /\ ((exists r, fst (loop (S rest) attempt lastError) = Returned r)
       \/ exists e,
            fst (loop (S rest) attempt lastError) = Threw e
            /\ e <> Null
            /\ (generateContent client (attempt - 1) req = inl e
                \/ e = parseFailed \/ e = nullDereferenced)))
  \/ (attempt <> MAX_RETRIES
      /\ exists e',
           loop (S rest) attempt lastError
           = (fst (loop rest (attempt + 1) e'),
              Delegated attempt req :: snd (loop rest (attempt + 1) e')))
  \/ (attempt <> MAX_RETRIES
      /\ exists e',
           generateContent client (attempt - 1) req = inl e'
           /\ loop (S rest) attempt lastError
              = (fst (loop rest (attempt + 1) e'),
                 Delegated attempt req
                   :: Slept (2 ^ Z.of_nat attempt * 1000)%Z
                   :: snd (loop rest (attempt + 1) e'))).
Proof.
  subst loop req. simpl.
  destruct (generateContent client (attempt - 1) _) as [e | response] eqn:Hcall.
  - destruct e as [m | c b |].
    + destruct (isBudgetError (Error m)).
      * left. split; [reflexivity |]. right. exists (Error m).
        repeat split; [discriminate | now left].
      * destruct (Nat.eqb_spec attempt MAX_RETRIES) as [Heq | Hne].
        -- left. split; [reflexivity |]. right. exists (Error m).
           repeat split; [discriminate | now left].
        -- right. right. split; [assumption |]. exists (Error m).
           split; [reflexivity |].
           now destruct (attempts _ _ _ _ _ rest (attempt + 1) (Error m)).
    + left. split; [reflexivity |]. right. exists (TokenBudgetExceeded c b).
      repeat split; [discriminate | now left].
    + left. split; [reflexivity |]. right. exists nullDereferenced.
      repeat split; [discriminate | now right; right].
  - destruct (JSON_parse _) as [parseError | parsedDoc].
    + destruct (Nat.eqb_spec attempt MAX_RETRIES) as [Heq | Hne].
      * left. split; [reflexivity |]. right. exists parseFailed.
        repeat split; [discriminate | now right; left].
      * right. left. split; [assumption |]. exists parseError.
        now destruct (attempts _ _ _ _ _ rest (attempt + 1) parseError).
    + left. split; [reflexivity |]. left. now eexists.
Qed.

(** The calls of the loop: no more than it has iterations left, numbered
    from the current attempt on, all with the same request. *)
Lemma loop_calls remaining : forall attempt lastError,
  delegatedCalls (snd (loop remaining attempt lastError)) <= remaining
  /\ attemptNumbers (snd (loop remaining attempt lastError))
     = seq attempt (delegatedCalls (snd (loop remaining attempt lastError)))
  /\ Forall (eq req) (requestsSent (snd (loop remaining attempt lastError))).
Proof.
  induction remaining as [| rest IH]; intros attempt lastError.
  - subst loop. simpl. repeat split; constructor.
  - destruct (loop_step rest attempt lastError)
      as [[Hev _] | [(_ & e' & Hrec) | (_ & e' & _ & Hrec)]].
    + rewrite Hev. unfold delegatedCalls. simpl.
      repeat split; [lia | repeat constructor].
    + rewrite Hrec. destruct (IH (attempt + 1) e') as (Hle & Hnum & Hreq).
      cbn [snd]. unfold delegatedCalls in *. simpl. repeat split.
      * lia.
      * rewrite Hnum. now rewrite Nat.add_1_r.
      * now constructor.
    + rewrite Hrec. destruct (IH (attempt + 1) e') as (Hle & Hnum & Hreq).
      cbn [snd]. unfold delegatedCalls in *. simpl. repeat split.
      * lia.
      * rewrite Hnum. now rewrite Nat.add_1_r.
      * now constructor.
Qed.

Lemma loop_calls_first rest attempt lastError :
  1 <= delegatedCalls (snd (loop (S rest) attempt lastError)).
Proof.
  destruct (loop_step rest attempt lastError)
    as [[Hev _] | [(_ & e' & Hrec) | (_ & e' & _ & Hrec)]];
    [rewrite Hev | rewrite Hrec | rewrite Hrec];
    unfold delegatedCalls; simpl; lia.
Qed.

Lemma waitBound_nonneg remaining : forall attempt,
  (0 <= waitBound remaining attempt)%Z.
Proof.
  induction remaining as [| rest IH]; intro attempt; simpl; [lia |].
  specialize (IH (attempt + 1)).
  destruct (Nat.eqb attempt MAX_RETRIES); [lia |].
  assert (0 <= 2 ^ Z.of_nat attempt)%Z by (apply Z.pow_nonneg; lia). lia.
Qed.

(** The waits of the loop. *)
Lemma loop_waits remaining : forall attempt lastError,
  (0 <= totalWait (snd (loop remaining attempt lastError))
   <= waitBound remaining attempt)%Z.
Proof.
  induction remaining as [| rest IH]; intros attempt lastError.
  - subst loop. simpl. lia.
  - pose proof (waitBound_nonneg rest (attempt + 1)) as Hb.
    assert (Hp : (0 <= 2 ^ Z.of_nat attempt)%Z) by (apply Z.pow_nonneg; lia).
    destruct (loop_step rest attempt lastError)
      as [[Hev _] | [(Hne & e' & Hrec) | (Hne & e' & _ & Hrec)]].
    + rewrite Hev. simpl. destruct (Nat.eqb attempt MAX_RETRIES); lia.
    + rewrite Hrec. specialize (IH (attempt + 1) e'). simpl.
      destruct (Nat.eqb attempt MAX_RETRIES); lia.
    + rewrite Hrec. specialize (IH (attempt + 1) e'). simpl.
      apply Nat.eqb_neq in Hne. rewrite Hne. lia.
Qed.

Lemma lastEvent_cons e (l : list Event) :
  l <> [] -> lastEvent (e :: l) = lastEvent l.
Proof.
  unfold lastEvent. simpl. intro H.
  destruct (List.rev l) as [| x r] eqn:E; [| reflexivity].
  exfalso. apply H. rewrite <- (rev_involutive l), E. reflexivity.
Qed.

Lemma loop_events_nonempty rest attempt lastError :
  snd (loop (S rest) attempt lastError) <> [].
Proof.
  destruct (loop_step rest attempt lastError)
    as [[Hev _] | [(_ & e' & Hrec) | (_ & e' & _ & Hrec)]];
    [rewrite Hev | rewrite Hrec | rewrite Hrec]; discriminate.
Qed.

(** The loop never ends on a wait. *)
Lemma loop_last remaining : forall attempt lastError ms,
  attempt + remaining = MAX_RETRIES + 1 ->
  lastEvent (snd (loop remaining attempt lastError)) <> Some (Slept ms).
Proof.
  induction remaining as [| rest IH]; intros attempt lastError ms Hsum.
  - subst loop. discriminate.
  - destruct (loop_step rest attempt lastError)
      as [[Hev _] | [(Hne & e' & Hrec) | (Hne & e' & _ & Hrec)]].
    + rewrite Hev. discriminate.
    + rewrite Hrec. cbn [snd].
      destruct rest as [| rest']; [lia |].
      rewrite lastEvent_cons by apply loop_events_nonempty.
      apply IH. lia.
    + rewrite Hrec. cbn [snd].
      destruct rest as [| rest']; [lia |].
      rewrite lastEvent_cons by discriminate.
      rewrite lastEvent_cons by apply loop_events_nonempty.
      apply IH. lia.
Qed.

(** Where an error thrown by the loop comes from. *)
Lemma loop_threw remaining : forall attempt lastError e,
  1 <= attempt -> attempt + remaining = MAX_RETRIES + 1 -> 1 <= remaining ->
  fst (loop remaining attempt lastError) = Threw e ->
  e <> Null
  /\ ((exists k, k < MAX_RETRIES /\ generateContent client k req = inl e)
      \/ e = parseFailed \/ e = nullDereferenced).
Proof.
  induction remaining as [| rest IH];
    intros attempt lastError e Hge Hsum Hrem H; [lia |].
  destruct (loop_step rest attempt lastError)
    as [[_ [(r & Hr) | (e0 & He & Hnull & Horigin)]]
       | [(Hne & e' & Hrec) | (Hne & e' & _ & Hrec)]].
  - rewrite Hr in H. discriminate.
  - rewrite He in H. injection H as <-. split; [assumption |].
    destruct Horigin as [Hcall | Hmade]; [| now right].
    left. exists (attempt - 1). split; [lia | assumption].
  - rewrite Hrec in H. cbn [fst] in H. apply IH in H; [assumption | lia..].
  - rewrite Hrec in H. cbn [fst] in H. apply IH in H; [assumption | lia..].
Qed.

End LoopShape.

(** [callGemini] with a client and budget left is the loop. *)
Lemma callGemini_loop {Json : Type} (JSON_parse : string -> Thrown + Json)
    (client : Client) (GEMINI_MODEL : option string) (args : Args) :
  Qle_bool (tokenBudgetOf args) (currentCostOf args) = false ->
  callGemini JSON_parse (Some client) GEMINI_MODEL args
  = attempts Json JSON_parse client
      (fullPromptOf (systemPrompt args) (userPrompt args))
      (modelNameOf GEMINI_MODEL args) MAX_RETRIES 1 Null.
Proof.
  intro H. unfold callGemini, getClient. cbv zeta. now rewrite H.
Qed.

(** The three ways [callGemini] can go. *)
Lemma callGemini_cases {Json : Type} (JSON_parse : string -> Thrown + Json)
    (aiClient : option Client) (GEMINI_MODEL : option string) (args : Args) :
  (aiClient = None
   /\ callGemini JSON_parse aiClient GEMINI_MODEL args
      = (Threw notInitialized, []))
  \/ (exists client, aiClient = Some client
      /\ Qle_bool (tokenBudgetOf args) (currentCostOf args) = true
      /\ callGemini JSON_parse aiClient GEMINI_MODEL args
         = (Threw (TokenBudgetExceeded (currentCostOf args)
                     (tokenBudgetOf args)), []))
  \/ (exists client, aiClient = Some client
      /\ Qle_bool (tokenBudgetOf args) (currentCostOf args) = false
      /\ callGemini JSON_parse aiClient GEMINI_MODEL args
         = attempts Json JSON_parse client
             (fullPromptOf (systemPrompt args) (userPrompt args))
             (modelNameOf GEMINI_MODEL args) MAX_RETRIES 1 Null).
Proof.
  destruct aiClient as [client |]; [| now left].
  right. destruct (Qle_bool (tokenBudgetOf args) (currentCostOf args)) eqn:E.
  - left. exists client. repeat split.
    unfold callGemini, getClient. cbv zeta. now rewrite E.
  - right. exists client. repeat split. now apply callGemini_loop.
Qed.

(** X4: whatever the service does, one invocation issues at most
    [MAX_RETRIES] = 3 delegated calls; they are the attempts 1, 2, ... in
    order, and every one of them sends the same request. *)
Theorem retries_are_bounded {Json : Type}
    (JSON_parse : string -> Thrown + Json) (aiClient : option Client)
    (GEMINI_MODEL : option string) (args : Args) :
  delegatedCalls (snd (callGemini JSON_parse aiClient GEMINI_MODEL args))
  <= MAX_RETRIES
  /\ attemptNumbers (snd (callGemini JSON_parse aiClient GEMINI_MODEL args))
     = seq 1 (delegatedCalls
                (snd (callGemini JSON_parse aiClient GEMINI_MODEL args)))
  /\ Forall (eq (requestFor GEMINI_MODEL args))
       (requestsSent (snd (callGemini JSON_parse aiClient GEMINI_MODEL args))).
Proof.
  destruct (callGemini_cases JSON_parse aiClient GEMINI_MODEL args)
    as [[_ E] | [(c & _ & _ & E) | (c & _ & _ & E)]]; rewrite E.
  - unfold delegatedCalls. simpl. repeat split; [lia | constructor].
  - unfold delegatedCalls. simpl. repeat split; [lia | constructor].
  - apply loop_calls.
Qed.

(** The waits of an invocation that reaches the loop: none, the one after
    attempt 1, the one after attempt 2, or both. *)
Lemma callGemini_schedule {Json : Type}
    (JSON_parse : string -> Thrown + Json) (client : Client)
    (fullPrompt modelName : string) :
  exists ks,
    (ks = [] \/ ks = [1] \/ ks = [2] \/ ks = [1; 2])
    /\ waitsAfter 0
         (snd (attempts Json JSON_parse client fullPrompt modelName
                 MAX_RETRIES 1 Null))
       = map (fun k => (k, (2 ^ Z.of_nat k * 1000)%Z)) ks
    /\ forall k, In k ks ->
         exists e,
           generateContent client (k - 1) (requestOf fullPrompt modelName)
           = inl e.
Proof.
  pose proof (loop_step Json JSON_parse client fullPrompt modelName) as Hstep.
  destruct (Hstep 0 (1 + 1 + 1) Null) as [[H3 _] | [(Hne & _) | (Hne & _)]];
    try (exfalso; apply Hne; reflexivity).
  assert (Hthird : forall e,
    snd (attempts Json JSON_parse client fullPrompt modelName 1 (1 + 1 + 1) e)
    = [Delegated (1 + 1 + 1) (requestOf fullPrompt modelName)]).
  { intro e.
    destruct (Hstep 0 (1 + 1 + 1) e) as [[H _] | [(Hn & _) | (Hn & _)]];
      [exact H | exfalso; apply Hn; reflexivity
       | exfalso; apply Hn; reflexivity]. }
  clear H3.
  unfold MAX_RETRIES at 1.
  destruct (Hstep 2 1 Null)
    as [[E1 _] | [(_ & e1 & E1) | (_ & e1 & Hcall1 & E1)]]; rewrite E1;
    cbn [snd].
  - exists []. split; [now left |]. split; [reflexivity | contradiction].
  - destruct (Hstep 1 (1 + 1) e1)
      as [[E2 _] | [(_ & e2 & E2) | (_ & e2 & Hcall2 & E2)]]; rewrite E2;
      cbn [snd]; rewrite ?Hthird.
    + exists []. split; [now left |]. split; [reflexivity | contradiction].
    + exists []. split; [now left |]. split; [reflexivity | contradiction].
    + exists [2]. split; [now right; right; left |].
      split; [reflexivity |].
      intros k [<- | []]. now exists e2.
  - destruct (Hstep 1 (1 + 1) e1)
      as [[E2 _] | [(_ & e2 & E2) | (_ & e2 & Hcall2 & E2)]]; rewrite E2;
      cbn [snd]; rewrite ?Hthird.
    + exists [1]. split; [now right; left |]. split; [reflexivity |].
      intros k [<- | []]. now exists e1.
    + exists [1]. split; [now right; left |]. split; [reflexivity |].
      intros k [<- | []]. now exists e1.
    + exists [1; 2]. split; [now right; right; right |].
      split; [reflexivity |].
      intros k [<- | [<- | []]]; [now exists e1 | now exists e2].
Qed.

(** X5: the waits of one invocation follow a fixed schedule.  A wait comes
    only after a delegated call that raised, never after a parse failure and
    never after attempt 3; the wait after attempt 1 lasts 2000 ms, the one
    after attempt 2 lasts 4000 ms, and each occurs at most once, in this
    order.  So one invocation waits 6000 ms at most, all waits together, and
    its last act is never a wait. *)
Theorem backoff_is_bounded {Json : Type}
    (JSON_parse : string -> Thrown + Json) (aiClient : option Client)
    (GEMINI_MODEL : option string) (args : Args) :
  (exists ks,
     (ks = [] \/ ks = [1] \/ ks = [2] \/ ks = [1; 2])
     /\ waitsAfter 0
          (snd (callGemini JSON_parse aiClient GEMINI_MODEL args))
        = map (fun k => (k, (2 ^ Z.of_nat k * 1000)%Z)) ks
     /\ forall k, In k ks ->
          exists client e,
            aiClient = Some client
            /\ generateContent client (k - 1) (requestFor GEMINI_MODEL args)
               = inl e)
  /\ (0 <= totalWait (snd (callGemini JSON_parse aiClient GEMINI_MODEL args))
      <= 6000)%Z
  /\ forall ms,
       lastEvent (snd (callGemini JSON_parse aiClient GEMINI_MODEL args))
       <> Some (Slept ms).
Proof.
  destruct (callGemini_cases JSON_parse aiClient GEMINI_MODEL args)
    as [[_ E] | [(c & _ & _ & E) | (c & Hc & _ & E)]]; rewrite E.
  - simpl. split; [| split; [lia | discriminate]].
    exists []. split; [now left |]. split; [reflexivity | contradiction].
  - simpl. split; [| split; [lia | discriminate]].
    exists []. split; [now left |]. split; [reflexivity | contradiction].
  - split; [| split].
    + destruct (callGemini_schedule JSON_parse c
                  (fullPromptOf (systemPrompt args) (userPrompt args))
                  (modelNameOf GEMINI_MODEL args)) as (ks & Hks & Hw & Hfail).
      exists ks. split; [assumption |]. split; [assumption |].
      intros k Hk. destruct (Hfail k Hk) as [e He]. now exists c, e.
    + change 6000%Z with (waitBound MAX_RETRIES 1). apply loop_waits.
    + intro ms. apply loop_last. reflexivity.
Qed.

(** X6: no delegated call is issued exactly when there is no client or the
    budget is reached; in every other case the service is called at least
    once. *)
Theorem no_call_iff_guarded {Json : Type}
    (JSON_parse : string -> Thrown + Json) (aiClient : option Client)
    (GEMINI_MODEL : option string) (args : Args) :
  delegatedCalls (snd (callGemini JSON_parse aiClient GEMINI_MODEL args)) = 0
  <-> aiClient = None \/ (tokenBudgetOf args <= currentCostOf args)%Q.
Proof.
  destruct (callGemini_cases JSON_parse aiClient GEMINI_MODEL args)
    as [[Hnone E] | [(c & Hc & Hb & E) | (c & Hc & Hb & E)]]; rewrite E.
  - split; [now left | reflexivity].
  - split; [| reflexivity]. intros _. right. now apply Qle_bool_iff.
  - pose proof (loop_calls_first Json JSON_parse c
                  (fullPromptOf (systemPrompt args) (userPrompt args))
                  (modelNameOf GEMINI_MODEL args) 2 1 Null) as H.
    change (S 2) with MAX_RETRIES in H. split.
    + lia.
    + intros [Hnone | Hle]; [congruence |].
      apply Qle_bool_iff in Hle. congruence.
Qed.

(** X11: every error [callGemini] throws is one of five: the one of
    [getClient], the budget error of the guard, an error the service raised
    on one of the three calls, [JSON_PARSE_FAILED], or the [TypeError] of the
    [catch] block when the service threw [null].  It is never [null]: the
    [throw lastError] after the loop is not reached. *)
Theorem thrown_errors_are_known {Json : Type}
    (JSON_parse : string -> Thrown + Json) (aiClient : option Client)
    (GEMINI_MODEL : option string) (args : Args) (e : Thrown)
    (Hthrew : fst (callGemini JSON_parse aiClient GEMINI_MODEL args)
              = Threw e) :
  e <> Null
  /\ (e = notInitialized
      \/ e = TokenBudgetExceeded (currentCostOf args) (tokenBudgetOf args)
      \/ (exists client k,
            aiClient = Some client /\ k < MAX_RETRIES
            /\ generateContent client k (requestFor GEMINI_MODEL args) = inl e)
      \/ e = parseFailed
      \/ e = nullDereferenced).
Proof.
  destruct (callGemini_cases JSON_parse aiClient GEMINI_MODEL args)
    as [[_ E] | [(c & Hc & _ & E) | (c & Hc & _ & E)]];
    rewrite E in Hthrew.
  - injection Hthrew as <-. split; [discriminate | now left].
  - injection Hthrew as <-. split; [discriminate | now right; left].
  - apply loop_threw in Hthrew; try (unfold MAX_RETRIES; lia).
    destruct Hthrew as [Hnull [(k & Hk & Hcall) | [Hp | Hn]]];
      (split; [assumption |]).
    + right; right; left. now exists c, k.
    + now right; right; right; left.
    + now right; right; right; right.
Qed.

(** The channel is down: the error that comes out is the channel's. *)
Lemma thrown_errors_are_known_witness :
  Error (Some "fetch failed") <> Null
  /\ (Error (Some "fetch failed") = notInitialized
      \/ Error (Some "fetch failed")
         = TokenBudgetExceeded (currentCostOf (Examples.args 0 2))
             (tokenBudgetOf (Examples.args 0 2))
      \/ (exists client k,
            Some MoreExamples.offline = Some client /\ k < MAX_RETRIES
            /\ generateContent client k (requestFor None (Examples.args 0 2))
               = inl (Error (Some "fetch failed")))
      \/ Error (Some "fetch failed") = parseFailed
      \/ Error (Some "fetch failed") = nullDereferenced).
Proof.
  apply (thrown_errors_are_known Examples.parseDoc (Some MoreExamples.offline)
           None (Examples.args 0 2)).
  reflexivity.
Defined.

End GeminiMore.

(* ================================================================== *)
(** ** The cost of a call, the budget, and fenced output *)

Module GeminiCost.
Import Gemini Ledger.

#[local] Arguments isBudgetError : simpl never.
#[local] Arguments cleanTextOf : simpl never.

Lemma length_append (s t : string) :
  String.length (s ++ t) = String.length s + String.length t.
Proof.
  induction s as [| c s IH]; simpl; [reflexivity | now rewrite IH].
Qed.

Lemma fullPrompt_not_empty systemPrompt userPrompt :
  1 <= String.length (fullPromptOf systemPrompt userPrompt).
Proof.
  unfold fullPromptOf. rewrite !length_append. simpl. lia.
Qed.

Lemma orCount_positive (measured : option N) (estimate : N) :
  (1 <= estimate)%N -> (1 <= orCount measured estimate)%N.
Proof.
  intro H. unfold orCount. destruct measured as [n |]; [| assumption].
  destruct (N.eqb_spec n 0); [assumption | lia].
Qed.

Lemma ceilQuarter_positive (s : string) :
  1 <= String.length s -> (1 <= ceilQuarter s)%N.
Proof.
  intro H. unfold ceilQuarter.
  apply N.div_le_lower_bound; lia.
Qed.

Lemma costOf_positive (i o : N) : (1 <= i)%N -> (0 < costOf i o)%Q.
Proof.
  intro H. unfold costOf.
  apply Qlt_le_trans
    with (y := (inject_Z (Z.of_N i) / 1000000 * (15 # 100))%Q).
  - apply Qmult_lt_0_compat; [| reflexivity].
    apply Qmult_lt_0_compat; [| reflexivity].
    unfold Qlt. simpl. lia.
  - rewrite <- Qplus_0_r at 1. apply Qplus_le_r.
    apply Qmult_le_0_compat; [| discriminate].
    apply Qmult_le_0_compat; [| discriminate].
    unfold Qle. simpl. lia.
Qed.

Lemma usageOf_positive systemPrompt userPrompt response :
  (1 <= input (usageOf (fullPromptOf systemPrompt userPrompt) response))%N
  /\ (0 < cost (usageOf (fullPromptOf systemPrompt userPrompt) response))%Q.
Proof.
  assert (H : (1 <= input (usageOf (fullPromptOf systemPrompt userPrompt)
                              response))%N).
  { unfold usageOf. simpl. apply orCount_positive, ceilQuarter_positive.
    apply fullPrompt_not_empty. }
  split; [assumption |]. unfold usageOf in *. simpl in *.
  now apply costOf_positive.
Qed.

Lemma returned_tokens_positive {Json : Type}
    (JSON_parse : string -> Thrown + Json) (aiClient : option Client)
    (GEMINI_MODEL : option string) (args : Args)
    (r : CallResult Json) (events : list Event) :
  callGemini JSON_parse aiClient GEMINI_MODEL args = (Returned r, events) ->
  (1 <= input (tokens r))%N /\ (0 < cost (tokens r))%Q.
Proof.
  intro Hreturned. unfold callGemini, getClient in Hreturned.
  destruct aiClient as [client |]; [| discriminate].
  cbv zeta in Hreturned.
  destruct (Qle_bool _ _); [discriminate |].
  apply GeminiFacts.loop_returned in Hreturned; [| lia].
  destruct Hreturned as (j & response & _ & _ & _ & _ & _ & Htok & _).
  rewrite Htok. apply usageOf_positive.
Qed.

(** X7: a call that returns always reports at least one input token and a
    cost above zero, whether the service reports its usage or not: every
    successful call moves the run towards its budget. *)
Theorem returned_call_costs {Json : Type}
    (JSON_parse : string -> Thrown + Json) (aiClient : option Client)
    (GEMINI_MODEL : option string) (args : Args)
    (r : CallResult Json) (events : list Event)
    (Hreturned : callGemini JSON_parse aiClient GEMINI_MODEL args
                 = (Returned r, events)) :
  (1 <= input (tokens r))%N /\ (0 < cost (tokens r))%Q.
Proof.
  exact (returned_tokens_positive JSON_parse aiClient GEMINI_MODEL args r
           events Hreturned).
Qed.

(** A response without usage metadata: the estimate is charged. *)
Lemma returned_call_costs_witness :
  (1 <= input (tokens
     (mkCallResult Examples.EmptyObject "{}"
        (usageOf (contents (requestFor None (Examples.args 0 2)))
           (mkResponse (Some "{}") None)))))%N
  /\ (0 < cost (tokens
     (mkCallResult Examples.EmptyObject "{}"
        (usageOf (contents (requestFor None (Examples.args 0 2)))
           (mkResponse (Some "{}") None)))))%Q.
Proof.
  apply (returned_call_costs Examples.parseDoc
           (Some (Examples.steady (mkResponse (Some "{}") None))) None
           (Examples.args 0 2) _
           [Delegated 1 (requestFor None (Examples.args 0 2))]).
  reflexivity.
Defined.

(** *** The ledger across a node *)

Lemma orZero_eq (x : Q) : (orZero x == x)%Q.
Proof.
  unfold orZero. destruct (Qeq_bool x 0) eqn:E; [| reflexivity].
  apply Qeq_bool_iff in E. now symmetry.
Qed.

(** X9: once the ledger has reached the budget, a node's call leaves the
    ledger as it is and issues no delegated call. *)
Theorem spent_budget_freezes_ledger {Json : Type}
    (JSON_parse : string -> Thrown + Json) (aiClient : option Client)
    (GEMINI_MODEL : option string) (now : Z)
    (name systemPrompt userPrompt : string)
    (ledger : TokenUsage) (tokenBudget : option Q)
    (Hspent : (StateStore.nullish tokenBudget 2 <= estimatedCost ledger)%Q) :
  ledgerAfterNode JSON_parse aiClient GEMINI_MODEL now name systemPrompt
    userPrompt ledger tokenBudget = (ledger, []).
Proof.
  unfold ledgerAfterNode, callGemini, getClient.
  destruct aiClient as [client |]; [| reflexivity].
  cbv zeta.
  assert (E : Qle_bool
                (tokenBudgetOf
                   (nodeArgs name systemPrompt userPrompt (Some ledger)
                      tokenBudget))
                (currentCostOf
                   (nodeArgs name systemPrompt userPrompt (Some ledger)
                      tokenBudget)) = true).
  { apply Qle_bool_iff. unfold tokenBudgetOf, currentCostOf, nodeArgs. simpl.
    now rewrite orZero_eq. }
  now rewrite E.
Qed.

(** A ledger at 2.00 under a budget of 2.00. *)
Lemma spent_budget_freezes_ledger_witness :
  ledgerAfterNode Examples.parseDoc (Some (Examples.steady Examples.good))
    None 1700000000000 "plannerAgent" "You are the Planner Agent."
    "App: todo"
    {| calls := []; totalInput := 0; totalOutput := 0; estimatedCost := 2 |}
    (Some 2%Q)
  = ({| calls := []; totalInput := 0; totalOutput := 0; estimatedCost := 2 |},
     []).
Proof.
  apply (spent_budget_freezes_ledger Examples.parseDoc
           (Some (Examples.steady Examples.good)) None 1700000000000
           "plannerAgent" "You are the Planner Agent." "App: todo"
           {| calls := []; totalInput := 0; totalOutput := 0;
              estimatedCost := 2 |} (Some 2%Q)).
  apply Qle_refl.
Defined.

End GeminiCost.

(* ================================================================== *)
(** ** Fenced output *)

Module FenceFacts.
Import JsString Gemini Ledger.

Lemma append_assoc (a b c : string) : ((a ++ b) ++ c = a ++ (b ++ c))%string.
Proof.
  induction a as [| x a IH]; simpl; [reflexivity | now rewrite IH].
Qed.

Lemma append_nil_r (a : string) : (a ++ "" = a)%string.
Proof.
  induction a as [| x a IH]; simpl; [reflexivity | now rewrite IH].
Qed.

Lemma rev_append (a b : string) : rev (a ++ b) = (rev b ++ rev a)%string.
Proof.
  induction a as [| x a IH]; simpl.
  - now rewrite append_nil_r.
  - now rewrite IH, append_assoc.
Qed.

Lemma rev_rev (a : string) : rev (rev a) = a.
Proof.
  induction a as [| x a IH]; simpl; [reflexivity |].
  now rewrite rev_append, IH.
Qed.

Lemma list_of_append (a b : string) :
  list_ascii_of_string (a ++ b)
  = list_ascii_of_string a ++ list_ascii_of_string b.
Proof.
  induction a as [| x a IH]; simpl; [reflexivity | now rewrite IH].
Qed.

Lemma allWhite_rev (a : string) : allWhite a -> allWhite (rev a).
Proof.
  unfold allWhite. induction a as [| x a IH]; simpl; intro H; [constructor |].
  inversion H as [| ? ? Hx Ha]; subst.
  rewrite list_of_append. apply Forall_app. split; [now apply IH |].
  simpl. now repeat constructor.
Qed.

Lemma trimStart_white (pre t : string) :
  allWhite pre -> trimStart (pre ++ t) = trimStart t.
Proof.
  unfold allWhite. induction pre as [| x pre IH]; simpl; intro H;
    [reflexivity |].
  inversion H as [| ? ? Hx Hpre]; subst. rewrite Hx. now apply IH.
Qed.

Lemma substring_all (t : string) : substring 0 (String.length t) t = t.
Proof.
  induction t as [| x t IH]; simpl; [reflexivity | now rewrite IH].
Qed.

Lemma substring_prefix (a b : string) :
  substring 0 (String.length a) (a ++ b) = a.
Proof.
  induction a as [| x a IH]; simpl.
  - now destruct b.
  - now rewrite IH.
Qed.

Lemma drop_append (p t : string) : drop (String.length p) (p ++ t) = t.
Proof.
  unfold drop. rewrite GeminiCost.length_append.
  replace (String.length p + String.length t - String.length p)
    with (String.length t) by lia.
  induction p as [| x p IH]; simpl; [apply substring_all | assumption].
Qed.

Lemma dropLast_append (a b : string) :
  dropLast (String.length b) (a ++ b) = a.
Proof.
  unfold dropLast. rewrite GeminiCost.length_append.
  replace (String.length a + String.length b - String.length b)
    with (String.length a) by lia.
  apply substring_prefix.
Qed.

Lemma prefix_append (p t : string) : String.prefix p (p ++ t) = true.
Proof.
  induction p as [| x p IH]; simpl.
  - now destruct t.
  - destruct (ascii_dec x x); [assumption | congruence].
Qed.

Lemma endsWith_append (a b : string) : endsWith (a ++ b) b = true.
Proof.
  unfold endsWith. rewrite rev_append. apply prefix_append.
Qed.

(** The trimmed text is the fenced block when white space is all there is
    around it. *)
Lemma trim_fenced (pre body post : string) :
  allWhite pre -> allWhite post ->
  trim (pre ++ fence ++ body ++ fence ++ post)
  = (fence ++ body ++ fence)%string.
Proof.
  intros Hpre Hpost. unfold trim.
  rewrite (trimStart_white pre) by assumption.
  change (trimStart (fence ++ body ++ fence ++ post))
    with (fence ++ body ++ fence ++ post)%string.
  replace (fence ++ body ++ fence ++ post)%string
    with ((fence ++ body ++ fence) ++ post)%string
    by now rewrite !append_assoc.
  rewrite rev_append, (trimStart_white (rev post))
    by now apply allWhite_rev.
  replace (fence ++ body ++ fence)%string
    with ((fence ++ body) ++ fence)%string by now rewrite !append_assoc.
  rewrite rev_append.
  change (trimStart (rev fence ++ rev (fence ++ body)))
    with (rev fence ++ rev (fence ++ body))%string.
  now rewrite <- rev_append, rev_rev.
Qed.

Lemma unwrap (tag inner : string) :
  tag = "json" \/ tag = "" ->
  stripClosingFence (stripOpeningFence
    (fence ++ (tag ++ nl ++ inner ++ nl) ++ fence))
  = inner.
Proof.
  intro Htag. unfold stripOpeningFence. cbv zeta.
  rewrite (drop_append fence ((tag ++ nl ++ inner ++ nl) ++ fence)
           : drop 3 (fence ++ (tag ++ nl ++ inner ++ nl) ++ fence) = _).
  assert (E : (if startsWith ((tag ++ nl ++ inner ++ nl) ++ fence) "json"
               then drop 4 ((tag ++ nl ++ inner ++ nl) ++ fence)
               else (tag ++ nl ++ inner ++ nl) ++ fence)%string
              = (nl ++ (inner ++ nl ++ fence))%string).
  { destruct Htag as [-> | ->].
    - rewrite !append_assoc.
      change (startsWith ("json" ++ nl ++ inner ++ nl ++ fence) "json")
        with true.
      cbv iota.
      exact (drop_append "json" (nl ++ inner ++ nl ++ fence)).
    - simpl. now rewrite append_assoc. }
  rewrite E.
  rewrite (prefix_append nl (inner ++ nl ++ fence)
           : startsWith (nl ++ inner ++ nl ++ fence) nl = true).
  rewrite (drop_append nl (inner ++ nl ++ fence)
           : drop 1 (nl ++ inner ++ nl ++ fence) = _).
  unfold stripClosingFence.
  rewrite (endsWith_append inner (nl ++ fence)
           : endsWith (inner ++ nl ++ fence) (nl ++ fence) = true).
  exact (dropLast_append inner (nl ++ fence)).
Qed.

(** X10: output wrapped in a Markdown fence, with or without the [json] tag,
    each fence on a line of its own and white space at most around the
    block, is handed to [JSON.parse] as the text between the fences,
    character for character. *)
Theorem fenced_output_is_unwrapped (pre inner post tag : string)
    (Hpre : allWhite pre) (Hpost : allWhite post)
    (Htag : tag = "json" \/ tag = "") :
  cleanTextOf (pre ++ fence ++ (tag ++ nl ++ inner ++ nl) ++ fence ++ post)
  = inner.
Proof.
  unfold cleanTextOf.
  rewrite (trim_fenced pre (tag ++ nl ++ inner ++ nl) post) by assumption.
  rewrite (prefix_append fence ((tag ++ nl ++ inner ++ nl) ++ fence)
           : startsWith (fence ++ (tag ++ nl ++ inner ++ nl) ++ fence) fence
             = true).
  now apply unwrap.
Qed.

(** The answer of the service of the examples: the tag, and a line feed
    after the closing fence. *)
Lemma fenced_output_is_unwrapped_witness :
  cleanTextOf ("" ++ fence ++ ("json" ++ nl ++ "{}" ++ nl) ++ fence ++ nl)
  = "{}".
Proof.
  apply (fenced_output_is_unwrapped "" "{}" nl "json").
  - constructor.
  - repeat constructor.
  - now left.
Defined.

End FenceFacts.

(* ================================================================== *)
(** ** More properties of the validator and its router *)

Module ValidatorMore.
Import Validator ValidatorRun.

(** *** What the checks push *)

Lemma made_conforms ty i : made ty i -> conforms i.
Proof.
  now intros [_ H].
Qed.

Lemma made_profile ty i :
  made ty i -> severity i = fst (profile ty) /\ fixTarget i = snd (profile ty).
Proof.
  intros [<- H]. unfold conforms in H. rewrite <- H. now split.
Qed.

Lemma mapM_each {A B : Type} (f : A -> Result B) (P : B -> Prop)
    (l : list A) (bs : list B) :
  (forall a b, In a l -> f a = Normal b -> P b) ->
  mapM f l = Normal bs -> Forall P bs.
Proof.
  revert bs. induction l as [| a l IH]; intros bs Hf H.
  - injection H as <-. constructor.
  - simpl in H. apply ValidatorFacts.bind_Normal in H.
    destruct H as (b & Hb & H).
    apply ValidatorFacts.bind_Normal in H. destruct H as (bs' & Hbs & H).
    injection H as <-. constructor.
    + apply (Hf a); [now left | assumption].
    + apply IH; [| assumption]. intros a' b' Hin. apply Hf. now right.
Qed.

Lemma Forall_concat {X : Type} (P : X -> Prop) (ls : list (list X)) :
  Forall (Forall P) ls -> Forall P (List.concat ls).
Proof.
  induction 1 as [| l ls Hl _ IH]; simpl; [constructor |].
  apply Forall_app. now split.
Qed.

Lemma Forall_flat_map {X Y : Type} (P : Y -> Prop) (f : X -> list Y)
    (l : list X) :
  (forall x, In x l -> Forall P (f x)) -> Forall P (flat_map f l).
Proof.
  induction l as [| x l IH]; simpl; intro H; [constructor |].
  apply Forall_app. split; [apply H; now left |].
  apply IH. intros y Hy. apply H. now right.
Qed.

Ltac one_issue :=
  repeat constructor.

Lemma check1_pushes es d l :
  check1 es d = Normal l -> Forall (made missing_table) l.
Proof.
  unfold check1. destruct es as [ents |]; [| intros [= <-]; constructor].
  destruct (option_map tables d) as [[tbls |] |];
    try (intros [= <-]; constructor).
  intro H.
  apply ValidatorFacts.bind_Normal in H. destruct H as (normalized & _ & H).
  apply ValidatorFacts.bind_Normal in H. destruct H as (exact & _ & H).
  apply ValidatorFacts.bind_Normal in H. destruct H as (found & Hfound & H).
  injection H as <-. apply Forall_concat.
  revert Hfound. apply mapM_each. intros e b _ He.
  apply ValidatorFacts.bind_Normal in He. destruct He as (n & _ & He).
  destruct (negb _); injection He as <-; one_issue.
Qed.

Lemma check2_fk_pushes set table fk :
  Forall (made invalid_foreign_key) (check2_fk set table fk).
Proof.
  unfold check2_fk. destruct (option_map matchReference (references fk))
    as [[captured |] |]; try constructor.
  destruct (negb _); one_issue.
Qed.

Lemma check2_pushes d l : check2 d = Normal l -> Forall (made invalid_foreign_key) l.
Proof.
  unfold check2. destruct (option_map tables d) as [[tbls |] |];
    try (intros [= <-]; constructor).
  intro H. apply ValidatorFacts.bind_Normal in H.
  destruct H as (names & _ & H). injection H as <-.
  apply Forall_flat_map. intros table _.
  destruct (foreignKeys table) as [fks |]; [| constructor].
  apply Forall_flat_map. intros fk _. apply check2_fk_pushes.
Qed.

Lemma check3_pushes eps d l :
  check3 eps d = Normal l -> Forall (made orphan_endpoint) l.
Proof.
  unfold check3. destruct eps as [endpoints |];
    [| intros [= <-]; constructor].
  destruct (option_map tables d) as [[tbls |] |];
    try (intros [= <-]; constructor).
  intro H. apply ValidatorFacts.bind_Normal in H.
  destruct H as (names & _ & H). injection H as <-.
  apply Forall_flat_map. intros endpoint _.
  destruct (relatedTable endpoint) as [[| c name] |]; try constructor.
  destruct (negb _); one_issue.
Qed.

Lemma check4_pushes pages eps : Forall (made missing_api) (check4 pages eps).
Proof.
  unfold check4. destruct pages as [ps |]; [| constructor].
  destruct eps as [endpoints |]; [| constructor].
  apply Forall_flat_map. intros page _.
  destruct (components page) as [comps |]; [| constructor].
  apply Forall_flat_map. intros comp _.
  destruct (apiCalls comp) as [calls |]; [| constructor].
  apply Forall_flat_map. intros call _. unfold check4_call.
  destruct (negb _); one_issue.
Qed.

Lemma check5_pushes eps pages : Forall (made auth_mismatch) (check5 eps pages).
Proof.
  unfold check5. destruct eps as [endpoints |]; [| constructor].
  destruct pages as [ps |]; [| constructor].
  apply Forall_flat_map. intros page _.
  destruct (components page) as [comps |]; [| constructor].
  apply Forall_flat_map. intros comp _.
  destruct (apiCalls comp) as [calls |]; [| constructor].
  destruct (_ && _); one_issue.
Qed.

Lemma check6_pushes d eps l :
  check6 d eps = Normal l -> Forall (made orphan_table) l.
Proof.
  unfold check6. destruct (option_map tables d) as [[tbls |] |];
    try (intros [= <-]; constructor).
  destruct eps as [endpoints |]; [| intros [= <-]; constructor].
  intro H. apply ValidatorFacts.bind_Normal in H.
  destruct H as (found & Hfound & H). injection H as <-.
  apply Forall_concat. revert Hfound. apply mapM_each. intros t b _ Ht.
  apply ValidatorFacts.bind_Normal in Ht. destruct Ht as (n & _ & Ht).
  destruct (_ && _); injection Ht as <-; one_issue.
Qed.

(** The issues of a completed run of the checks, by check. *)
Lemma collectIssues_parts bp found :
  collectIssues bp = Normal found ->
  exists i1 i2 i3 i6,
    check1 (entities bp) (dbSchema bp) = Normal i1
    /\ check2 (dbSchema bp) = Normal i2
    /\ check3 (apiEndpoints bp) (dbSchema bp) = Normal i3
    /\ check6 (dbSchema bp) (apiEndpoints bp) = Normal i6
    /\ found = i1 ++ i2 ++ i3
               ++ check4 (frontendPages bp) (apiEndpoints bp)
               ++ check5 (apiEndpoints bp) (frontendPages bp) ++ i6.
Proof.
  unfold collectIssues. intro H.
  apply ValidatorFacts.bind_Normal in H. destruct H as (i1 & H1 & H).
  apply ValidatorFacts.bind_Normal in H. destruct H as (i2 & H2 & H).
  apply ValidatorFacts.bind_Normal in H. destruct H as (i3 & H3 & H).
  apply ValidatorFacts.bind_Normal in H. destruct H as (i6 & H6 & H).
  injection H as <-. now exists i1, i2, i3, i6.
Qed.

Lemma made_severity ty l :
  Forall (made ty) l -> Forall (fun i => severity i = fst (profile ty)) l.
Proof.
  apply Forall_impl. intros i H. now apply made_profile in H.
Qed.

Lemma all_conform ty l : Forall (made ty) l -> Forall conforms l.
Proof.
  apply Forall_impl. intro i. apply made_conforms.
Qed.

(** X12: in the issue list of the validator every issue carries the
    severity and the fix target of its type, and all the errors come before
    all the warnings. *)
Theorem errors_come_first (bp : Blueprint) (found : list Issue)
    (Hfound : collectIssues bp = Normal found) :
  Forall conforms found
  /\ exists errors warnings,
       found = errors ++ warnings
       /\ Forall (fun i => severity i = error) errors
       /\ Forall (fun i => severity i = warning) warnings.
Proof.
  apply collectIssues_parts in Hfound.
  destruct Hfound as (i1 & i2 & i3 & i6 & H1 & H2 & H3 & H6 & ->).
  apply check1_pushes in H1. apply check2_pushes in H2.
  apply check3_pushes in H3. apply check6_pushes in H6.
  pose proof (check4_pushes (frontendPages bp) (apiEndpoints bp)) as H4.
  pose proof (check5_pushes (apiEndpoints bp) (frontendPages bp)) as H5.
  split.
  - repeat (apply Forall_app; split); eauto using all_conform.
  - exists (i1 ++ i2 ++ i3),
      (check4 (frontendPages bp) (apiEndpoints bp)
       ++ check5 (apiEndpoints bp) (frontendPages bp) ++ i6).
    split; [now rewrite <- !app_assoc |].
    split; repeat (apply Forall_app; split);
      match goal with
      | H : Forall (made ?ty) ?l |- Forall _ ?l =>
          exact (made_severity ty l H)
      end.
Qed.

(** Test 1 of the repository: one error for the entity without a table,
    then the warnings for the tables no endpoint uses. *)
Lemma errors_come_first_witness :
  Forall conforms
    [ {| type := missing_table; severity := error;
         fixTarget := architectStep2;
         message := "Entity " ++ dq ++ "Comment" ++ dq
                    ++ " has no matching DB table. Tables: [users, tasks]" |};
      {| type := orphan_table; severity := warning;
         fixTarget := architectStep3;
         message := "Table " ++ dq ++ "users" ++ dq
                    ++ " exists but no API endpoint references it. Either add endpoints or remove the table." |};
      {| type := orphan_table; severity := warning;
         fixTarget := architectStep3;
         message := "Table " ++ dq ++ "tasks" ++ dq
                    ++ " exists but no API endpoint references it. Either add endpoints or remove the table." |} ]
  /\ exists errors warnings,
       [ {| type := missing_table; severity := error;
            fixTarget := architectStep2;
            message := "Entity " ++ dq ++ "Comment" ++ dq
                       ++ " has no matching DB table. Tables: [users, tasks]" |};
         {| type := orphan_table; severity := warning;
            fixTarget := architectStep3;
            message := "Table " ++ dq ++ "users" ++ dq
                       ++ " exists but no API endpoint references it. Either add endpoints or remove the table." |};
         {| type := orphan_table; severity := warning;
            fixTarget := architectStep3;
            message := "Table " ++ dq ++ "tasks" ++ dq
                       ++ " exists but no API endpoint references it. Either add endpoints or remove the table." |} ]
       = errors ++ warnings
       /\ Forall (fun i => severity i = error) errors
       /\ Forall (fun i => severity i = warning) warnings.
Proof.
  apply (errors_come_first MoreExamples.commentBlueprint).
  reflexivity.
Defined.

(** *** The node and the router together *)

Lemma afterValidator_validation state update :
  blueprintValidation (afterValidator state update)
  = Some (upd_blueprintValidation update).
Proof.
  reflexivity.
Qed.

Lemma nodeName_not_end (t : FixTarget) : nodeName t <> "__end__".
Proof.
  destruct t; discriminate.
Qed.

(** On a result that did not pass and has issues the router names the fix
    target of one of them. *)
Lemma router_names_target (state : State) (v : Validation) :
  blueprintValidation state = Some v -> isValid v = false ->
  issuesOrEmpty (Some v) <> [] ->
  exists i, In i (issuesOrEmpty (Some v))
            /\ blueprintValidatorRouter state = nodeName (fixTarget i).
Proof.
  intros Hv Hvalid Hne.
  destruct (filter isError (issuesOrEmpty (Some v))) as [| e r] eqn:E.
  - now apply (ValidatorFacts.router_vote state v).
  - exists e. split.
    + assert (In e (filter isError (issuesOrEmpty (Some v))))
        by (rewrite E; now left).
      now apply filter_In in H.
    + unfold blueprintValidatorRouter. now rewrite Hv, Hvalid, E.
Qed.

Lemma node_decides state update :
  blueprintValidatorNode state = Normal update ->
  exists bp found,
    blueprint state = Some bp /\ collectIssues bp = Normal found
    /\ update = decide (currentCycles state) found.
Proof.
  unfold blueprintValidatorNode.
  destruct (blueprint state) as [bp |]; [| discriminate]. intro H.
  apply ValidatorFacts.bind_Normal in H. destruct H as (found & Hf & H).
  injection H as <-. now exists bp, found.
Qed.

(** What the node reports, in the three cases of its decision. *)
Lemma decide_cases cycles found :
  (found = []
   /\ decide cycles found
      = {| upd_blueprintValidation :=
             {| isValid := true; issues := Some [];
                validationCycles := Some (cycles + 1)%Z |};
           upd_currentPhase := Some "planner" |})
  \/ (found <> [] /\ (MAX_VALIDATION_CYCLES <= cycles)%Z
      /\ decide cycles found
         = {| upd_blueprintValidation :=
                {| isValid := true; issues := Some found;
                   validationCycles := Some (cycles + 1)%Z |};
              upd_currentPhase := Some "planner" |})
  \/ (found <> [] /\ (cycles < MAX_VALIDATION_CYCLES)%Z
      /\ decide cycles found
         = {| upd_blueprintValidation :=
                {| isValid := false; issues := Some found;
                   validationCycles := Some (cycles + 1)%Z |};
              upd_currentPhase := None |}).
Proof.
  destruct found as [| i found]; [now left |]. right. unfold decide.
  destruct (Z.leb_spec MAX_VALIDATION_CYCLES cycles).
  - left. repeat split; [discriminate | assumption].
  - right. repeat split; [discriminate | assumption].
Qed.

(** X13: the router ends the loop exactly when the validator reported the
    blueprint valid; whenever the validator reported it invalid, the router
    names an architect step, the fix target of one of the issues. *)
Theorem router_ends_iff_passed (state : State) (update : Update)
    (Hnode : blueprintValidatorNode state = Normal update) :
  (blueprintValidatorRouter (afterValidator state update) = "__end__"
   <-> isValid (upd_blueprintValidation update) = true)
  /\ (isValid (upd_blueprintValidation update) = false ->
      exists i, In i (issuesOrEmpty (Some (upd_blueprintValidation update)))
                /\ blueprintValidatorRouter (afterValidator state update)
                   = nodeName (fixTarget i)).
Proof.
  apply node_decides in Hnode.
  destruct Hnode as (bp & found & _ & _ & ->).
  set (update := decide (currentCycles state) found).
  assert (Hback : isValid (upd_blueprintValidation update) = false ->
    exists i, In i (issuesOrEmpty (Some (upd_blueprintValidation update)))
              /\ blueprintValidatorRouter (afterValidator state update)
                 = nodeName (fixTarget i)).
  { intro Hinvalid.
    apply (router_names_target (afterValidator state update)
             (upd_blueprintValidation update));
      [reflexivity | assumption |].
    subst update.
    destruct (decide_cases (currentCycles state) found)
      as [[_ E] | [(_ & _ & E) | (Hne & _ & E)]];
      rewrite E in *; try discriminate. exact Hne. }
  split; [| exact Hback]. split.
  - intro Hend. destruct (isValid (upd_blueprintValidation update)) eqn:Hv;
      [reflexivity |].
    destruct (Hback eq_refl) as (i & _ & Hi). rewrite Hi in Hend.
    now apply nodeName_not_end in Hend.
  - intro Hvalid.
    now apply (ValidatorFacts.router_ends_when_valid
                 (afterValidator state update)
                 (upd_blueprintValidation update)).
Qed.

(** Test 1 again: invalid, and the router names step 2. *)
Lemma router_ends_iff_passed_witness :
  (blueprintValidatorRouter
     (afterValidator MoreExamples.commentState
        (decide 0 (match collectIssues MoreExamples.commentBlueprint with
                   | Normal l => l
                   | TypeError _ => []
                   end))) = "__end__"
   <-> isValid (upd_blueprintValidation
         (decide 0 (match collectIssues MoreExamples.commentBlueprint with
                    | Normal l => l
                    | TypeError _ => []
                    end))) = true)
  /\ (isValid (upd_blueprintValidation
         (decide 0 (match collectIssues MoreExamples.commentBlueprint with
                    | Normal l => l
                    | TypeError _ => []
                    end))) = false ->
      exists i,
        In i (issuesOrEmpty (Some (upd_blueprintValidation
                (decide 0 (match collectIssues MoreExamples.commentBlueprint
                           with
                           | Normal l => l
                           | TypeError _ => []
                           end)))))
        /\ blueprintValidatorRouter
             (afterValidator MoreExamples.commentState
                (decide 0 (match collectIssues MoreExamples.commentBlueprint
                           with
                           | Normal l => l
                           | TypeError _ => []
                           end)))
           = nodeName (fixTarget i)).
Proof.
  apply (router_ends_iff_passed MoreExamples.commentState).
  reflexivity.
Defined.

End ValidatorMore.

(* ================================================================== *)
(** ** Where the validator sends the run, and how often *)

Module ValidatorRouting.
Import Validator ValidatorRun.

Lemma isError_made ty i :
  made ty i -> fst (profile ty) = error -> isError i = true.
Proof.
  intros H E. apply ValidatorMore.made_profile in H. destruct H as [H _].
  unfold isError. now rewrite H, E.
Qed.

(** The router on a list of issues that starts with an error. *)
Lemma router_first_error (state : State) (v : Validation) first rest :
  blueprintValidation state = Some v -> isValid v = false ->
  issues v = Some (first :: rest) -> isError first = true ->
  blueprintValidatorRouter state = nodeName (fixTarget first).
Proof.
  intros Hv Hvalid Hissues Hfirst. unfold blueprintValidatorRouter.
  rewrite Hv, Hvalid. unfold issuesOrEmpty. rewrite Hissues. simpl.
  now rewrite Hfirst.
Qed.

Lemma head_of_app {X : Type} (P : X -> Prop) (l r : list X) :
  Forall P l -> l <> [] -> exists x rest, l ++ r = x :: rest /\ P x.
Proof.
  intros H Hne. destruct l as [| x l]; [contradiction |].
  exists x, (l ++ r). split; [reflexivity | now inversion H].
Qed.

(** X14: below the ceiling the first check that found an error decides where
    the run goes: to step 2 when an entity lacks a table or a foreign key is
    broken; else to step 3 when an endpoint names a missing table; and with
    warnings only to step 3 or step 4, never to step 2. *)
Theorem errors_route_by_priority (state : State) (bp : Blueprint)
    (update : Update) (i1 i2 i3 : list Issue)
    (Hbp : blueprint state = Some bp)
    (Hnode : blueprintValidatorNode state = Normal update)
    (Hinvalid : isValid (upd_blueprintValidation update) = false)
    (H1 : check1 (entities bp) (dbSchema bp) = Normal i1)
    (H2 : check2 (dbSchema bp) = Normal i2)
    (H3 : check3 (apiEndpoints bp) (dbSchema bp) = Normal i3) :
  (i1 ++ i2 <> [] ->
   blueprintValidatorRouter (afterValidator state update) = "architectStep2")
  /\ (i1 ++ i2 = [] -> i3 <> [] ->
      blueprintValidatorRouter (afterValidator state update)
      = "architectStep3")
  /\ (i1 ++ i2 ++ i3 = [] ->
      blueprintValidatorRouter (afterValidator state update)
      = "architectStep3"
      \/ blueprintValidatorRouter (afterValidator state update)
         = "architectStep4").
Proof.
  apply ValidatorMore.node_decides in Hnode.
  destruct Hnode as (bp' & found & Hbp' & Hfound & ->).
  rewrite Hbp in Hbp'. injection Hbp' as <-.
  apply ValidatorMore.collectIssues_parts in Hfound.
  destruct Hfound as (j1 & j2 & j3 & i6 & J1 & J2 & J3 & H6 & Hfound).
  rewrite H1 in J1. injection J1 as <-.
  rewrite H2 in J2. injection J2 as <-.
  rewrite H3 in J3. injection J3 as <-.
  destruct (ValidatorMore.decide_cases (currentCycles state) found)
    as [[_ E] | [(_ & _ & E) | (Hne & _ & E)]];
    rewrite E in Hinvalid; try discriminate.
  rewrite E. clear E Hinvalid.
  apply ValidatorMore.check1_pushes in H1.
  apply ValidatorMore.check2_pushes in H2.
  apply ValidatorMore.check3_pushes in H3.
  apply ValidatorMore.check6_pushes in H6.
  pose proof (ValidatorMore.check4_pushes (frontendPages bp)
                (apiEndpoints bp)) as H4.
  pose proof (ValidatorMore.check5_pushes (apiEndpoints bp)
                (frontendPages bp)) as H5.
  set (state' := afterValidator state _).
  set (v := {| isValid := false; issues := Some found;
               validationCycles := Some (currentCycles state + 1)%Z |}).
  assert (Hv : blueprintValidation state' = Some v) by reflexivity.
  split; [| split].
  - intro H12.
    assert (Hdb : Forall (fun i => isError i = true
                                   /\ fixTarget i = architectStep2)
                    (i1 ++ i2)).
    { apply Forall_app. split; [revert H1 | revert H2]; apply Forall_impl;
        intros i Hi; (split; [now apply (isError_made _ i Hi) |]);
        now apply ValidatorMore.made_profile in Hi. }
    destruct (head_of_app _ (i1 ++ i2)
                (i3 ++ check4 (frontendPages bp) (apiEndpoints bp)
                 ++ check5 (apiEndpoints bp) (frontendPages bp) ++ i6)
                Hdb H12)
      as (x & rest & Hx & Herr & Htarget).
    rewrite <- app_assoc in Hx. rewrite <- Hfound in Hx.
    rewrite (router_first_error state' v x rest Hv eq_refl);
      [now rewrite Htarget | simpl; now rewrite Hx | assumption].
  - intros H12 Hne3. apply app_eq_nil in H12. destruct H12 as [-> ->].
    simpl in Hfound.
    assert (Hapi : Forall (fun i => isError i = true
                                    /\ fixTarget i = architectStep3) i3).
    { revert H3. apply Forall_impl. intros i Hi.
      split; [now apply (isError_made _ i Hi) |].
      now apply ValidatorMore.made_profile in Hi. }
    destruct (head_of_app _ i3
                (check4 (frontendPages bp) (apiEndpoints bp)
                 ++ check5 (apiEndpoints bp) (frontendPages bp) ++ i6)
                Hapi Hne3)
      as (x & rest & Hx & Herr & Htarget).
    rewrite <- Hfound in Hx.
    rewrite (router_first_error state' v x rest Hv eq_refl);
      [now rewrite Htarget | simpl; now rewrite Hx | assumption].
  - intro H123. apply app_eq_nil in H123. destruct H123 as [-> H23].
    apply app_eq_nil in H23. destruct H23 as [-> ->]. simpl in Hfound.
    destruct (ValidatorMore.router_names_target state' v Hv eq_refl)
      as (i & Hin & ->); [simpl; exact Hne |].
    simpl in Hin. rewrite Hfound in Hin.
    assert (Hw : Forall (fun i => fixTarget i = architectStep3
                                  \/ fixTarget i = architectStep4)
                   (check4 (frontendPages bp) (apiEndpoints bp)
                    ++ check5 (apiEndpoints bp) (frontendPages bp) ++ i6)).
    { repeat (apply Forall_app; split);
        [revert H4 | revert H5 | revert H6]; apply Forall_impl;
        intros j Hj; apply ValidatorMore.made_profile in Hj;
        destruct Hj as [_ Hj]; rewrite Hj; simpl; auto. }
    rewrite Forall_forall in Hw. destruct (Hw i Hin) as [-> | ->]; auto.
Qed.

(** Test 1 of the repository: the entity without a table sends the run to
    step 2. *)
Lemma errors_route_by_priority_witness :
  blueprintValidatorRouter
    (afterValidator MoreExamples.commentState
       (decide 0 (match collectIssues MoreExamples.commentBlueprint with
                  | Normal l => l
                  | TypeError _ => []
                  end))) = "architectStep2".
Proof.
  refine (proj1 (errors_route_by_priority MoreExamples.commentState
                   MoreExamples.commentBlueprint _
                   (match check1 (entities MoreExamples.commentBlueprint)
                            (dbSchema MoreExamples.commentBlueprint) with
                    | Normal l => l
                    | TypeError _ => []
                    end) [] [] eq_refl eq_refl eq_refl eq_refl eq_refl
                   eq_refl) _).
  discriminate.
Defined.

(** *** The loop between the validator and the architect *)

Lemma currentCycles_of (bp : option Blueprint) (v : Validation) (n : Z) :
  validationCycles v = Some n ->
  currentCycles {| blueprint := bp; blueprintValidation := Some v |} = n.
Proof.
  intro H. unfold currentCycles. simpl. rewrite H.
  destruct (Z.eqb_spec n 0); congruence.
Qed.

Lemma routeBacks_bound (blueprints : list Blueprint) :
  forall (v : Validation) (n : Z),
    validationCycles v = Some n -> (0 <= n)%Z ->
    routeBacks v blueprints <= Z.to_nat (MAX_VALIDATION_CYCLES - n).
Proof.
  induction blueprints as [| bp rest IH]; intros v n Hn Hpos;
    [simpl; lia |].
  cbn [routeBacks].
  set (state := {| blueprint := Some bp; blueprintValidation := Some v |}).
  destruct (blueprintValidatorNode state) as [update | what] eqn:Hnode;
    [| lia].
  destruct (String.eqb_spec
              (blueprintValidatorRouter (afterValidator state update))
              "__end__") as [| Hback]; [lia |].
  apply ValidatorMore.node_decides in Hnode.
  destruct Hnode as (bp' & found & _ & _ & ->).
  assert (Hcycles : currentCycles state = n)
    by now apply currentCycles_of.
  rewrite Hcycles in *.
  destruct (ValidatorMore.decide_cases n found)
    as [[_ E] | [(_ & _ & E) | (_ & Hbelow & E)]]; rewrite E in *.
  - exfalso. apply Hback.
    now apply (ValidatorFacts.router_ends_when_valid _
                 {| isValid := true; issues := Some [];
                    validationCycles := Some (n + 1)%Z |}).
  - exfalso. apply Hback.
    now apply (ValidatorFacts.router_ends_when_valid _
                 {| isValid := true; issues := Some found;
                    validationCycles := Some (n + 1)%Z |}).
  - change (StateStore.nullish
              (blueprintValidation (afterValidator state _))
              blueprintValidation_default)
      with {| isValid := false; issues := Some found;
              validationCycles := Some (n + 1)%Z |}.
    specialize (IH {| isValid := false; issues := Some found;
                      validationCycles := Some (n + 1)%Z |} (n + 1)%Z
                  eq_refl ltac:(lia)).
    unfold MAX_VALIDATION_CYCLES in *. lia.
Qed.

(** X15: however the architect rewrites the blueprint between the visits, a
    run that starts from the initial state is sent back to the architect at
    most [MAX_VALIDATION_CYCLES] times. *)
Theorem validator_loop_is_bounded (blueprints : list Blueprint) :
  routeBacks blueprintValidation_default blueprints
  <= Z.to_nat MAX_VALIDATION_CYCLES.
Proof.
  apply (routeBacks_bound blueprints blueprintValidation_default 0%Z
           eq_refl).
  lia.
Qed.

(** *** Check 2, the foreign keys *)




Lemma has_In (set : list string) (x : string) :
  In x set -> has set x = true.
Proof.
  intro H. unfold has. apply existsb_exists. exists x.
  split; [assumption | apply String.eqb_refl].
Qed.

Lemma mapM_In {A B : Type} (f : A -> Result B) (l : list A) bs a b :
  mapM f l = Normal bs -> In a l -> f a = Normal b -> In b bs.
Proof.
  revert bs. induction l as [| x l IH]; intros bs H Hin Hb; [contradiction |].
  simpl in H. apply ValidatorFacts.bind_Normal in H.
  destruct H as (y & Hy & H).
  apply ValidatorFacts.bind_Normal in H. destruct H as (ys & Hys & H).
  injection H as <-. destruct Hin as [-> | Hin].
  - rewrite Hb in Hy. injection Hy as <-. now left.
  - right. now apply (IH ys).
Qed.







(** *** Check 1, the entities *)

Lemma mapM_nothing {A B : Type} (f : A -> Result (list B)) (l : list A) :
  Forall (fun a => f a = Normal []) l ->
  exists bs, mapM f l = Normal bs /\ List.concat bs = [].
Proof.
  induction 1 as [| a l Ha _ (bs & IH & Hbs)]; [now exists [] |].
  exists ([] :: bs). simpl. now rewrite Ha, IH.
Qed.

(** X17: when every entity has a table named after it, in the singular, in
    the plural in [s] or in the plural in [ies], whatever the case of the
    letters, check 1 reports nothing. *)
Theorem named_tables_satisfy_check1 (ents : list Entity)
    (tbls : list Table)
    (Htables : named t_name (Some tbls))
    (Hents : Forall (fun e =>
               exists n t tn, e_name e = Some n /\ In t tbls
                              /\ t_name t = Some tn /\ namedAfter n tn)
               ents) :
  check1 (Some ents) (Some (mkDbSchema (Some tbls))) = Normal [].
Proof.
  unfold check1. simpl.
  destruct (ValidatorFacts.mapM_total (fun t => n <- lowerName "t.name" (t_name t) ;;
                                 Normal (stripFinalS n)) tbls)
    as [normalized ->].
  { revert Htables. apply Forall_impl. intros t Hn.
    destruct (t_name t); [simpl; eauto | contradiction]. }
  destruct (ValidatorFacts.mapM_total (fun t => lowerName "t.name" (t_name t)) tbls)
    as [exact Hexact].
  { revert Htables. apply Forall_impl. intros t Hn.
    destruct (t_name t); [simpl; eauto | contradiction]. }
  rewrite Hexact. simpl.
  match goal with
  | |- bind (mapM ?f ents) _ = _ =>
      destruct (mapM_nothing f ents) as (found & -> & Hnone)
  end; [| simpl; now rewrite Hnone].
  revert Hents. apply Forall_impl.
  intros e (n & t & tn & -> & Hin & Htn & Hnamed). simpl.
  assert (Hthere : In (JsString.toLowerCase tn) exact).
  { apply (mapM_In _ tbls exact t _ Hexact Hin). now rewrite Htn. }
  assert (Hhas : has (normalized ++ exact) (JsString.toLowerCase tn) = true)
    by (apply has_In, in_or_app; now right).
  destruct Hnamed as [E | [E | E]]; simpl in E; rewrite E in Hhas;
    rewrite Hhas; rewrite ?orb_true_r; reflexivity.
Qed.

(** [Category] with the table [categories], [User] with [USERS]. *)
Lemma named_tables_satisfy_check1_witness :
  check1 (Some [ mkEntity (Some "Category"); mkEntity (Some "User") ])
    (Some (mkDbSchema (Some [ Examples.table "categories" [];
                              Examples.table "USERS" [] ])))
  = Normal [].
Proof.
  apply named_tables_satisfy_check1.
  - repeat constructor; discriminate.
  - constructor; [| constructor; [| constructor]].
    + exists "Category", (Examples.table "categories" []), "categories".
      repeat split; [now left |]. right. right. reflexivity.
    + exists "User", (Examples.table "USERS" []), "USERS".
      repeat split; [right; now left |]. right. left. reflexivity.
Defined.

End ValidatorRouting.

(* ================================================================== *)
(** ** The graph of [config/graph.js] *)

Module GraphFacts.
Import Validator Graph.

(** The router of the validator names the end or an architect step. *)
Lemma router_range (state : State) :
  blueprintValidatorRouter state = "__end__"
  \/ exists t, blueprintValidatorRouter state = nodeName t.
Proof.
  destruct (blueprintValidation state) as [v |] eqn:Hv;
    [| left; now apply ValidatorFacts.router_ends_without_validation].
  destruct (isValid v) eqn:Hvalid;
    [left; now apply (ValidatorFacts.router_ends_when_valid state v) |].
  destruct (issuesOrEmpty (Some v)) as [| i l] eqn:Hissues.
  - left. unfold blueprintValidatorRouter. now rewrite Hv, Hvalid, Hissues.
  - right.
    destruct (ValidatorMore.router_names_target state v Hv Hvalid)
      as (j & _ & Hj); [now rewrite Hissues | now exists (fixTarget j)].
Qed.

Lemma after_validator (state : RunState) :
  nextNode "blueprintValidator" state
  = StateStore.valueAt (blueprintValidatorRouter (validatorState state))
      [ ("__end__", "plannerAgent");
        ("architectStep2", "architectStep2");
        ("architectStep3", "architectStep3");
        ("architectStep4", "architectStep4") ].
Proof.
  reflexivity.
Qed.

Lemma after_validator_cases (state : RunState) :
  nextNode "blueprintValidator" state = Some "plannerAgent"
  \/ nextNode "blueprintValidator" state = Some "architectStep2"
  \/ nextNode "blueprintValidator" state = Some "architectStep3"
  \/ nextNode "blueprintValidator" state = Some "architectStep4".
Proof.
  rewrite after_validator.
  destruct (router_range (validatorState state)) as [-> | [[| |] ->]];
    simpl; auto.
Qed.

Lemma after_pmAgent (state : RunState) :
  nextNode "pmAgent" state = Some "humanInput"
  \/ nextNode "pmAgent" state = Some "architectStep1"
  \/ nextNode "pmAgent" state = Some END.
Proof.
  change (nextNode "pmAgent" state) with (Some (pmRouter state)).
  unfold pmRouter. destruct (String.eqb (pmStatus state) _); [now left |].
  destruct (String.eqb (pmStatus state) _); auto.
Qed.

Lemma after_healthCheck (state : RunState) :
  nextNode "sandboxHealthCheck" state = Some END.
Proof.
  change (nextNode "sandboxHealthCheck" state)
    with (StateStore.valueAt (sandboxHealthRouter state)
            [ ("__end__", END); ("setupSandbox", "setupSandbox") ]).
  unfold sandboxHealthRouter. now destruct (sandboxHealthy state).
Qed.

(** X18: from the start and from every node of the graph the next node is
    defined, whatever the state, and it is the end or a node of the graph:
    no router result lacks an entry in its path map. *)
Theorem every_route_is_wired (node : string) (state : RunState)
    (Hnode : In node (START :: nodes)) :
  exists target, nextNode node state = Some target
                 /\ (target = END \/ In target nodes).
Proof.
  simpl in Hnode.
  repeat (destruct Hnode as [<- | Hnode]); try contradiction;
    try (eexists; split; [reflexivity | simpl; tauto]).
  - destruct (after_pmAgent state) as [-> | [-> | ->]];
      eexists; (split; [reflexivity | simpl; tauto]).
  - destruct (after_validator_cases state) as [-> | [-> | [-> | ->]]];
      eexists; (split; [reflexivity | simpl; tauto]).
  - rewrite after_healthCheck. eexists. split; [reflexivity | now left].
Qed.

Lemma every_route_is_wired_witness :
  exists target,
    nextNode "blueprintValidator"
      {| pmStatus := "spec_ready";
         validatorState := MoreExamples.commentState;
         sandboxHealthy := false |} = Some target
    /\ (target = END \/ In target nodes).
Proof.
  apply every_route_is_wired. simpl. tauto.
Defined.

Ltac by_source node :=
  repeat match goal with
         | |- context [String.eqb ?k node] =>
             destruct (String.eqb_spec k node) as [<- |]
         end.

(** X19: the only way into [setupSandbox] is from the planner: after the
    health check the run ends, healthy or not, and the sandbox is never set
    up a second time. *)
Theorem setup_is_never_retried (node : string) (state : RunState)
    (Hnext : nextNode node state = Some "setupSandbox") :
  node = "plannerAgent".
Proof.
  destruct (String.eqb_spec node "pmAgent") as [-> |].
  { destruct (after_pmAgent state) as [E | [E | E]];
      rewrite E in Hnext; discriminate. }
  destruct (String.eqb_spec node "blueprintValidator") as [-> |].
  { destruct (after_validator_cases state) as [E | [E | [E | E]]];
      rewrite E in Hnext; discriminate. }
  destruct (String.eqb_spec node "sandboxHealthCheck") as [-> |].
  { rewrite after_healthCheck in Hnext. discriminate. }
  revert Hnext. unfold nextNode, StateStore.valueAt, edges.
  cbn [find fst snd option_map].
  by_source node; cbn [option_map snd]; try discriminate; try congruence;
    try reflexivity.
Qed.

Lemma setup_is_never_retried_witness :
  "plannerAgent" = "plannerAgent".
Proof.
  apply (setup_is_never_retried "plannerAgent"
           {| pmStatus := ""; validatorState := MoreExamples.commentState;
              sandboxHealthy := false |}).
  reflexivity.
Defined.

End GraphFacts.

(* ================================================================== *)
(** ** The sandbox *)

Module SandboxFacts.
Import StateStore Sandbox.

Section Host.

Variable pathJoin : string -> string -> string.
Variable existsSync : string -> bool.
Variable execSync : string -> string -> option Z -> ExecError + string.
Variable statfs : option (N * N).
Variable sandboxes : JsMap Info.

Lemma nil_test {X : Type} (l : list X) :
  match l with [] => true | _ => false end = true <-> l = [].
Proof.
  destruct l; split; congruence.
Qed.

Lemma unless_nil ok failure : unless ok failure = [] <-> ok = true.
Proof.
  destruct ok; simpl; split; congruence.
Qed.

Lemma flat_map_nil {X Y : Type} (f : X -> list Y) (l : list X) :
  flat_map f l = [] <-> forall x, In x l -> f x = [].
Proof.
  induction l as [| x l IH]; simpl; [tauto |]. split.
  - intros H y [<- | Hy]; apply app_eq_nil in H; destruct H as [Hx Hl];
      [assumption | now apply IH].
  - intro H. rewrite (H x) by now left. simpl. apply IH.
    intros y Hy. apply H. now right.
Qed.

Lemma healthCheck_healthy (sandboxId : string) :
  healthy (healthCheck pathJoin existsSync execSync statfs sandboxes
             sandboxId) = true
  <-> exists sandbox, valueAt sandboxId sandboxes = Some sandbox
                      /\ allChecksPass pathJoin existsSync execSync statfs
                           sandbox.
Proof.
  unfold healthCheck.
  destruct (valueAt sandboxId sandboxes) as [sandbox |]; cbv zeta;
    cbn [healthy];
    [| split; [discriminate | now intros (s & H & _)]].
  rewrite nil_test.
  assert (Hgit : gitInitialized execSync sandbox = true
                 <-> exists out,
                       execSync "git status" (sb_path sandbox) None = inr out).
  { unfold gitInitialized.
    destruct (execSync "git status" (sb_path sandbox) None) as [e | out].
    - split; [discriminate | now intros [out H]].
    - split; [now exists out | reflexivity]. }
  assert (Hdisk :
    match statfs with
    | Some (bfree, bsize) =>
        unless (negb (lowDisk bfree bsize))
          ("Low disk space: " ++ decimal (freeMB bfree bsize) ++ "MB free")
    | None => []
    end = []
    <-> forall bfree bsize, statfs = Some (bfree, bsize) ->
          (100 * (1024 * 1024) <= bfree * bsize)%N).
  { destruct statfs as [[bfree bsize] |]; [| split; [discriminate | auto]].
    rewrite unless_nil. unfold lowDisk. rewrite negb_true_iff, N.ltb_ge.
    split; [now intros H f s [= <- <-] | auto]. }
  unfold allChecksPass. split.
  - intro H.
    apply app_eq_nil in H. destruct H as [H1 H].
    apply app_eq_nil in H. destruct H as [H2 H].
    apply app_eq_nil in H. destruct H as [H3 H].
    apply app_eq_nil in H. destruct H as [H4 H].
    apply app_eq_nil in H. destruct H as [H5 H].
    apply app_eq_nil in H. destruct H as [H6 H].
    apply unless_nil in H1, H2, H3, H4, H5. apply Hgit in H5.
    exists sandbox. split; [reflexivity |].
    refine (conj H1 (conj H2 (conj H3 (conj H4 (conj H5
              (conj _ (proj1 Hdisk H))))))).
    intros dir Hdir.
    apply (unless_nil _ ("Missing directory: " ++ dir)%string).
    now apply (proj1 (flat_map_nil _ _) H6).
  - intros (s & [= <-] & H1 & H2 & H3 & H4 & H5 & H6 & H7).
    apply Hgit in H5.
    rewrite H1, H2, H3, H4, H5, (proj2 Hdisk H7). cbn [unless app].
    rewrite app_nil_r. apply flat_map_nil. intros dir Hdir.
    apply unless_nil. now apply H6.
Qed.

(** X20: the health node reports the sandbox healthy exactly when the state
    holds the id of a known sandbox and every check passes: the four
    directories and files, [git status], the six source directories and,
    where the platform tells, 100 MB of free disk; and it gives an error
    message exactly when it reports the sandbox unhealthy. *)
Theorem health_report_is_exact (sandboxId : option string) :
  (upd_sandboxHealthy
     (sandboxHealthCheckNode pathJoin existsSync execSync statfs sandboxes
        sandboxId) = true
   <-> exists id sandbox,
         sandboxId = Some id /\ id <> ""
         /\ valueAt id sandboxes = Some sandbox
         /\ allChecksPass pathJoin existsSync execSync statfs sandbox)
  /\ (upd_error
        (sandboxHealthCheckNode pathJoin existsSync execSync statfs sandboxes
           sandboxId) = None
      <-> upd_sandboxHealthy
            (sandboxHealthCheckNode pathJoin existsSync execSync statfs
               sandboxes sandboxId) = true).
Proof.
  unfold sandboxHealthCheckNode.
  destruct sandboxId as [[| c id] |].
  - split; split; try discriminate. now intros (id & s & [= <-] & H & _).
  - pose proof (healthCheck_healthy (String c id)) as H.
    destruct (healthy _); simpl.
    + split; [| tauto]. split; [| reflexivity]. intros _.
      destruct (proj1 H eq_refl) as (s & Hs & Hall).
      exists (String c id), s.
      split; [reflexivity | split; [discriminate | split; assumption]].
    + split; split; try discriminate.
      intros (id' & s & [= <-] & _ & Hs & Hall).
      apply H. now exists s.
  - split; split; try discriminate. now intros (id & s & H & _).
Qed.

(** X21: [executeCommand] on a known sandbox always returns, and the exit
    code it reports is 0 exactly when the command did not raise: a failure
    without a status, or with the status 0, is reported as 1. *)
Theorem exit_code_tells_success (sandboxId command : string)
    (timeout : option Z) (sandbox : Info)
    (Hknown : valueAt sandboxId sandboxes = Some sandbox) :
  exists r,
    executeCommand execSync sandboxes sandboxId command timeout = inr r
    /\ (exitCode r = 0%Z
        <-> exists out,
              execSync command (sb_path sandbox)
                (Some (nullish timeout 30000%Z)) = inr out).
Proof.
  unfold executeCommand. rewrite Hknown.
  destruct (execSync command (sb_path sandbox) _) as [e | out].
  - eexists. split; [reflexivity |]. simpl. split.
    + unfold orOne. destruct (err_status e) as [z |]; [| discriminate].
      destruct (Z.eqb_spec z 0); [discriminate | contradiction].
    + now intros [out H].
  - eexists. split; [reflexivity |]. simpl. split; [now exists out | auto].
Qed.

End Host.

Lemma exit_code_tells_success_witness :
  exists r,
    executeCommand MoreExamples.gitBroken MoreExamples.boxes "sandbox-1"
      "npm test" None = inr r
    /\ (exitCode r = 0%Z
        <-> exists out,
              MoreExamples.gitBroken "npm test"
                (sb_path MoreExamples.box) (Some (nullish None 30000%Z))
              = inr out).
Proof.
  apply (exit_code_tells_success MoreExamples.gitBroken MoreExamples.boxes
           "sandbox-1" "npm test" None MoreExamples.box).
  reflexivity.
Defined.

(** *** Snapshots *)

Lemma decimal_inj (a b : N) : decimal a = decimal b -> a = b.
Proof.
  unfold decimal. intro H.
  assert (Hnonnil : forall n, N.to_uint n <> Decimal.Nil).
  { intros [| p]; [discriminate |]. apply DecimalPos.Unsigned.to_uint_nonnil. }
  apply DecimalN.Unsigned.to_uint_inj.
  pose proof (DecimalString.NilZero.usu _ (Hnonnil a)) as Ha.
  pose proof (DecimalString.NilZero.usu _ (Hnonnil b)) as Hb.
  rewrite H in Ha. congruence.
Qed.

Lemma append_inv_tail (a b t : string) :
  (a ++ t = b ++ t)%string -> a = b.
Proof.
  intro H. apply (f_equal list_ascii_of_string) in H.
  rewrite !FenceFacts.list_of_append in H. apply app_inv_tail in H.
  apply (f_equal string_of_list_ascii) in H.
  now rewrite !string_of_list_ascii_of_string in H.
Qed.

Lemma tagOf_inj (a b : N) : tagOf a = tagOf b -> a = b.
Proof.
  unfold tagOf. intro H. injection H as H.
  now apply decimal_inj, (append_inv_tail _ _ ".0").
Qed.

Lemma snapshot_unknown execSync sandboxes sandboxId message :
  valueAt sandboxId sandboxes = None ->
  snapshot execSync sandboxes sandboxId message
  = (inl ("Sandbox " ++ sandboxId ++ " not found")%string, sandboxes).
Proof.
  intro H. unfold snapshot. now rewrite H.
Qed.

(** One call: the count goes up by one, whether git succeeds or not, and a
    tag granted is that of the new count. *)
Lemma snapshot_known execSync sandboxes sandboxId message sandbox :
  valueAt sandboxId sandboxes = Some sandbox ->
  exists r sandbox',
    snapshot execSync sandboxes sandboxId message
    = (r, mapSet sandboxId sandbox' sandboxes)
    /\ snapshotCount sandbox' = (snapshotCount sandbox + 1)%N
    /\ (tagsOf r = [] \/ tagsOf r = [tagOf (snapshotCount sandbox + 1)]).
Proof.
  intro H. unfold snapshot. rewrite H. cbv zeta.
  eexists. eexists. split; [reflexivity |]. split; [reflexivity |].
  destruct (firstFailure _ _ _); simpl; auto.
Qed.

Lemma run_tags sandboxId calls :
  forall sandboxes,
    match valueAt sandboxId sandboxes with
    | None => flat_map tagsOf (snapshotRun sandboxId calls sandboxes) = []
    | Some sandbox =>
        NoDup (flat_map tagsOf (snapshotRun sandboxId calls sandboxes))
        /\ forall t, In t (flat_map tagsOf
                             (snapshotRun sandboxId calls sandboxes)) ->
                     exists k, (snapshotCount sandbox < k)%N /\ t = tagOf k
    end.
Proof.
  induction calls as [| [execSync message] calls IH]; intro sandboxes.
  - simpl. destruct (valueAt sandboxId sandboxes);
      [split; [constructor | contradiction] | reflexivity].
  - cbn [snapshotRun].
    destruct (valueAt sandboxId sandboxes) as [sandbox |] eqn:Hs.
    + destruct (snapshot_known execSync sandboxes sandboxId message sandbox Hs)
        as (r & sandbox' & -> & Hcount & Hr).
      specialize (IH (mapSet sandboxId sandbox' sandboxes)).
      rewrite StateStoreFacts.valueAt_mapSet, String.eqb_refl in IH.
      destruct IH as [Hnodup Hlater]. cbn [flat_map].
      destruct Hr as [-> | ->]; cbn [app].
      * split; [assumption |]. intros t Ht.
        destruct (Hlater t Ht) as (k & Hk & ->). exists k. split; [lia | auto].
      * split.
        -- constructor; [| assumption]. intro Hin.
           destruct (Hlater _ Hin) as (k & Hk & E).
           apply tagOf_inj in E. lia.
        -- intros t [<- | Ht]; [eexists; split; [| reflexivity]; lia |].
           destruct (Hlater t Ht) as (k & Hk & ->). exists k.
           split; [lia | auto].
    + rewrite (snapshot_unknown _ _ _ _ Hs). cbn [flat_map tagsOf app].
      specialize (IH sandboxes). now rewrite Hs in IH.
Qed.

(** X22: over any series of snapshots of a sandbox, whichever of them fail,
    no tag is granted twice: the count moves on at every call, before git is
    tried. *)
Theorem snapshot_tags_never_repeat (sandboxId : string)
    (calls : list ((string -> string -> option Z -> ExecError + string)
                   * string))
    (sandboxes : JsMap Info) :
  NoDup (flat_map tagsOf (snapshotRun sandboxId calls sandboxes)).
Proof.
  pose proof (run_tags sandboxId calls sandboxes) as H.
  destruct (valueAt sandboxId sandboxes); [apply H | rewrite H; constructor].
Qed.

End SandboxFacts.

(* ================================================================== *)
(** ** The sandbox: destroying it, listing its files *)

Module SandboxFiles.
Import StateStore Sandbox.




(** *** The file list *)

Lemma Dirent_nested_ind (P : Dirent -> Prop) :
  (forall name, P (FileEntry name)) ->
  (forall name entries, Forall P entries -> P (Directory name entries)) ->
  forall e, P e.
Proof.
  intros Hfile Hdir. fix IH 1. intros [name | name entries].
  - apply Hfile.
  - apply Hdir. induction entries as [| e entries IHentries];
      constructor; [apply IH | assumption].
Qed.

Lemma LeadsTo_from (entries : list Dirent) (chain : list string) :
  LeadsTo entries chain
  <-> exists e, In e entries /\ LeadsTo [e] chain.
Proof.
  split.
  - intros [es name H | es name inner rest H Hinner].
    + exists (FileEntry name). split; [assumption |].
      apply leads_file. now left.
    + exists (Directory name inner). split; [assumption |].
      apply (leads_dir _ name inner); [now left | assumption].
  - intros (e & He & H).
    inversion H as [es name Hin | es name inner rest Hin Hinner]; subst.
    + destruct Hin as [-> | []]. now apply leads_file.
    + destruct Hin as [-> | []]. now apply (leads_dir _ name inner).
Qed.

Lemma LeadsTo_nonempty (entries : list Dirent) (chain : list string) :
  LeadsTo entries chain ->
  exists e rest, In e entries /\ chain = direntName e :: rest.
Proof.
  intros [es name H | es name inner rest H Hinner].
  - now exists (FileEntry name), [].
  - now exists (Directory name inner), rest.
Qed.

Lemma walkEntry_spec (e : Dirent) :
  forall prefix p,
    In p (walkEntry prefix e)
    <-> exists chain, LeadsTo [e] chain /\ unskipped chain
                      /\ p = fold_left relOf chain prefix.
Proof.
  induction e as [name | name entries IH] using Dirent_nested_ind;
    intros prefix p; simpl.
  - split.
    + destruct (skipped name) eqn:Hs; [contradiction |].
      intros [<- | []]. exists [name]. split; [apply leads_file; now left |].
      split; [now constructor | reflexivity].
    + intros (chain & H & Hun & ->).
      inversion H as [es n Hin | es n inner rest Hin Hinner]; subst.
      * destruct Hin as [[= <-] | []]. inversion Hun as [| ? ? Hs _]; subst.
        rewrite Hs. now left.
      * destruct Hin as [Hin | []]. discriminate Hin.
  - split.
    + destruct (skipped name) eqn:Hs; [contradiction |].
      intro H. apply in_flat_map in H. destruct H as (e & He & H).
      rewrite Forall_forall in IH. apply (IH e He) in H.
      destruct H as (chain & Hchain & Hun & ->).
      exists (name :: chain). split.
      * apply (leads_dir _ name entries); [now left |].
        apply LeadsTo_from. now exists e.
      * split; [now constructor | reflexivity].
    + intros (chain & H & Hun & ->).
      inversion H as [es n Hin | es n inner rest Hin Hinner]; subst.
      * destruct Hin as [Hin | []]. discriminate Hin.
      * destruct Hin as [[= <- <-] | []].
        inversion Hun as [| ? ? Hs Hrest]; subst. rewrite Hs.
        apply LeadsTo_from in Hinner. destruct Hinner as (e & He & Hchain).
        apply in_flat_map. exists e. split; [assumption |].
        rewrite Forall_forall in IH. apply (IH e He).
        now exists rest.
Qed.

Lemma walk_spec (entries : list Dirent) (prefix p : string) :
  In p (walk entries prefix)
  <-> exists chain, LeadsTo entries chain /\ unskipped chain
                    /\ p = fold_left relOf chain prefix.
Proof.
  unfold walk. rewrite in_flat_map. split.
  - intros (e & He & H). apply walkEntry_spec in H.
    destruct H as (chain & Hchain & Hrest). exists chain.
    split; [apply LeadsTo_from; now exists e | assumption].
  - intros (chain & Hchain & Hrest). apply LeadsTo_from in Hchain.
    destruct Hchain as (e & He & Hchain). exists e. split; [assumption |].
    apply walkEntry_spec. now exists chain.
Qed.

Lemma fold_relOf (chain : list string) :
  forall prefix, prefix <> "" ->
                 fold_left relOf chain prefix = (prefix ++ below chain)%string.
Proof.
  induction chain as [| name chain IH]; intros prefix H; simpl.
  - now rewrite FenceFacts.append_nil_r.
  - rewrite IH.
    + destruct prefix; [contradiction |]. unfold relOf.
      now rewrite !FenceFacts.append_assoc.
    + destruct prefix; [contradiction | discriminate].
Qed.

Lemma pathOf_cons (name : string) (chain : list string) :
  pathOf (name :: chain) = (name ++ below chain)%string.
Proof.
  unfold pathOf. revert name.
  induction chain as [| next chain IH]; intro name.
  - simpl. now rewrite FenceFacts.append_nil_r.
  - change (JsString.join "/" (name :: next :: chain))
      with (name ++ "/" ++ JsString.join "/" (next :: chain))%string.
    now rewrite IH.
Qed.

Lemma fold_relOf_top (entries : list Dirent) (chain : list string) :
  Forall (fun e => direntName e <> "") entries ->
  LeadsTo entries chain ->
  fold_left relOf chain "" = pathOf chain.
Proof.
  intros Hnames H. apply LeadsTo_nonempty in H.
  destruct H as (e & rest & He & ->).
  rewrite Forall_forall in Hnames. specialize (Hnames e He).
  rewrite pathOf_cons. simpl. now apply fold_relOf.
Qed.

(** X24: [getFileList] of a known sandbox returns exactly the files that a
    chain of directories leads to from the root, none of the names on the
    way being [node_modules] or [.git], each under its path relative to the
    root, the names joined by [/]. *)
Theorem file_list_is_exact (sandboxes : JsMap Info)
    (root : string -> list Dirent) (sandboxId : string) (sandbox : Info)
    (Hknown : valueAt sandboxId sandboxes = Some sandbox)
    (Hnames : Forall (fun e => direntName e <> "")
                (root (sb_path sandbox))) :
  exists files,
    getFileList sandboxes root sandboxId = inr files
    /\ forall p,
         In p files
         <-> exists chain,
               LeadsTo (root (sb_path sandbox)) chain /\ unskipped chain
               /\ p = pathOf chain.
Proof.
  unfold getFileList. rewrite Hknown. eexists. split; [reflexivity |].
  intro p. rewrite walk_spec. split.
  - intros (chain & Hchain & Hun & ->). exists chain.
    repeat split; try assumption.
    now apply (fold_relOf_top (root (sb_path sandbox))).
  - intros (chain & Hchain & Hun & ->). exists chain.
    repeat split; try assumption. symmetry.
    now apply (fold_relOf_top (root (sb_path sandbox))).
Qed.

Lemma file_list_is_exact_witness :
  exists files,
    getFileList MoreExamples.boxes (fun _ => MoreExamples.tree) "sandbox-1"
    = inr files
    /\ forall p,
         In p files
         <-> exists chain,
               LeadsTo MoreExamples.tree chain /\ unskipped chain
               /\ p = pathOf chain.
Proof.
  apply (file_list_is_exact MoreExamples.boxes (fun _ => MoreExamples.tree)
           "sandbox-1" MoreExamples.box).
  - reflexivity.
  - repeat constructor; discriminate.
Defined.

End SandboxFiles.
